(** * Expense-claim portal: a shallow embedding of the claim server

    The repository ships two copies of the Express server:
    - [src/unnamed/part_000], the server the HR page talks to (port 3407),
    - [src/Backend/server.js], an earlier copy of the same file.
    Both share the request validation, the status update and the upload
    configuration line for line; they differ in the document loop of the
    submission handler, in its [catch] block, in the claim listing and in the
    last-resort error handler.  The shared code is embedded once and the two
    copies are told apart by a [variant].

    Conventions of the embedding:
    - a JavaScript string is a [string] (a sequence of 8-bit code units);
    - a request field is [option string]: [None] is [undefined];
    - a JavaScript number is a [number]: NaN, an infinity, or the exact
      rational value of a binary64 float; [fl] rounds a rational to binary64;
    - a [Date] is its time value, an integer number of milliseconds since the
      epoch; one request observes one clock reading [now];
    - PostgreSQL is a pair of tables held as lists of rows; the file system is
      a finite map from paths to file contents.

    Besides the request handlers the development covers the names under
    which uploads are stored, and the tables and totals that the HR page
    ([src/HR_Page/working.h]) computes from the listing.  Amounts are also
    given as decimal literals with their rational values, against which the
    reading of the handler is proved. *)

From Stdlib Require Import ZArith QArith Qround Qpower String Ascii List Bool.
From Stdlib Require Import Lia Lqa.
From Stdlib Require Import Sorting.Sorted Sorting.Permutation.
From stdpp Require Import gmap strings list.

Local Open Scope Z_scope.
Local Open Scope string_scope.

(* ===================================================================== *)
(** ** JavaScript strings and regular expressions *)
(* ===================================================================== *)

Module JS.

(** [!x] for a value that is [undefined] or a string. *)
Definition falsy (x : option string) : bool :=
  match x with
  | None => true
  | Some EmptyString => true
  | Some (String _ _) => false
  end.

(** The string behind a field once [falsy] has excluded [undefined]. *)
Definition str (x : option string) : string := default "" x.

(** Regular expressions, as far as the literals of the server go: character
    classes, concatenation, alternation and repetition.  A class is a list of
    inclusive ranges of code units. *)
Inductive regex : Type :=
| re_void
| re_eps
| re_set (cls : list (ascii * ascii))
| re_seq (r1 r2 : regex)
| re_alt (r1 r2 : regex)
| re_star (r : regex).

Definition code (c : ascii) : N := N_of_ascii c.

Definition in_range (c : ascii) (rg : ascii * ascii) : bool :=
  (code (fst rg) <=? code c)%N && (code c <=? code (snd rg))%N.

Definition in_class (c : ascii) (cls : list (ascii * ascii)) : bool :=
  existsb (in_range c) cls.

Definition re_chr (c : ascii) : regex := re_set [(c, c)].

Fixpoint re_lit (s : string) : regex :=
  match s with
  | EmptyString => re_eps
  | String c s' => re_seq (re_chr c) (re_lit s')
  end.

Definition re_plus (r : regex) : regex := re_seq r (re_star r).

(** [\d] *)
Definition re_digit : regex := re_set [("0", "9")]%char.

Fixpoint nullable (r : regex) : bool :=
  match r with
  | re_void => false
  | re_eps => true
  | re_set _ => false
  | re_seq r1 r2 => nullable r1 && nullable r2
  | re_alt r1 r2 => nullable r1 || nullable r2
  | re_star _ => true
  end.

Fixpoint deriv (c : ascii) (r : regex) : regex :=
  match r with
  | re_void => re_void
  | re_eps => re_void
  | re_set cls => if in_class c cls then re_eps else re_void
  | re_seq r1 r2 =>
      if nullable r1
      then re_alt (re_seq (deriv c r1) r2) (deriv c r2)
      else re_seq (deriv c r1) r2
  | re_alt r1 r2 => re_alt (deriv c r1) (deriv c r2)
  | re_star r1 => re_seq (deriv c r1) (re_star r1)
  end.

(** [/^r$/.test(s)]: the whole of [s] is a word of [r]. *)
Fixpoint RegExp_test (r : regex) (s : string) : bool :=
  match s with
  | EmptyString => nullable r
  | String c s' => RegExp_test (deriv c r) s'
  end.

(** The words of a regular expression. *)
Inductive matches : regex -> string -> Prop :=
| m_eps : matches re_eps ""
| m_set c cls : in_class c cls = true -> matches (re_set cls) (String c "")
| m_seq r1 r2 s1 s2 :
    matches r1 s1 -> matches r2 s2 -> matches (re_seq r1 r2) (s1 ++ s2)
| m_alt_l r1 r2 s : matches r1 s -> matches (re_alt r1 r2) s
| m_alt_r r1 r2 s : matches r2 s -> matches (re_alt r1 r2) s
| m_star_nil r : matches (re_star r) ""
| m_star_app r s1 s2 :
    matches r s1 -> matches (re_star r) s2 -> matches (re_star r) (s1 ++ s2).

(* --------------------------------------------------------------------- *)
(** *** Numbers *)

(** A Number value.  [Finite q] stands for the binary64 float whose exact
    value is [q]; the sign of zero is not kept (no test of the server can
    tell the two zeros apart). *)
Inductive number : Type :=
| NaN
| Infinity (negative : bool)
| Finite (q : Q).

Definition isNaN (x : number) : bool :=
  match x with NaN => true | _ => false end.

(** [x <= y], false when either side is NaN. *)
Definition num_le (x y : number) : bool :=
  match x, y with
  | NaN, _ | _, NaN => false
  | Infinity true, _ => true
  | _, Infinity false => true
  | Infinity false, _ => false
  | _, Infinity true => false
  | Finite a, Finite b => Qle_bool a b
  end.

(** [x > y], false when either side is NaN. *)
Definition num_gt (x y : number) : bool :=
  match x, y with
  | NaN, _ | _, NaN => false
  | _, _ => negb (num_le x y)
  end.

Definition num_neg (x : number) : number :=
  match x with
  | NaN => NaN
  | Infinity b => Infinity (negb b)
  | Finite q => Finite (Qred (- q))
  end.

(** Round to nearest integer, ties to even. *)
Definition round_half_even (x : Q) : Z :=
  let f := Qfloor x in
  match (x - inject_Z f ?= 1 # 2)%Q with
  | Lt => f
  | Gt => f + 1
  | Eq => if Z.even f then f else f + 1
  end.

(** For [q > 0], the exponent [e] with [2^e <= q < 2^(e+1)]. *)
Definition binade (q : Q) : Z :=
  let e0 := Z.log2 (Qnum q) - Z.log2 (Zpos (Qden q)) in
  if Qle_bool (2 ^ e0) q then e0 else e0 - 1.

(** The spacing of binary64 floats around [q > 0]: 53 significant bits,
    and the fixed spacing [2^-1074] of the subnormal range. *)
Definition quantum (q : Q) : Z := Z.max (binade q) (-1022) - 52.

(** The multiple of the spacing nearest to [q > 0]. *)
Definition fl_val (q : Q) : Q :=
  inject_Z (round_half_even (q / 2 ^ quantum q)) * 2 ^ quantum q.

Definition fl_pos (q : Q) : number :=
  let v := fl_val q in
  if Qle_bool (2 ^ 1024) v then Infinity false else Finite (Qred v).

(** The largest float below 1: [Math.random()] never exceeds it. *)
Definition below_one : Q := 1 - (1 # 2) ^ 53.

(** Rounding of an exact result to binary64 (round to nearest, ties to
    even; overflow to an infinity). *)
Definition fl (q : Q) : number :=
  match (q ?= 0)%Q with
  | Eq => Finite 0
  | Gt => fl_pos q
  | Lt => num_neg (fl_pos (- q))
  end.

(** [x + y] and [x * y]. *)
Definition num_add (x y : number) : number :=
  match x, y with
  | NaN, _ | _, NaN => NaN
  | Infinity a, Infinity b => if Bool.eqb a b then Infinity a else NaN
  | Infinity a, Finite _ | Finite _, Infinity a => Infinity a
  | Finite a, Finite b => fl (a + b)
  end.

Definition num_sign (x : number) : comparison :=
  match x with
  | NaN => Eq
  | Infinity b => if b then Lt else Gt
  | Finite q => (q ?= 0)%Q
  end.

Definition num_mul (x y : number) : number :=
  match x, y with
  | NaN, _ | _, NaN => NaN
  | Finite a, Finite b => fl (a * b)
  | _, _ =>
      match num_sign x, num_sign y with
      | Eq, _ | _, Eq => NaN
      | Lt, Lt | Gt, Gt => Infinity false
      | _, _ => Infinity true
      end
  end.

Definition Math_floor (x : number) : number :=
  match x with
  | Finite q => Finite (inject_Z (Qfloor q))
  | _ => x
  end.

(** Decimal digits of a non-negative integer. *)
Definition digit_char (d : Z) : ascii := ascii_of_N (48 + Z.to_N d).

Fixpoint digits_of (fuel : nat) (n : Z) (acc : string) : string :=
  match fuel with
  | O => acc
  | S fuel' =>
      let acc' := String (digit_char (n mod 10)) acc in
      if (n / 10 =? 0)%Z then acc' else digits_of fuel' (n / 10) acc'
  end.

Definition Z_toString (n : Z) : string :=
  if (n <? 0)%Z
  then String "-" (digits_of (S (Z.to_nat (Z.log2 (- n)))) (- n) "")
  else digits_of (S (Z.to_nat (Z.log2 n))) n "".

(** [`${x}`].  The server only prints results of [Math.floor] and of
    [getFullYear]; for an integer below [10^21] JavaScript prints the decimal
    digits, which is what this definition does for every finite value. *)
Definition Number_toString (x : number) : string :=
  match x with
  | NaN => "NaN"
  | Infinity false => "Infinity"
  | Infinity true => "-Infinity"
  | Finite q => Z_toString (Qfloor q)
  end.

(** White space and line terminators that [parseFloat] skips. *)
Definition is_white (c : ascii) : bool :=
  existsb (N.eqb (code c)) [9; 10; 11; 12; 13; 32; 160]%N.

Fixpoint trimStart (s : string) : string :=
  match s with
  | String c s' => if is_white c then trimStart s' else s
  | EmptyString => s
  end.

Definition is_digit (c : ascii) : bool := in_range c ("0", "9")%char.

Definition digit_val (c : ascii) : Z := Z.of_N (code c) - 48.

(** Reads the longest run of decimal digits: its value continuing [acc], the
    number of digits read continuing [n], and the rest of the string. *)
Fixpoint take_digits (s : string) (acc n : Z) : Z * Z * string :=
  match s with
  | String c s' =>
      if is_digit c then take_digits s' (10 * acc + digit_val c) (n + 1)
      else (acc, n, s)
  | EmptyString => (acc, n, s)
  end.

Definition strip_sign (s : string) : bool * string :=
  match s with
  | String "-" s' => (true, s')
  | String "+" s' => (false, s')
  | _ => (false, s)
  end.

(** The value of an ExponentPart at the head of [s], [0] when there is none
    (an [e] that no digit follows is not part of the literal). *)
Definition exponent_part (s : string) : Z :=
  match s with
  | String c s' =>
      if (Ascii.eqb c "e" || Ascii.eqb c "E")%char then
        let '(neg, s'') := strip_sign s' in
        let '(v, n, _) := take_digits s'' 0 0 in
        if (n =? 0)%Z then 0 else if neg then - v else v
      else 0
  | EmptyString => 0
  end.

(** [parseFloat(s)]: skip leading white space, take the longest prefix that
    is a StrDecimalLiteral, NaN when there is none. *)
Definition parseFloat (input : string) : number :=
  let '(neg, s) := strip_sign (trimStart input) in
  if String.prefix "Infinity" s then Infinity neg else
  let '(ip, ni, s1) := take_digits s 0 0 in
  let '(fp, nf, s2) :=
    match s1 with
    | String "." s' => take_digits s' ip 0
    | _ => (ip, 0, s1)
    end in
  if (ni =? 0)%Z && (nf =? 0)%Z then NaN else
  let v := (inject_Z fp * 10 ^ (exponent_part s2 - nf))%Q in
  fl (if neg then - v else v).

(* --------------------------------------------------------------------- *)
(** *** Dates *)

(** What the host of the server fixes: the offset of local time from UTC in
    milliseconds, and the time value that [Date.parse] gives to a string
    that is not a calendar date of the form [YYYY-MM-DD] ([None] is NaN).
    [LocalTZA t isUTC] is the offset in force at the time value [t], read as
    a UTC time value when [isUTC] holds and as a local one otherwise: with
    daylight saving it changes through the year. *)
Record host : Type := {
  LocalTZA : Z -> bool -> Z;
  Date_parse_other : string -> option Z
}.

Definition msPerDay : Z := 86400000.

Definition Day (t : Z) : Z := t / msPerDay.
Definition TimeWithinDay (t : Z) : Z := t mod msPerDay.

Definition leap_year (y : Z) : bool :=
  ((y mod 4 =? 0)%Z && negb (y mod 100 =? 0)%Z) || (y mod 400 =? 0)%Z.

Definition DaysInYear (y : Z) : Z := if leap_year y then 366 else 365.

(** Day number of the first day of year [y]. *)
Definition DayFromYear (y : Z) : Z :=
  365 * (y - 1970) + (y - 1969) / 4 - (y - 1901) / 100 + (y - 1601) / 400.

(** The year a day falls in: the largest [y] with [DayFromYear y <= d],
    found next to the estimate that the mean length of a year gives. *)
Definition year_of_day (d : Z) : Z :=
  let y := 1970 + d * 400 / 146097 in
  if (DayFromYear (y + 1) <=? d)%Z then y + 1
  else if (DayFromYear y <=? d)%Z then y
  else y - 1.

Definition YearFromTime (t : Z) : Z := year_of_day (Day t).

Definition DayWithinYear (t : Z) : Z := Day t - DayFromYear (YearFromTime t).

(** Day within the year on which month [m] (0 = January) starts. *)
Definition month_start (leap : bool) (m : Z) : Z :=
  let l := if leap then 1 else 0 in
  match m with
  | 0 => 0
  | 1 => 31
  | 2 => 59 + l
  | 3 => 90 + l
  | 4 => 120 + l
  | 5 => 151 + l
  | 6 => 181 + l
  | 7 => 212 + l
  | 8 => 243 + l
  | 9 => 273 + l
  | 10 => 304 + l
  | 11 => 334 + l
  | _ => 365 + l
  end.

Fixpoint month_of_day (leap : bool) (dwy : Z) (fuel : nat) (m : Z) : Z :=
  match fuel with
  | O => m
  | S fuel' =>
      if (dwy <? month_start leap (m + 1))%Z then m
      else month_of_day leap dwy fuel' (m + 1)
  end.

Definition MonthFromTime (t : Z) : Z :=
  month_of_day (leap_year (YearFromTime t)) (DayWithinYear t) 11 0.

Definition DateFromTime (t : Z) : Z :=
  DayWithinYear t
  - month_start (leap_year (YearFromTime t)) (MonthFromTime t) + 1.

(** [MakeDay(year, month, date)]: months outside 0..11 carry into the year,
    and a [date] past the end of the month runs on into the next one. *)
Definition MakeDay (year month date : Z) : Z :=
  let ym := year + month / 12 in
  let mn := month mod 12 in
  DayFromYear ym + month_start (leap_year ym) mn + date - 1.

Definition MakeDate (day time : Z) : Z := day * msPerDay + time.

Definition TimeClip (t : Z) : option Z :=
  if (Z.abs t <=? 8640000000000000)%Z then Some t else None.

Definition LocalTime (h : host) (t : Z) : Z := t + LocalTZA h t true.
Definition UTC (h : host) (t : Z) : Z := t - LocalTZA h t false.

(** A [Date] object: its time value, [None] for an invalid date. *)
Definition Date : Type := option Z.

Definition getMonth (h : host) (d : Date) : option Z :=
  t ← d; Some (MonthFromTime (LocalTime h t)).

Definition getFullYear (h : host) (d : Date) : option Z :=
  t ← d; Some (YearFromTime (LocalTime h t)).

(** [d.setMonth(month)]: the new time value of [d]. *)
Definition setMonth (h : host) (d : Date) (month : option Z) : Date :=
  t ← d;
  m ← month;
  let t := LocalTime h t in
  let newDate :=
    MakeDate (MakeDay (YearFromTime t) m (DateFromTime t)) (TimeWithinDay t) in
  TimeClip (UTC h newDate).

(** [a > b] and [a < b] on dates: on their time values, false when either
    date is invalid. *)
Definition Date_gt (a b : Date) : bool :=
  match a, b with
  | Some x, Some y => (y <? x)%Z
  | _, _ => false
  end.

Definition Date_lt (a b : Date) : bool := Date_gt b a.

Definition DaysInMonth (y m : Z) : Z :=
  month_start (leap_year y) (m + 1) - month_start (leap_year y) m.

(** A calendar date [YYYY-MM-DD]: midnight UTC of that day. *)
Definition parse_calendar_date (s : string) : option Z :=
  match s with
  | String y1 (String y2 (String y3 (String y4 (String "-"
      (String m1 (String m2 (String "-" (String d1 (String d2 EmptyString))))))))) =>
      if forallb is_digit [y1; y2; y3; y4; m1; m2; d1; d2] then
        let y := 1000 * digit_val y1 + 100 * digit_val y2
                 + 10 * digit_val y3 + digit_val y4 in
        let m := 10 * digit_val m1 + digit_val m2 in
        let d := 10 * digit_val d1 + digit_val d2 in
        if (1 <=? m)%Z && (m <=? 12)%Z && (1 <=? d)%Z
           && (d <=? DaysInMonth y (m - 1))%Z
        then Some (MakeDate (MakeDay y (m - 1) d) 0)
        else None
      else None
  | _ => None
  end.

(** [new Date(s)] for a string [s]. *)
Definition Date_of_string (h : host) (s : string) : Date :=
  match parse_calendar_date s with
  | Some t => Some t
  | None => Date_parse_other h s
  end.

End JS.

(* ===================================================================== *)
(** ** The relational store *)
(* ===================================================================== *)

Module Pg.
Import JS.

(** A row of [claims] ([CREATE TABLE claims], [initializeDatabase]).  The
    [claim_date] and [amount] columns keep the value the server sent: the
    reading of the one as a [DATE] and the rounding of the other to the two
    decimals of [DECIMAL(10,2)] are not followed. *)
Record claim_row : Type := {
  claim_id : string;
  employee_name : string;
  employee_email : string;
  employee_id : string;
  department : string;
  claim_date : string;
  amount : number;
  description : string;
  type : string;
  status : string;
  created_at : Z;
  updated_at : Z
}.

(** A row of [documents]; [doc_id] is the [id SERIAL] column and
    [doc_claim_id] the [claim_id] column that references [claims]. *)
Record document_row : Type := {
  doc_id : Z;
  doc_claim_id : string;
  file_name : string;
  file_path : string;
  uploaded_at : Z
}.

Record database : Type := {
  claims : list claim_row;
  documents : list document_row;
  documents_id_seq : Z
}.

(** What the engine decides beyond the two key constraints: whether the
    values of a row fit the declared column types ([VARCHAR(n)], [DATE],
    [DECIMAL(10,2)]).  A row that does not fit makes the INSERT raise. *)
Record engine : Type := {
  accepts_claim : claim_row -> bool;
  accepts_document : document_row -> bool
}.

(** The tables right after [CREATE TABLE]. *)
Definition empty : database :=
  {| claims := []; documents := []; documents_id_seq := 1 |}.

Definition has_claim (cid : string) (db : database) : bool :=
  existsb (fun c => String.eqb (claim_id c) cid) (claims db).

(** [INSERT INTO claims ... RETURNING claim_id]; [None] when the statement
    raises: the primary key is taken or the engine refuses the row. *)
Definition insert_claim (e : engine) (r : claim_row) (db : database)
  : option database :=
  if has_claim (claim_id r) db then None
  else if negb (accepts_claim e r) then None
  else Some {| claims := claims db ++ [r];
               documents := documents db;
               documents_id_seq := documents_id_seq db |}.

(** [INSERT INTO documents (claim_id, file_name, file_path, uploaded_at)
    ... RETURNING id]; [None] when the statement raises: the referenced
    claim is missing or the engine refuses the row. *)
Definition insert_document (e : engine) (cid name path : string) (at_ : Z)
    (db : database) : option (database * Z) :=
  let r := {| doc_id := documents_id_seq db; doc_claim_id := cid;
              file_name := name; file_path := path; uploaded_at := at_ |} in
  if negb (has_claim cid db) then None
  else if negb (accepts_document e r) then None
  else Some ({| claims := claims db;
                documents := documents db ++ [r];
                documents_id_seq := documents_id_seq db + 1 |},
             doc_id r).

(** The columns the listing filters on. *)
Inductive column : Type := col_employee_id | col_claim_id | col_status.

Definition column_value (c : column) (r : claim_row) : string :=
  match c with
  | col_employee_id => employee_id r
  | col_claim_id => claim_id r
  | col_status => status r
  end.

(** [WHERE 1=1 AND col_1 = $1 AND ... AND col_n = $n] *)
Definition where_ (conds : list (column * string)) (r : claim_row) : bool :=
  forallb (fun cv => String.eqb (column_value (fst cv) r) (snd cv)) conds.

(** [ORDER BY created_at DESC]: rows that tie keep their table order. *)
Fixpoint insert_desc (r : claim_row) (l : list claim_row) : list claim_row :=
  match l with
  | [] => [r]
  | x :: l' =>
      if (created_at x <=? created_at r)%Z then r :: l
      else x :: insert_desc r l'
  end.

Definition order_by_created_at_desc (l : list claim_row) : list claim_row :=
  foldr insert_desc [] l.

(** [SELECT * FROM claims WHERE ... ORDER BY created_at DESC] *)
Definition select_claims (conds : list (column * string)) (db : database)
  : list claim_row :=
  order_by_created_at_desc (filter (fun r => where_ conds r = true) (claims db)).

(** [SELECT id, file_name, file_path FROM documents WHERE claim_id = $1] *)
Definition select_documents (cid : string) (db : database)
  : list (Z * string * string) :=
  map (fun d => (doc_id d, file_name d, file_path d))
      (filter (fun d => String.eqb (doc_claim_id d) cid = true) (documents db)).

(** The values of the type [INTEGER] of the column [documents.id]. *)
Definition int4 (i : Z) : bool :=
  (-2147483648 <=? i)%Z && (i <=? 2147483647)%Z.

(** [SELECT file_path FROM documents WHERE id = $1].  The parameter arrives
    as text and is read as an [INTEGER]: [param] is the integer the text
    spells, [None] when it spells none.  The statement raises ([None]) when
    the text is not that of an integer or the integer is outside the type. *)
Definition select_file_path (param : option Z) (db : database)
  : option (list string) :=
  match param with
  | Some i =>
      if int4 i
      then Some (map file_path (filter (fun d => doc_id d = i) (documents db)))
      else None
  | None => None
  end.

Definition set_status (st : string) (at_ : Z) (r : claim_row) : claim_row :=
  {| claim_id := claim_id r; employee_name := employee_name r;
     employee_email := employee_email r; employee_id := employee_id r;
     department := department r; claim_date := claim_date r;
     amount := amount r; description := description r; type := type r;
     status := st; created_at := created_at r; updated_at := at_ |}.

(** [UPDATE claims SET status = $1, updated_at = $2 WHERE claim_id = $3
    RETURNING *]: the new tables and the rows that were updated. *)
Definition update_status (st : string) (at_ : Z) (cid : string)
    (db : database) : database * list claim_row :=
  ({| claims := map (fun r => if String.eqb (claim_id r) cid
                              then set_status st at_ r else r) (claims db);
      documents := documents db;
      documents_id_seq := documents_id_seq db |},
   map (set_status st at_)
       (filter (fun r => String.eqb (claim_id r) cid = true) (claims db))).

(** The key constraints of the schema: [claims.claim_id] and [documents.id]
    are primary keys, every document references a claim, and the sequence
    behind [id SERIAL] is ahead of the ids handed out. *)
Record consistent (db : database) : Prop := {
  claims_pkey : NoDup (map claim_id (claims db));
  documents_pkey : NoDup (map doc_id (documents db));
  documents_claim_id_fkey :
    Forall (fun d => has_claim (doc_claim_id d) db = true) (documents db);
  documents_id_seq_ahead :
    Forall (fun d => doc_id d < documents_id_seq db) (documents db)
}.

End Pg.

(* ===================================================================== *)
(** ** The file store *)
(* ===================================================================== *)

Module Fs.

(** The files below the server, by path, and the paths whose removal the
    operating system refuses ([unlinkSync] raises on them). *)
Record file_system : Type := {
  files : gmap string string;
  undeletable : gset string
}.

Definition existsSync (p : string) (d : file_system) : bool :=
  bool_decide (is_Some (files d !! p)).

Definition writeFile (p content : string) (d : file_system) : file_system :=
  {| files := <[p := content]> (files d); undeletable := undeletable d |}.

(** [fs.unlinkSync(p)]; [None] when it raises. *)
Definition unlinkSync (p : string) (d : file_system) : option file_system :=
  if negb (existsSync p d) then None
  else if bool_decide (p ∈ undeletable d) then None
  else Some {| files := delete p (files d); undeletable := undeletable d |}.

End Fs.

(* ===================================================================== *)
(** ** Uploads: [multer] as the server configures it *)
(* ===================================================================== *)

Module Multer.
Import Fs.

(** One file part of a multipart request.  [path] is the place that
    [storage] ([multer.diskStorage], directory [uploadsDir]) assigns to it. *)
Record part : Type := {
  fieldname : string;
  originalname : string;
  mimetype : string;
  content : string;
  path : string
}.

Definition size (f : part) : Z := Z.of_nat (String.length (content f)).

Inductive upload_error : Type :=
| LIMIT_UNEXPECTED_FILE
| LIMIT_FILE_SIZE
| filter_error (message : string).

(** [fileFilter] of [upload]: [None] accepts the file. *)
Definition fileFilter (f : part) : option upload_error :=
  let allowedTypes := ["application/pdf"; "image/jpeg"; "image/png"] in
  if existsb (String.eqb (mimetype f)) allowedTypes then None
  else Some (filter_error "Only PDF, JPG, and PNG files are allowed").

(** [limits.fileSize] *)
Definition fileSize : Z := 5 * 1024 * 1024.

(** The parts of a request in arrival order: a part for another field, or
    one more than [filesLeft], is unexpected; then the filter is asked; then
    the file is written and measured.  The limit is reported as soon as the
    bytes of a file reach [fileSize], so that a file of exactly that size is
    refused as well.  The file store takes every write: a disk that refuses
    one is outside the model. *)
Fixpoint receive (name : string) (filesLeft : nat) (parts : list part)
    (d : file_system) {struct parts} : upload_error + file_system :=
  match parts with
  | [] => inr d
  | f :: rest =>
      if negb (String.eqb (fieldname f) name) then inl LIMIT_UNEXPECTED_FILE
      else match filesLeft with
           | O => inl LIMIT_UNEXPECTED_FILE
           | S n =>
               match fileFilter f with
               | Some e => inl e
               | None =>
                   if (fileSize <=? size f)%Z then inl LIMIT_FILE_SIZE
                   else receive name n rest (writeFile (path f) (content f) d)
               end
           end
  end.

(** [upload.array(name, maxCount)]: either an error for [next(err)], the
    files written so far having been removed again, or [req.files] and the
    file store holding them. *)
Definition array (name : string) (maxCount : nat) (parts : list part)
    (d : file_system) : upload_error + (list part * file_system) :=
  match receive name maxCount parts d with
  | inl e => inl e
  | inr d' => inr (parts, d')
  end.

End Multer.

(* ===================================================================== *)
(** ** The server *)
(* ===================================================================== *)

Module Server.
Import JS Pg Fs Multer.

(** The two copies of the server in the repository. *)
Inductive variant : Type :=
| part_000           (* src/unnamed/part_000 *)
| Backend_server_js. (* src/Backend/server.js *)

Record world : Type := {
  db : database;
  disk : file_system
}.

(** [req.body] of a claim submission. *)
Record claim_form : Type := {
  empName : option string;
  empEmail : option string;
  empId : option string;
  department : option string;
  claimDate : option string;
  amount : option string;
  description : option string;
  type : option string
}.

(** The form with another amount, or another employee id. *)
Definition with_amount (f : claim_form) (a : option string) : claim_form :=
  {| empName := empName f; empEmail := empEmail f; empId := empId f;
     department := department f; claimDate := claimDate f;
     amount := a; description := description f;
     type := type f |}.

Definition with_empId (f : claim_form) (i : option string) : claim_form :=
  {| empName := empName f; empEmail := empEmail f; empId := i;
     department := department f; claimDate := claimDate f;
     amount := amount f;
     description := description f;
     type := type f |}.

(** A claim of the listing with the documents [part_000] embeds in it. *)
Record claim_with_documents : Type := {
  claim : claim_row;
  documents : option (list (Z * string * string))
}.

Inductive body : Type :=
| json_error (error : string)
| json_submitted (message claimId : string)
                 (documents : option (list (string * string)))
| json_claims (rows : list claim_with_documents)
| json_claim (row : claim_row)
| file_content (bytes : string).

Record response : Type := {
  status : Z;
  payload : body
}.

Definition reply (code : Z) (b : body) : response :=
  {| status := code; payload := b |}.

(** [/^ATS0[1-9]\d{2}$/] *)
Definition re_employee_id : regex :=
  re_seq (re_lit "ATS0")
    (re_seq (re_set [("1", "9")]%char) (re_seq re_digit re_digit)).

(** [/^[a-zA-Z0-9._%+-]+@(gmail|outlook)\.com$/] *)
Definition re_email : regex :=
  re_seq
    (re_plus (re_set [("a", "z"); ("A", "Z"); ("0", "9"); (".", ".");
                      ("_", "_"); ("%", "%"); ("+", "+"); ("-", "-")]%char))
    (re_seq (re_chr "@")
       (re_seq (re_alt (re_lit "gmail") (re_lit "outlook")) (re_lit ".com"))).

(** The checks of [POST /api/claims], in the order of the handler; the reply
    of the first check that fails, [None] when all pass. *)
Definition validate (h : host) (now : Z) (f : claim_form) (files : list part)
  : option response :=
  if falsy (empName f) || falsy (empEmail f) || falsy (empId f)
     || falsy (department f) || falsy (claimDate f) || falsy (amount f)
     || falsy (description f) || falsy (type f)
  then Some (reply 400 (json_error "All fields are required"))
  else if negb (RegExp_test re_employee_id (str (empId f)))
  then Some (reply 400 (json_error
         "Employee ID must be ATS0 followed by 3 digits (e.g., ATS0123)"))
  else if negb (RegExp_test re_email (str (empEmail f)))
  then Some (reply 400 (json_error
         "Email must be a valid @gmail.com or @outlook.com address"))
  else
    let amountValue := parseFloat (str (amount f)) in
    if isNaN amountValue || num_le amountValue (Finite 0)
       || num_gt amountValue (Finite 50000)
    then Some (reply 400 (json_error
           "Amount must be between ₹0.01 and ₹50,000"))
    else
      let claimDateObj := Date_of_string h (str (claimDate f)) in
      let today : Date := Some now in
      let threeMonthsAgo :=
        setMonth h (Some now) ((fun m => m - 3) <$> getMonth h today) in
      if Date_gt claimDateObj today || Date_lt claimDateObj threeMonthsAgo
      then Some (reply 400 (json_error
             "Claim date must be within the last 3 months and not in the future"))
      else if (length files =? 0)%nat
      then Some (reply 400 (json_error "At least one document is required"))
      else None.

(** [`CLM-${new Date().getFullYear()}-${Math.floor(1000 + Math.random() * 9000)}`] *)
Definition claimId_of (h : host) (now : Z) (random : number) : string :=
  "CLM-"
  ++ from_option Z_toString "NaN" (getFullYear h (Some now))
  ++ "-"
  ++ Number_toString
       (Math_floor (num_add (Finite 1000) (num_mul random (Finite 9000)))).

(** The loop over [req.files]: the world it leaves and whether it ran to
    its end ([false]: an INSERT raised).  [part_000] skips a file that is not
    on disk. *)
Fixpoint insert_documents (v : variant) (e : engine) (claimId : string)
    (now : Z) (files : list part) (w : world) : world * bool :=
  match files with
  | [] => (w, true)
  | file :: rest =>
      let skip := match v with
                  | part_000 => negb (existsSync (path file) (disk w))
                  | Backend_server_js => false
                  end in
      if skip then insert_documents v e claimId now rest w
      else
        match insert_document e claimId (originalname file) (path file) now (db w) with
        | None => (w, false)
        | Some (db', _) =>
            insert_documents v e claimId now rest {| db := db'; disk := disk w |}
        end
  end.

(** The [forEach] of the [catch] block of [part_000]: remove each file that
    is still there, going on when a removal raises. *)
Definition cleanup (files : list part) (d : file_system) : file_system :=
  foldl (fun d file =>
           if existsSync (path file) d
           then from_option id d (unlinkSync (path file) d)
           else d)
        d files.

(** The [catch] block of [POST /api/claims]. *)
Definition submission_failed (v : variant) (files : list part) (w : world)
  : world * response :=
  ({| db := db w;
      disk := match v with
              | part_000 => cleanup files (disk w)
              | Backend_server_js => disk w
              end |},
   reply 500 (json_error "Server error while submitting claim")).

(** The [values] of the INSERT into [claims]; the two [new Date()] at their
    end are taken as one reading of the clock. *)
Definition claim_values (claimId : string) (now : Z) (f : claim_form)
  : claim_row :=
  {| claim_id := claimId;
     employee_name := str (empName f);
     employee_email := str (empEmail f);
     employee_id := str (empId f);
     Pg.department := str (department f);
     claim_date := str (claimDate f);
     Pg.amount := parseFloat (str (amount f));
     Pg.description := str (description f);
     Pg.type := str (type f);
     Pg.status := "pending";
     created_at := now;
     updated_at := now |}.

(** The handler of [POST /api/claims], entered with [req.body] and
    [req.files]; [now] is the clock and [random] the value of
    [Math.random()]. *)
Definition submit (v : variant) (h : host) (e : engine) (now : Z)
    (random : number) (f : claim_form) (files : list part) (w : world)
  : world * response :=
  match validate h now f files with
  | Some r => (w, r)
  | None =>
      let claimId := claimId_of h now random in
      let values := claim_values claimId now f in
      match insert_claim e values (db w) with
      | None => submission_failed v files w
      | Some db1 =>
          match insert_documents v e claimId now files
                  {| db := db1; disk := disk w |} with
          | (w', false) => submission_failed v files w'
          | (w', true) =>
              (w', reply 201
                     (json_submitted "Claim submitted successfully" claimId
                        match v with
                        | part_000 =>
                            Some (map (fun f => (originalname f, path f)) files)
                        | Backend_server_js => None
                        end))
          end
      end
  end.

(** The error-handling middleware at the end of the chain, for an error of
    [upload]. *)
Definition error_handler (v : variant) (err : upload_error) : response :=
  match err with
  | filter_error m => reply 400 (json_error m)
  | LIMIT_FILE_SIZE => reply 400 (json_error "File size exceeds 5MB limit")
  | LIMIT_UNEXPECTED_FILE =>
      match v with
      | part_000 => reply 400 (json_error "Unexpected field")
      | Backend_server_js => reply 500 (json_error "Internal server error")
      end
  end.

(** A multipart request to [POST /api/claims]. *)
Record submission : Type := {
  form : claim_form;
  parts : list part
}.

(** [app.post('/api/claims', upload.array('documents', 5), ...)] *)
Definition post_api_claims (v : variant) (h : host) (e : engine) (now : Z)
    (random : number) (req : submission) (w : world) : world * response :=
  match Multer.array "documents" 5 (parts req) (disk w) with
  | inl err => (w, error_handler v err)
  | inr (files, d) =>
      submit v h e now random (form req) files {| db := db w; disk := d |}
  end.

(** [req.query] of the listing. *)
Record claim_query : Type := {
  q_employee_id : option string;
  q_claim_id : option string;
  q_status : option string
}.

(** [values.push(x); query += ` AND col = $${values.length}`] when [x] is
    truthy. *)
Definition push_filter (c : column) (x : option string)
    (values : list (column * string)) : list (column * string) :=
  if falsy x then values else values ++ [(c, str x)].

(** [app.get('/api/claims', ...)] *)
Definition get_api_claims (v : variant) (q : claim_query) (w : world)
  : response :=
  if negb (falsy (q_employee_id q))
     && negb (RegExp_test re_employee_id (str (q_employee_id q)))
  then reply 400 (json_error "Employee ID must be ATS0 followed by 3 digits")
  else
    let values :=
      push_filter col_status (q_status q)
        (push_filter col_claim_id (q_claim_id q)
           (push_filter col_employee_id (q_employee_id q) [])) in
    let rows := select_claims values (db w) in
    let claimsWithDocuments :=
      map (fun c =>
             {| claim := c;
                documents := match v with
                             | part_000 => Some (select_documents (claim_id c) (db w))
                             | Backend_server_js => None
                             end |}) rows in
    reply 200 (json_claims claimsWithDocuments).

(** [res.sendFile(p)] for a file that is there: its bytes. *)
Definition sendFile (p : string) (d : file_system) : body :=
  file_content (default "" (files d !! p)).

(** [app.get('/api/documents/:documentId', ...)], in [part_000] only;
    [documentId] is the integer that the route parameter spells, [None] when
    it spells none.  A query that raises is answered by the [catch] block. *)
Definition get_api_documents (documentId : option Z) (w : world) : response :=
  match select_file_path documentId (db w) with
  | Some [] => reply 404 (json_error "Document not found")
  | Some (filePath :: _) =>
      if negb (existsSync filePath (disk w))
      then reply 404 (json_error "File not found on server")
      else reply 200 (sendFile filePath (disk w))
  | None => reply 500 (json_error "Server error while fetching document")
  end.

(** [app.patch('/api/claims/:claimId', ...)]; [new_status] is
    [req.body.status]. *)
Definition patch_api_claims (now : Z) (claimId : string)
    (new_status : option string) (w : world) : world * response :=
  if negb (existsb (fun s => bool_decide (new_status = Some s))
             ["approved"; "rejected"])
  then (w, reply 400 (json_error "Status must be approved or rejected"))
  else
    let '(db', rows) := update_status (str new_status) now claimId (db w) in
    let w' := {| db := db'; disk := disk w |} in
    match rows with
    | [] => (w', reply 404 (json_error "Claim not found"))
    | row :: _ => (w', reply 200 (json_claim row))
    end.

End Server.

(* ===================================================================== *)
(** ** Concrete hosts, requests and states *)
(* ===================================================================== *)

Module Sample.
Import JS Pg Fs Multer Server.

(** A host on UTC and one on Indian Standard Time (UTC+05:30), both with a
    [Date.parse] that knows calendar dates only. *)
Definition utc : host :=
  {| LocalTZA := fun _ _ => 0; Date_parse_other := fun _ => None |}.

Definition ist : host :=
  {| LocalTZA := fun _ _ => 19800000; Date_parse_other := fun _ => None |}.

(** A host on the Eastern time of the United States as it ran in 2023:
    UTC-05:00, and UTC-04:00 from 12 March, 02:00 on the local clock, to
    5 November, 02:00 on the local clock. *)
Definition eastern_2023 : host :=
  {| LocalTZA := fun t isUTC =>
       let '(from, to) :=
         if isUTC then (1678604400000, 1699164000000)
         else (1678590000000, 1699149600000) in
       if (from <=? t)%Z && (t <? to)%Z then -14400000 else -18000000;
     Date_parse_other := fun _ => None |}.

(** Noon of 31 May 2023 on that host, 16:00 UTC. *)
Definition noon_2023_05_31_eastern : Z := 1685548800000.

Definition varchar (n : nat) (s : string) : bool := (String.length s <=? n)%nat.

(** An engine that enforces the column types the schema declares. *)
Definition schema : engine :=
  {| accepts_claim := fun r =>
       varchar 20 (claim_id r) && varchar 100 (employee_name r)
       && varchar 100 (employee_email r) && varchar 10 (employee_id r)
       && varchar 50 (Pg.department r) && varchar 50 (Pg.type r)
       && varchar 20 (Pg.status r)
       && bool_decide (is_Some (parse_calendar_date (claim_date r)));
     accepts_document := fun d =>
       varchar 20 (doc_claim_id d) && varchar 255 (file_name d)
       && varchar 255 (file_path d) |}.

Definition noon_2024_05_15 : Z := 1715774400000.
Definition noon_2024_05_31 : Z := 1717156800000.

(** The submission of the end-to-end example of the specification. *)
Definition form_ok (date : string) : claim_form :=
  {| empName := Some "Asha Rao";
     empEmail := Some "a@gmail.com";
     empId := Some "ATS0123";
     Server.department := Some "Finance";
     claimDate := Some date;
     Server.amount := Some "1500.50";
     Server.description := Some "Taxi to the airport";
     Server.type := Some "Travel" |}.

Definition pdf (n : string) : part :=
  {| fieldname := "documents";
     originalname := "receipt-" ++ n ++ ".pdf";
     mimetype := "application/pdf";
     content := "%PDF-1.7";
     path := "/srv/Uploads/documents-" ++ n ++ ".pdf" |}.

(** A PDF whose original name has 300 characters, more than
    [file_name VARCHAR(255)] holds. *)
Definition pdf_long_name : part :=
  {| fieldname := "documents";
     originalname := string_of_list_ascii (repeat "a"%char 296) ++ ".pdf";
     mimetype := "application/pdf";
     content := "%PDF-1.7";
     path := "/srv/Uploads/documents-9.pdf" |}.

Definition w0 : world :=
  {| db := Pg.empty; disk := {| files := ∅; undeletable := ∅ |} |}.

(** The world once the upload middleware has stored the files. *)
Definition stored (ps : list part) (w : world) : world :=
  {| db := db w;
     disk := foldl (fun d f => writeFile (path f) (content f) d) (disk w) ps |}.

Definition half : number := Finite (1 # 2).

(** 02:00 on 15 May 2024 in India, which is 20:30 UTC on 14 May. *)
Definition early_2024_05_15_ist : Z := 1715718600000.

Definition only_claim_id (cid : string) : claim_query :=
  {| q_employee_id := None; q_claim_id := Some cid; q_status := None |}.

(** The end-to-end example with two receipts, on either copy of the
    server, starting from empty tables. *)
Definition two_receipts : submission :=
  {| form := form_ok "2024-05-15"; parts := [pdf "1"; pdf "2"] |}.

Definition after_two_receipts (v : variant) : world :=
  fst (post_api_claims v utc schema noon_2024_05_15 half two_receipts w0).

(** Six receipts in one request, one more than [upload.array] lets in. *)
Definition six_receipts : submission :=
  {| form := form_ok "2024-05-15";
     parts := [pdf "1"; pdf "2"; pdf "3"; pdf "4"; pdf "5"; pdf "6"] |}.

(** The end-to-end example with an amount of zero. *)
Definition zero_amount : submission :=
  {| form := with_amount (form_ok "2024-05-15") (Some "0");
     parts := [pdf "1"] |}.

(** A PDF as [Backend/server.js] stores it, under [Date.now()] and its
    original name: the name has 234 characters, the file name on disk 248,
    and the path 284, more than [file_path VARCHAR(255)] holds. *)
Definition pdf_long_path : part :=
  let name := string_of_list_ascii (repeat "b"%char 230) ++ ".pdf" in
  {| fieldname := "documents";
     originalname := name;
     mimetype := "application/pdf";
     content := "%PDF-1.7";
     path := "/home/ubuntu/claims/Backend/Uploads/1715774400000-" ++ name |}.

Definition long_path_receipt : submission :=
  {| form := form_ok "2024-05-15"; parts := [pdf "1"; pdf_long_path] |}.

Definition after_long_path (v : variant) : world :=
  fst (post_api_claims v utc schema noon_2024_05_15 half long_path_receipt w0).

(** A further submission for which [Math.random()] gives the value it gave
    for the first one, so that the same claim id is drawn. *)
Definition third_receipt : submission :=
  {| form := form_ok "2024-05-15"; parts := [pdf "3"] |}.

Definition after_third_receipt (v : variant) : world :=
  fst (post_api_claims v utc schema noon_2024_05_15 half third_receipt
         (after_two_receipts v)).

End Sample.

(* ===================================================================== *)
(** ** The vocabulary of the specification *)
(* ===================================================================== *)

Module Spec.
Import JS Pg Fs Multer Server.

(** A required field is absent or empty. *)
Definition missing_field (f : claim_form) : Prop :=
  Exists (fun x => falsy x = true)
    [empName f; empEmail f; empId f; Server.department f; claimDate f;
     Server.amount f; Server.description f; Server.type f].

(** [ATS0], then a digit from 1 to 9, then two digits. *)
Definition employee_id_shape (s : string) : Prop :=
  exists d1 d2 d3,
    s = "ATS0" ++ String d1 (String d2 (String d3 ""))
    /\ in_range d1 ("1", "9")%char = true
    /\ is_digit d2 = true /\ is_digit d3 = true.

Definition bad_employee_id (s : string) : Prop := ~ employee_id_shape s.

(** The characters of the local part of an address: letters, digits and
    [._%+-]. *)
Definition local_char (c : ascii) : bool :=
  in_class c [("a", "z"); ("A", "Z"); ("0", "9"); (".", "."); ("_", "_");
              ("%", "%"); ("+", "+"); ("-", "-")]%char.

(** A non-empty local part, then [@gmail.com] or [@outlook.com]. *)
Definition email_shape (s : string) : Prop :=
  exists l,
    l <> "" /\ forallb local_char (list_ascii_of_string l) = true
    /\ (s = l ++ "@gmail.com" \/ s = l ++ "@outlook.com").

Definition bad_email (s : string) : Prop := ~ email_shape s.

(** The amount is read by the handler as a number in the interval
    (0, 50000]. *)
Definition amount_ok (s : string) : Prop :=
  exists q, parseFloat s = Finite q /\ (0 < q)%Q /\ (q <= 50000)%Q.

(** The date the handler calls [threeMonthsAgo]. *)
Definition threeMonthsAgo (h : host) (now : Z) : Date :=
  setMonth h (Some now) ((fun m => m - 3) <$> getMonth h (Some now)).

(** Any two offsets of the zone of the host differ by at most [delta]
    milliseconds: [0] for a zone without daylight saving, an hour for the
    usual daylight saving. *)
Definition offsets_vary_by (h : host) (delta : Z) : Prop :=
  forall t isUTC t' isUTC',
    LocalTZA h t isUTC - LocalTZA h t' isUTC' <= delta.

(** The claim date lies after [now] or before [threeMonthsAgo]. *)
Definition bad_date (h : host) (now : Z) (s : string) : Prop :=
  exists t, Date_of_string h s = Some t
    /\ (now < t \/ exists t3, threeMonthsAgo h now = Some t3 /\ t < t3).

(** A submission fails one of the checks of the validation layer. *)
Definition fails_validation (h : host) (now : Z) (f : claim_form)
    (files : list part) : Prop :=
  missing_field f
  \/ bad_employee_id (str (empId f))
  \/ bad_email (str (empEmail f))
  \/ ~ amount_ok (str (Server.amount f))
  \/ bad_date h now (str (claimDate f))
  \/ files = [].

(** An optional filter of the listing, absent or empty, or else equal to
    the value of the row. *)
Definition filter_holds (x : option string) (value : string) : Prop :=
  falsy x = true \/ x = Some value.

(** The row passes every filter of the query. *)
Definition selected (q : claim_query) (r : claim_row) : Prop :=
  filter_holds (q_employee_id q) (employee_id r)
  /\ filter_holds (q_claim_id q) (claim_id r)
  /\ filter_holds (q_status q) (Pg.status r).

#[global] Instance selected_dec (q : claim_query) (r : claim_row) :
  Decision (selected q r).
Proof. unfold selected, filter_holds. apply _. Defined.

(** Newest first. *)
Definition newer_or_same (a b : claim_row) : Prop :=
  created_at b <= created_at a.

(** The documents of a claim as the listing shows them. *)
Definition documents_of (cid : string) (d : database)
  : list (Z * string * string) :=
  map (fun r => (doc_id r, file_name r, file_path r))
      (filter (fun r => doc_claim_id r = cid) (Pg.documents d)).

(** An INSERT of the submission raises: the one into [claims], or, after
    that one went through, one into [documents]. *)
Definition persistence_fails (v : variant) (h : host) (e : engine) (now : Z)
    (random : number) (f : claim_form) (files : list part) (w : world)
  : Prop :=
  let claimId := claimId_of h now random in
  insert_claim e (claim_values claimId now f) (db w) = None
  \/ exists db1,
       insert_claim e (claim_values claimId now f) (db w) = Some db1
       /\ snd (insert_documents v e claimId now files
                 {| db := db1; disk := disk w |}) = false.

(** Four decimal digits. *)
Definition four_digits (s : string) : Prop :=
  exists a b c d,
    s = String a (String b (String c (String d EmptyString)))
    /\ forallb is_digit [a; b; c; d] = true.

Definition four_digits_b (s : string) : bool :=
  match s with
  | String a (String b (String c (String d EmptyString))) =>
      forallb is_digit [a; b; c; d]
  | _ => false
  end.

(** [CLM-<4-digit-year>-<4 digits>] *)
Definition claim_id_format (s : string) : Prop :=
  exists y n, s = "CLM-" ++ y ++ "-" ++ n /\ four_digits y /\ four_digits n.

(** The calendar day [n] months before day [date] of month [month]
    (0 = January) of [year]: the same day of the month, or the last day of
    that month when it is shorter.  The result is a day number. *)
Definition months_before (n year month date : Z) : Z :=
  let ym := year + (month - n) / 12 in
  let mn := (month - n) mod 12 in
  MakeDay ym mn (Z.min date (DaysInMonth ym mn)).

(** The statuses a claim can be moved to. *)
Definition terminal (s : option string) : Prop :=
  s = Some "approved" \/ s = Some "rejected".

(** The text columns of a row of [claims] apart from its id and status (name,
    e-mail address, employee id, department, description, type), and the
    fields of a form that go into them. *)
Definition text_columns (r : claim_row) : list string :=
  [employee_name r; employee_email r; employee_id r; Pg.department r;
   Pg.description r; Pg.type r].

Definition text_fields (f : claim_form) : list string :=
  [str (empName f); str (empEmail f); str (empId f);
   str (Server.department f); str (Server.description f);
   str (Server.type f)].

End Spec.

(* ===================================================================== *)
(** ** What the server takes from its runtime: [Math.round] and [path] *)
(* ===================================================================== *)

Module Runtime.
Import JS.

(** [Math.round(x)]: the integer nearest to [x], a tie going up. *)
Definition Math_round (x : number) : number :=
  match x with
  | Finite q => Finite (inject_Z (Qfloor (q + (1 # 2))))
  | _ => x
  end.

(** The separator of the paths of the host ([path] is [path.posix]). *)
Definition is_sep (c : ascii) : bool := Ascii.eqb c "/".

Fixpoint drop_seps (l : list ascii) : list ascii :=
  match l with
  | c :: l' => if is_sep c then drop_seps l' else l
  | [] => []
  end.

Fixpoint take_name (l : list ascii) : list ascii :=
  match l with
  | c :: l' => if is_sep c then [] else c :: take_name l'
  | [] => []
  end.

(** [path.basename(p)]: going back from the end of [p], the separators that
    end it are passed over and the characters up to the next separator are
    the result. *)
Definition basename (p : string) : string :=
  string_of_list_ascii
    (rev (take_name (drop_seps (rev (list_ascii_of_string p))))).

(** The state of the loop of [path.extname], which runs from the end of the
    path to its start: [seen] is [path.slice(i + 1, end)], [ext] is
    [path.slice(startDot, end)] once a dot has been met, and [preDotState]
    is 0 until a character before that dot is met, then 1 after a dot and
    -1 after any other character. *)
Record scan : Type := {
  seen : list ascii;
  ext : option (list ascii);
  preDotState : Z
}.

Fixpoint extname_scan (l : list ascii) (st : scan) : scan :=
  match l with
  | [] => st
  | c :: l' =>
      if is_sep c then st
      else
        let seen' := c :: seen st in
        if Ascii.eqb c "." then
          match ext st with
          | None =>
              extname_scan l' {| seen := seen'; ext := Some seen';
                                 preDotState := preDotState st |}
          | Some _ =>
              extname_scan l' {| seen := seen'; ext := ext st;
                                 preDotState := 1 |}
          end
        else
          extname_scan l'
            {| seen := seen'; ext := ext st;
               preDotState := match ext st with
                              | Some _ => -1
                              | None => preDotState st
                              end |}
  end.

(** [path.extname(p)]: from the last dot of the last portion of [p] to its
    end; empty when that portion has no dot, starts with its only dot, or is
    [..]. *)
Definition extname (p : string) : string :=
  let st := extname_scan (drop_seps (rev (list_ascii_of_string p)))
              {| seen := []; ext := None; preDotState := 0 |} in
  match ext st with
  | None => ""
  | Some e =>
      if (preDotState st =? 0)%Z
         || ((preDotState st =? 1)%Z && (length e =? 1)%nat
             && (length (seen st) =? 2)%nat)
      then ""
      else string_of_list_ascii e
  end.

End Runtime.

(* ===================================================================== *)
(** ** Where an upload is stored: [storage] *)
(* ===================================================================== *)

Module Storage.
Import JS Multer Server Runtime.

(** [Date.now() + '-' + Math.round(Math.random() * 1E9)] *)
Definition uniqueSuffix (now : Z) (random : number) : string :=
  Z_toString now ++ "-"
  ++ Number_toString (Math_round (num_mul random (Finite 1000000000))).

(** The [filename] callback of [multer.diskStorage]: [part_000] names the file
    after the field, the clock, a random number and the extension of the
    original name; [Backend/server.js] after the clock and the original
    name. *)
Definition filename (v : variant) (now : Z) (random : number) (file : part)
  : string :=
  match v with
  | part_000 =>
      fieldname file ++ "-" ++ uniqueSuffix now random
      ++ extname (originalname file)
  | Backend_server_js => Z_toString now ++ "-" ++ originalname file
  end.

(** [path.join(uploadsDir, name)] for a [name] that is one path segment:
    where [multer.diskStorage] puts the file. *)
Definition stored_at (uploadsDir name : string) : string :=
  uploadsDir ++ "/" ++ name.

End Storage.

(* ===================================================================== *)
(** ** The documents of one claim *)
(* ===================================================================== *)

Module Routes.
Import JS Pg Fs Multer Server Runtime.

(** A row of [documents] as [part_000] returns it: with [file_exists] and
    [url] ([None] is [null]). *)
Record document_view : Type := {
  doc : document_row;
  file_exists : bool;
  url : option string
}.

Inductive documents_body : Type :=
| json_documents (rows : list document_row)
| json_documents_checked (rows : list document_view).

(** [SELECT id, claim_id, file_name, file_path, uploaded_at FROM documents
    WHERE claim_id = $1] *)
Definition select_document_rows (cid : string) (d : database)
  : list document_row :=
  filter (fun r => String.eqb (doc_claim_id r) cid = true) (Pg.documents d).

(** [app.get('/api/claims/:claimId/documents', ...)]: the status and the
    JSON body of the reply. *)
Definition get_api_claims_documents (v : variant) (claimId : string)
    (w : world) : Z * documents_body :=
  let rows := select_document_rows claimId (db w) in
  match v with
  | Backend_server_js => (200, json_documents rows)
  | part_000 =>
      let documentsWithExistence :=
        map (fun r =>
               let exists_ := existsSync (file_path r) (disk w) in
               {| doc := r;
                  file_exists := exists_;
                  url := if exists_
                         then Some ("/uploads/" ++ basename (file_path r))
                         else None |}) rows in
      (200, json_documents_checked documentsWithExistence)
  end.

End Routes.

(* ===================================================================== *)
(** ** The HR page: the tables and totals of [updateTables] *)
(* ===================================================================== *)

Module HR.
Import JS Pg.

Definition CLAIM_TYPES : list string :=
  ["Medical"; "Travel"; "Education"; "Meal"; "Equipment"; "Other"].

(** An object whose properties hold numbers: its own keys in the order
    they were added. *)
Definition object : Type := list (string * number).

Fixpoint get (k : string) (o : object) : option number :=
  match o with
  | [] => None
  | (k', x) :: o' => if String.eqb k' k then Some x else get k o'
  end.

Fixpoint set (k : string) (x : number) (o : object) : object :=
  match o with
  | [] => [(k, x)]
  | (k', y) :: o' =>
      if String.eqb k' k then (k, x) :: o' else (k', y) :: set k x o'
  end.

(** [o[k] += x]; a key that is not there reads as [undefined], and
    [undefined + x] is NaN. *)
Definition add_assign (k : string) (x : number) (o : object) : object :=
  set k (num_add (default NaN (get k o)) x) o.

(** [CLAIM_TYPES.reduce((acc, type) => { acc[type] = 0; return acc; }, {})] *)
Definition zero_totals : object :=
  foldl (fun acc t => set t (Finite 0) acc) [] CLAIM_TYPES.

(** [claims.filter(claim => claim.status === 'pending')] *)
Definition pendingClaims (claims : list claim_row) : list claim_row :=
  filter (fun c => Pg.status c = "pending") claims.

(** [claims.filter(claim => ['approved', 'rejected'].includes(claim.status))] *)
Definition completedClaims (claims : list claim_row) : list claim_row :=
  filter (fun c => Pg.status c ∈ ["approved"; "rejected"]) claims.

(** The [forEach] that adds [Math.floor(claim.amount)] to the total of the
    type of the claim, or to [Other] when the type is not one of
    [CLAIM_TYPES].  [amount] is the number that [Math.floor] makes of
    [claim.amount]. *)
Definition typeTotals (cs : list claim_row) : object :=
  foldl (fun totals claim =>
           if bool_decide (Pg.type claim ∈ CLAIM_TYPES)
           then add_assign (Pg.type claim) (Math_floor (Pg.amount claim)) totals
           else add_assign "Other" (Math_floor (Pg.amount claim)) totals)
        zero_totals cs.

(** [Object.values(o).reduce((sum, amount) => sum + amount, 0)] *)
Definition total (o : object) : number :=
  foldl num_add (Finite 0) (map snd o).

(** What one half of the page shows: whether the "no claims" note is
    displayed, the total, the amount of each type, and the rows of the
    table. *)
Record summary : Type := {
  note_shown : bool;
  total_amount : number;
  by_type : list (string * number);
  table : list claim_row
}.

Definition summarize (cs : list claim_row) : summary :=
  let totals := typeTotals cs in
  if (length cs =? 0)%nat
  then {| note_shown := true;
          total_amount := Finite 0;
          by_type := map (fun t => (t, Finite 0)) CLAIM_TYPES;
          table := [] |}
  else {| note_shown := false;
          total_amount := total totals;
          by_type := map (fun t => (t, default NaN (get t totals))) CLAIM_TYPES;
          table := cs |}.

(** [updateTables()] on the claims the listing returned: the pending half
    and the completed half. *)
Definition updateTables (claims : list claim_row) : summary * summary :=
  (summarize (pendingClaims claims), summarize (completedClaims claims)).

End HR.

(* ===================================================================== *)
(** ** The vocabulary of the further properties *)
(* ===================================================================== *)

Module Terms.
Import JS Pg Fs Multer Server Runtime Routes HR.

(** The statuses the server writes. *)
Definition known_status (c : claim_row) : Prop :=
  Pg.status c ∈ ["pending"; "approved"; "rejected"].

(** The states the server can be in: it starts on empty tables, and every
    submission and every status update leads from one state to the next. *)
Inductive reachable (v : variant) (h : host) (e : engine) : world -> Prop :=
| reach_start (d : file_system) :
    reachable v h e {| db := Pg.empty; disk := d |}
| reach_post (now : Z) (random : number) (req : submission) (w : world) :
    reachable v h e w ->
    reachable v h e (fst (post_api_claims v h e now random req w))
| reach_patch (now : Z) (claimId : string) (new_status : option string)
    (w : world) :
    reachable v h e w ->
    reachable v h e (fst (patch_api_claims now claimId new_status w)).

(** No filter at all. *)
Definition all_claims : claim_query :=
  {| q_employee_id := None; q_claim_id := None; q_status := None |}.

(** A string without a path separator. *)
Definition one_segment (s : string) : Prop :=
  Forall (fun c => is_sep c = false) (list_ascii_of_string s).

Definition no_dot (s : string) : Prop :=
  Forall (fun c => c <> "."%char) (list_ascii_of_string s).

(** A character that is neither a separator nor a dot. *)
Definition plain (c : ascii) : Prop := is_sep c = false /\ c <> "."%char.

(** The rows of [documents] that a reply of the documents route carries. *)
Definition document_rows (b : documents_body) : list document_row :=
  match b with
  | json_documents rows => rows
  | json_documents_checked views => map doc views
  end.

(** The whole rupees of a claim, and the type it is counted under. *)
Definition rupees (c : claim_row) : Z :=
  match Pg.amount c with
  | Finite q => Qfloor q
  | _ => 0
  end.

Definition counted_under (c : claim_row) : string :=
  if bool_decide (Pg.type c ∈ CLAIM_TYPES) then Pg.type c else "Other".

Definition Zsum (l : list Z) : Z := foldr Z.add 0 l.

(** The whole rupees of the claims counted under type [t]. *)
Definition counted (t : string) (cs : list claim_row) : Z :=
  Zsum (map rupees (filter (fun c => counted_under c = t) cs)).

(** The totals object that holds the whole number [g t] for each type [t]. *)
Definition totals_of (g : string -> Z) : object :=
  map (fun t => (t, Finite (inject_Z (g t)))) CLAIM_TYPES.

(** An amount that is a number and not negative. *)
Definition countable_amount (c : claim_row) : Prop :=
  exists q, Pg.amount c = Finite q /\ (0 <= q)%Q.

(** The MIME types the upload lets in. *)
Definition allowed_type (f : part) : Prop :=
  mimetype f ∈ ["application/pdf"; "image/jpeg"; "image/png"].

(** A run of decimal digits. *)
Definition all_digits (s : string) : Prop :=
  Forall (fun c => is_digit c = true) (list_ascii_of_string s).

(** The text after a number that [parseFloat] does not read: it is empty or
    starts with a character that cannot continue a decimal literal. *)
Definition not_numeric (s : string) : Prop :=
  match s with
  | EmptyString => True
  | String c _ =>
      is_digit c = false /\ c <> "."%char /\ c <> "e"%char /\ c <> "E"%char
  end.


End Terms.

(* ===================================================================== *)
(** ** Further concrete requests and states *)
(* ===================================================================== *)

Module Cases.
Import JS Pg Fs Multer Server Sample.

(** A stored claim of the given id, type and amount. *)
Definition claim_typed (cid type amount : string) : claim_row :=
  claim_values cid noon_2024_05_15
    {| empName := Some "Asha Rao";
       empEmail := Some "a@gmail.com";
       empId := Some "ATS0123";
       Server.department := Some "Finance";
       claimDate := Some "2024-05-15";
       Server.amount := Some amount;
       Server.description := Some "Taxi to the airport";
       Server.type := Some type |}.

(** Two travel claims and one of a type the page does not list. *)
Definition mixed_claims : list claim_row :=
  [claim_typed "CLM-2024-1001" "Travel" "1500.50";
   claim_typed "CLM-2024-1002" "Fuel" "99.99";
   claim_typed "CLM-2024-1003" "Travel" "20"].

(** The listing after the end-to-end example on [part_000]. *)
Definition listed_two_receipts : list claim_with_documents :=
  [{| claim := claim_values "CLM-2024-5500" noon_2024_05_15
                 (form_ok "2024-05-15");
      Server.documents :=
        Some [(1, "receipt-1.pdf", "/srv/Uploads/documents-1.pdf");
              (2, "receipt-2.pdf", "/srv/Uploads/documents-2.pdf")] |}].

(** The claim of the end-to-end example once it has been approved, and the
    listing of [Backend/server.js] that shows it. *)
Definition approved_claim : claim_row :=
  set_status "approved" (noon_2024_05_15 + 1000)
    (claim_values "CLM-2024-5500" noon_2024_05_15 (form_ok "2024-05-15")).

Definition listed_approved : list claim_with_documents :=
  [{| claim := approved_claim; Server.documents := None |}].

(** A submission with a text file among the receipts. *)
Definition text_file : part :=
  {| fieldname := "documents";
     originalname := "notes.txt";
     mimetype := "text/plain";
     content := "notes";
     path := "/srv/Uploads/documents-7.txt" |}.

Definition with_text_file : submission :=
  {| form := form_ok "2024-05-15"; parts := [pdf "1"; text_file] |}.

End Cases.

(* ===================================================================== *)
(** ** Decimal literals and their values *)
(* ===================================================================== *)

Module Decimal.

(** The sign in front of a number or of an exponent. *)
Inductive sign : Type := no_sign | plus | minus.

(** A decimal literal as a person writes an amount: a sign, the digits
    before the point, the digits after the point when there is a point, and
    an exponent when there is one (written with [E] or [e], a sign and
    digits).  A digit is given by its value. *)
Record literal : Type := {
  l_sign : sign;
  l_int : list Z;
  l_frac : option (list Z);
  l_exp : option (bool * sign * list Z)
}.

Definition is_digit_value (d : Z) : bool := (0 <=? d)%Z && (d <=? 9)%Z.

Definition is_nil (ds : list Z) : bool :=
  match ds with [] => true | _ => false end.

(** Every digit is one, there is a digit before or after the point, and an
    exponent has a digit. *)
Definition well_formed (l : literal) : bool :=
  forallb is_digit_value (l_int l)
  && forallb is_digit_value (default [] (l_frac l))
  && (negb (is_nil (l_int l)) || negb (is_nil (default [] (l_frac l))))
  && match l_exp l with
     | Some (_, _, ds) => forallb is_digit_value ds && negb (is_nil ds)
     | None => true
     end.

Definition digit_text (d : Z) : ascii :=
  match d with
  | 0 => "0" | 1 => "1" | 2 => "2" | 3 => "3" | 4 => "4"
  | 5 => "5" | 6 => "6" | 7 => "7" | 8 => "8" | _ => "9"
  end%char.

Fixpoint digits_text (ds : list Z) : string :=
  match ds with
  | [] => ""
  | d :: rest => String (digit_text d) (digits_text rest)
  end.

Definition sign_text (s : sign) : string :=
  match s with no_sign => "" | plus => "+" | minus => "-" end.

Definition exponent_text (e : option (bool * sign * list Z)) : string :=
  match e with
  | Some (capital, s, ds) =>
      (if capital then "E" else "e") ++ sign_text s ++ digits_text ds
  | None => ""
  end.

Definition fraction_text (f : option (list Z)) : string :=
  match f with
  | Some ds => "." ++ digits_text ds
  | None => ""
  end.

(** The literal as it is written. *)
Definition text (l : literal) : string :=
  sign_text (l_sign l) ++ digits_text (l_int l) ++ fraction_text (l_frac l)
  ++ exponent_text (l_exp l).

(** The number that a run of digits spells. *)
Fixpoint digits_number (ds : list Z) : Z :=
  match ds with
  | [] => 0
  | d :: rest => d * 10 ^ Z.of_nat (length rest) + digits_number rest
  end.

Definition sign_of (s : sign) : Z :=
  match s with minus => -1 | _ => 1 end.

Definition exponent (l : literal) : Z :=
  match l_exp l with
  | Some (_, s, ds) => sign_of s * digits_number ds
  | None => 0
  end.

(** The rational number that the literal denotes. *)
Definition value (l : literal) : Q :=
  let fraction := default [] (l_frac l) in
  (inject_Z (sign_of (l_sign l))
   * (inject_Z (digits_number (l_int l))
      + inject_Z (digits_number fraction) / 10 ^ Z.of_nat (length fraction))
   * 10 ^ exponent l)%Q.

(** The bounds between which a value is rounded to a binary64 number that
    is positive and at most 50000: half of the least positive binary64
    number [2^-1074], and 50000 and half of the spacing [2^-37] of the
    binary64 numbers around it. *)
Definition least_amount : Q := (1 # 2) ^ 1075.
Definition most_amount : Q := 50000 + (1 # 2) ^ 38.


(** What may follow a run of digits, and what may follow the fraction of a
    literal. *)
Definition ends_digits (s : string) : Prop :=
  match s with
  | EmptyString => True
  | String c _ => JS.is_digit c = false
  end.

Definition ends_fraction (s : string) : Prop :=
  match s with
  | EmptyString => True
  | String c _ => JS.is_digit c = false /\ c <> "."%char
  end.


(** The amounts of the examples of the specification. *)
Definition whole (ds : list Z) : literal :=
  {| l_sign := no_sign; l_int := ds; l_frac := None; l_exp := None |}.




End Decimal.

(* ===================================================================== *)
(** ** Properties *)
(* ===================================================================== *)

Import JS Pg Fs Multer Server Sample Spec.

Local Open Scope list_scope.

Arguments RegExp_test : simpl never.
Arguments parseFloat : simpl never.
Arguments Date_of_string : simpl never.
Arguments setMonth : simpl never.
Arguments getMonth : simpl never.
Arguments getFullYear : simpl never.
Arguments claimId_of : simpl never.
Arguments fl : simpl never.

(** *** Regular expressions *)

Section Regex.
Local Open Scope string_scope.

Lemma append_nil_inv (s1 s2 : string) : s1 ++ s2 = "" -> s1 = "" /\ s2 = "".
Proof. by destruct s1. Qed.

Lemma append_cons_inv (s1 s2 s : string) (c : ascii) :
  s1 ++ s2 = String c s ->
  (s1 = "" /\ s2 = String c s)
  \/ exists s1', s1 = String c s1' /\ s = s1' ++ s2.
Proof.
  destruct s1 as [|a s1]; simpl; [auto|].
  intros [= -> <-]. right. eauto.
Qed.

Lemma nullable_spec (r : regex) : nullable r = true <-> matches r "".
Proof.
  split.
  - induction r as [| |cls|r1 IH1 r2 IH2|r1 IH1 r2 IH2|r IH]; simpl; try done.
    + intros _. constructor.
    + intros [H1 H2]%andb_true_iff.
      change "" with ("" ++ ""). constructor; auto.
    + intros [H|H]%orb_true_iff; [apply m_alt_l | apply m_alt_r]; auto.
    + intros _. constructor.
  - intros H. remember "" as s eqn:Hs.
    induction H as [|c cls Hc|r1 r2 s1 s2 H1 IH1 H2 IH2|r1 r2 s H IH
                   |r1 r2 s H IH|r|r s1 s2 H1 IH1 H2 IH2]; simpl; try done.
    + apply append_nil_inv in Hs as [-> ->]. by rewrite IH1, IH2.
    + by rewrite IH.
    + rewrite IH by done. apply orb_true_r.
Qed.

Lemma deriv_sound (c : ascii) (r : regex) (s : string) :
  matches (deriv c r) s -> matches r (String c s).
Proof.
  revert s. induction r as [| |cls|r1 IH1 r2 IH2|r1 IH1 r2 IH2|r IH];
    intros s; simpl.
  - inversion 1.
  - inversion 1.
  - destruct (in_class c cls) eqn:Hc; inversion 1; subst. by constructor.
  - assert (Hseq : matches (re_seq (deriv c r1) r2) s ->
                   matches (re_seq r1 r2) (String c s)).
    { inversion 1 as [| |? ? s1 s2 H1 H2| | | |]; subst.
      change (String c (s1 ++ s2)) with (String c s1 ++ s2).
      constructor; auto. }
    destruct (nullable r1) eqn:Hn; [|exact Hseq].
    inversion 1 as [| | |? ? ? H1|? ? ? H2| |]; subst; [by apply Hseq|].
    change (String c s) with ("" ++ String c s).
    constructor; [by apply nullable_spec | auto].
  - inversion 1; subst; [apply m_alt_l | apply m_alt_r]; auto.
  - inversion 1 as [| |? ? s1 s2 H1 H2| | | |]; subst.
    change (String c (s1 ++ s2)) with (String c s1 ++ s2).
    constructor; auto.
Qed.

Lemma deriv_complete (c : ascii) (r : regex) (s : string) :
  matches r (String c s) -> matches (deriv c r) s.
Proof.
  intros H. remember (String c s) as s0 eqn:Hs. revert s Hs.
  induction H as [|c0 cls Hc|r1 r2 s1 s2 H1 IH1 H2 IH2|r1 r2 s0 H IH
                 |r1 r2 s0 H IH|r|r s1 s2 H1 IH1 H2 IH2]; intros s Hs; simpl.
  - done.
  - injection Hs as -> <-. rewrite Hc. constructor.
  - apply append_cons_inv in Hs as [[-> ->] | (s1' & -> & ->)].
    + apply nullable_spec in H1. rewrite H1. apply m_alt_r. by apply IH2.
    + assert (matches (re_seq (deriv c r1) r2) (s1' ++ s2))
        by (constructor; auto).
      destruct (nullable r1); [by apply m_alt_l | done].
  - apply m_alt_l. by apply IH.
  - apply m_alt_r. by apply IH.
  - done.
  - apply append_cons_inv in Hs as [[-> ->] | (s1' & -> & ->)].
    + by apply IH2.
    + constructor; auto.
Qed.

(** The test of the server is the membership in the words of the
    expression. *)
Lemma RegExp_test_spec (r : regex) (s : string) :
  RegExp_test r s = true <-> matches r s.
Proof.
  revert r. induction s as [|c s IH]; intros r.
  - apply nullable_spec.
  - change (RegExp_test r (String c s)) with (RegExp_test (deriv c r) s).
    rewrite IH. split; [apply deriv_sound | apply deriv_complete].
Qed.

Lemma matches_chr_inv (c : ascii) (s : string) :
  matches (re_chr c) s -> s = String c "".
Proof.
  inversion 1 as [|c0 cls Hc| | | | |]; subst. f_equal.
  unfold in_class, in_range, code in Hc. simpl in Hc.
  rewrite orb_false_r, andb_true_iff, !N.leb_le in Hc.
  rewrite <- (ascii_N_embedding c), <- (ascii_N_embedding c0).
  f_equal. lia.
Qed.

Lemma matches_lit_inv (l s : string) : matches (re_lit l) s -> s = l.
Proof.
  revert s. induction l as [|c l IH]; intros s; simpl.
  - by inversion 1.
  - inversion 1 as [| |? ? s1 s2 H1 H2| | | |]; subst.
    apply matches_chr_inv in H1 as ->. apply IH in H2 as ->. done.
Qed.

Lemma matches_chr (c : ascii) : matches (re_chr c) (String c "").
Proof.
  constructor. unfold in_class, in_range. simpl. by rewrite N.leb_refl.
Qed.

Lemma matches_lit (l : string) : matches (re_lit l) l.
Proof.
  induction l as [|c l IH]; simpl; [constructor|].
  change (String c l) with (String c "" ++ l).
  constructor; [apply matches_chr | done].
Qed.

Lemma matches_set_inv (cls : list (ascii * ascii)) (s : string) :
  matches (re_set cls) s -> exists c, s = String c "" /\ in_class c cls = true.
Proof. inversion 1; subst; eauto. Qed.

Lemma employee_id_pattern (s : string) :
  RegExp_test re_employee_id s = true <-> employee_id_shape s.
Proof.
  rewrite RegExp_test_spec. unfold re_employee_id, employee_id_shape. split.
  - inversion 1 as [| |? ? s1 s2 H1 H2| | | |]; subst.
    apply (matches_lit_inv "ATS0") in H1 as ->.
    inversion H2 as [| |? ? s3 s4 H3 H4| | | |]; subst.
    inversion H4 as [| |? ? s5 s6 H5 H6| | | |]; subst.
    apply matches_set_inv in H3 as (d1 & -> & Hd1).
    apply matches_set_inv in H5 as (d2 & -> & Hd2).
    apply matches_set_inv in H6 as (d3 & -> & Hd3).
    exists d1, d2, d3. unfold in_class in *. simpl in *.
    rewrite orb_false_r in Hd1, Hd2, Hd3. done.
  - intros (d1 & d2 & d3 & -> & Hd1 & Hd2 & Hd3).
    constructor; [apply (matches_lit "ATS0")|].
    change (String d1 (String d2 (String d3 "")))
      with (String d1 "" ++ (String d2 "" ++ String d3 "")).
    repeat constructor; unfold in_class; simpl; by rewrite orb_false_r.
Qed.


Lemma matches_star_set (cls : list (ascii * ascii)) (s : string) :
  matches (re_star (re_set cls)) s <->
  forallb (fun c => in_class c cls) (list_ascii_of_string s) = true.
Proof.
  split.
  - intros H. remember (re_star (re_set cls)) as r eqn:Hr.
    induction H as [| | | | |r0|r0 s1 s2 H1 _ H2 IH2]; try done.
    injection Hr as ->. apply matches_set_inv in H1 as (c & -> & Hc).
    simpl. rewrite Hc. by apply IH2.
  - induction s as [|c s IH]; simpl; [constructor|].
    intros [Hc Hs]%andb_true_iff.
    change (String c s) with (String c "" ++ s).
    constructor; [by constructor | auto].
Qed.

Lemma email_pattern (s : string) :
  RegExp_test re_email s = true <-> email_shape s.
Proof.
  rewrite RegExp_test_spec. unfold re_email, re_plus, email_shape. split.
  - inversion 1 as [| |? ? s1 s2 H1 H2| | | |]; subst.
    inversion H1 as [| |? ? s3 s4 H3 H4| | | |]; subst.
    apply matches_set_inv in H3 as (c & -> & Hc).
    apply matches_star_set in H4.
    inversion H2 as [| |? ? s5 s6 H5 H6| | | |]; subst.
    apply matches_chr_inv in H5 as ->.
    inversion H6 as [| |? ? s7 s8 H7 H8| | | |]; subst.
    apply (matches_lit_inv ".com") in H8 as ->.
    exists (String c s4). split; [done|]. split.
    { simpl. unfold local_char. by rewrite Hc. }
    inversion H7 as [| | |? ? ? Hg|? ? ? Ho| |]; subst.
    + apply (matches_lit_inv "gmail") in Hg as ->. left.
      done.
    + apply (matches_lit_inv "outlook") in Ho as ->. right.
      done.
  - intros (l & Hl & Hall & Hs).
    destruct l as [|c l]; [done|]. simpl in Hall.
    apply andb_true_iff in Hall as [Hc Hall].
    assert (Hlocal : matches
              (re_seq (re_set [("a", "z"); ("A", "Z"); ("0", "9"); (".", ".");
                               ("_", "_"); ("%", "%"); ("+", "+");
                               ("-", "-")]%char)
                 (re_star (re_set [("a", "z"); ("A", "Z"); ("0", "9");
                                   (".", "."); ("_", "_"); ("%", "%");
                                   ("+", "+"); ("-", "-")]%char)))
              (String c l)).
    { change (String c l) with (String c "" ++ l).
      constructor; [by constructor | by apply matches_star_set]. }
    destruct Hs as [-> | ->]; (apply m_seq; [exact Hlocal|]).
    + change "@gmail.com" with (String "@" "" ++ ("gmail" ++ ".com")).
      apply m_seq; [apply matches_chr|].
      apply m_seq; [apply m_alt_l, (matches_lit "gmail") | apply (matches_lit ".com")].
    + change "@outlook.com" with (String "@" "" ++ ("outlook" ++ ".com")).
      apply m_seq; [apply matches_chr|].
      apply m_seq; [apply m_alt_r, (matches_lit "outlook") | apply (matches_lit ".com")].
Qed.

Lemma bad_employee_id_test (s : string) :
  bad_employee_id s <-> RegExp_test re_employee_id s = false.
Proof.
  unfold bad_employee_id. rewrite <- employee_id_pattern.
  apply not_true_iff_false.
Qed.

Lemma bad_email_test (s : string) :
  bad_email s <-> RegExp_test re_email s = false.
Proof.
  unfold bad_email. rewrite <- email_pattern. apply not_true_iff_false.
Qed.

End Regex.

(** *** Validation *)

Lemma missing_field_orb (f : claim_form) :
  missing_field f <->
  falsy (empName f) || falsy (empEmail f) || falsy (empId f)
  || falsy (Server.department f) || falsy (claimDate f)
  || falsy (Server.amount f) || falsy (Server.description f)
  || falsy (Server.type f) = true.
Proof.
  unfold missing_field.
  repeat rewrite Exists_cons. rewrite Exists_nil.
  repeat rewrite orb_true_iff. tauto.
Qed.

Lemma amount_ok_checks (s : string) :
  amount_ok s <->
  isNaN (parseFloat s) || num_le (parseFloat s) (Finite 0)
  || num_gt (parseFloat s) (Finite 50000) = false.
Proof.
  unfold amount_ok. destruct (parseFloat s) as [|[]|q]; simpl.
  - split; [intros (q & ? & _); discriminate | discriminate].
  - split; [intros (q & ? & _); discriminate | discriminate].
  - split; [intros (q & ? & _); discriminate | discriminate].
  - rewrite orb_false_iff, negb_false_iff.
    rewrite <- not_true_iff_false, !Qle_bool_iff.
    split.
    + intros (q' & [= <-] & H1 & H2). split; [|done]. by apply Qlt_not_le.
    + intros [H1 H2]. exists q. split; [done|]. split; [|done].
      by apply Qnot_le_lt.
Qed.

Lemma bad_date_checks (h : host) (now : Z) (s : string) :
  bad_date h now s <->
  Date_gt (Date_of_string h s) (Some now)
  || Date_lt (Date_of_string h s) (threeMonthsAgo h now) = true.
Proof.
  unfold bad_date, Date_lt, Date_gt. rewrite orb_true_iff.
  destruct (Date_of_string h s) as [t|].
  - destruct (threeMonthsAgo h now) as [t3|].
    + rewrite !Z.ltb_lt. split.
      * intros (t' & [= <-] & [H | (t3' & [= <-] & H)]); auto.
      * intros [H | H]; exists t; split; eauto.
    + rewrite Z.ltb_lt. split.
      * intros (t' & [= <-] & [H | (t3' & [=] & _)]); auto.
      * intros [H | [=]]. exists t; split; eauto.
  - split.
    + intros (t & [=] & _).
    + intros [[=] | H]. by destruct (threeMonthsAgo h now).
Qed.

(** Every reply of the validation layer is a 400 with a reason. *)
Lemma validate_reply (h : host) (now : Z) (f : claim_form)
    (files : list part) (r : response) :
  validate h now f files = Some r ->
  exists msg, r = reply 400 (json_error msg).
Proof.
  unfold validate. cbv zeta.
  repeat match goal with
         | |- context [if ?b then Some _ else _] => destruct b
         end; intros [= <-]; eauto.
Qed.

(** The validation layer lets a submission through exactly when it fails
    none of its checks. *)
Lemma validate_None_iff (h : host) (now : Z) (f : claim_form)
    (files : list part) :
  validate h now f files = None <-> ~ fails_validation h now f files.
Proof.
  unfold fails_validation.
  rewrite bad_employee_id_test, bad_email_test.
  rewrite missing_field_orb, amount_ok_checks, bad_date_checks.
  unfold validate, threeMonthsAgo. cbv zeta.
  destruct (falsy (empName f) || _ || _ || _ || _ || _ || _ || _);
    [split; [done | intros H; contradict H; auto] |].
  destruct (RegExp_test re_employee_id _); cbn [negb];
    [| split; [done | intros H; contradict H; auto]].
  destruct (RegExp_test re_email _); cbn [negb];
    [| split; [done | intros H; contradict H; auto]].
  destruct (isNaN _ || _ || _);
    [split; [done | intros H; contradict H; right; right; right; left; auto] |].
  destruct (Date_gt _ _ || Date_lt _ _);
    [split; [done | intros H; contradict H; auto 10] |].
  destruct files as [|file files]; cbn [length Nat.eqb].
  - split; [done | intros H; contradict H; auto 10].
  - split; [| done]. intros _ H.
    destruct H as [H|[H|[H|[H|[H|H]]]]]; done.
Qed.

(** Closes a goal [exists msg code, r = reply code (json_error msg) /\ ...]
    once [r] is a concrete reply. *)
Ltac coded_reply :=
  do 2 eexists; split; [reflexivity|]; split; [tauto | intros; congruence].

Lemma receive_too_many (name : string) (n : nat) (ps : list part)
    (d : file_system) :
  (n < length ps)%nat -> exists err, receive name n ps d = inl err.
Proof.
  revert n d. induction ps as [|f ps IH]; intros n d Hn; simpl in Hn; [lia|].
  simpl.
  destruct (String.eqb (fieldname f) name); [|by eauto].
  destruct n as [|n]; [by eauto|].
  destruct (fileFilter f); [by eauto|].
  destruct (fileSize <=? size f)%Z; [by eauto|].
  apply IH. lia.
Qed.

(** What [receive] does to the tables: nothing; to the disk: it writes the
    files of the request. *)
Lemma receive_stores (name : string) (n : nat) (ps : list part)
    (d d' : file_system) :
  receive name n ps d = inr d' ->
  Forall (fun f => existsSync (path f) d' = true) ps
  /\ undeletable d' = undeletable d
  /\ (length ps <= n)%nat.
Proof.
  revert n d. induction ps as [|f ps IH]; intros n d; simpl.
  - intros [= <-]. split; [constructor | split; [done | lia]].
  - destruct (String.eqb (fieldname f) name); [|done].
    destruct n as [|n]; [done|].
    destruct (fileFilter f); [done|].
    destruct (fileSize <=? size f)%Z; [done|].
    intros H.
    assert (Hkeep : forall p ps n d d', receive name n ps d = inr d' ->
              existsSync p d = true -> existsSync p d' = true).
    { clear. intros p ps. induction ps as [|g ps IH]; intros n d d'; simpl.
      - by intros [= <-].
      - destruct (String.eqb (fieldname g) name); [|done].
        destruct n; [done|].
        destruct (fileFilter g); [done|].
        destruct (fileSize <=? size g)%Z; [done|].
        intros H Hp. eapply IH; [exact H|].
        unfold existsSync, writeFile in *; simpl.
        apply bool_decide_eq_true. apply bool_decide_eq_true in Hp.
        destruct (decide (path g = p)) as [->|Hne].
        + rewrite lookup_insert_eq. eauto.
        + by rewrite lookup_insert_ne. }
    destruct (IH _ _ H) as (Hall & Hu & Hlen).
    split; [|split; [by rewrite Hu | lia]].
    constructor; [|done].
    eapply Hkeep; [exact H|].
    unfold existsSync, writeFile; simpl.
    apply bool_decide_eq_true. rewrite lookup_insert_eq. eauto.
Qed.

(** C1.  A submission that fails a check of the validation layer (a missing
    field, a bad employee id, a bad e-mail address, a bad amount, a bad date
    or no attachment) is answered by the handler with a 400 and a reason, and
    the handler leaves the tables and the disk as they were; through the
    whole route of either copy of the server the tables are unchanged as
    well, whatever the upload middleware says first. *)
Theorem C1_validation_before_persistence
    (v : variant) (h : host) (e : engine) (now : Z) (random : number)
    (req : submission) (w : world) :
  fails_validation h now (form req) (parts req) ->
  (forall files, fails_validation h now (form req) files ->
     exists msg,
       submit v h e now random (form req) files w
       = (w, reply 400 (json_error msg)))
  /\ (exists msg code,
        snd (post_api_claims v h e now random req w)
        = reply code (json_error msg)
        /\ (code = 400 \/ code = 500)
        /\ (v = part_000 -> code = 400))
  /\ db (fst (post_api_claims v h e now random req w)) = db w.
Proof.
  intros Hreq.
  assert (Hsubmit : forall files w0, fails_validation h now (form req) files ->
            exists msg, submit v h e now random (form req) files w0
                        = (w0, reply 400 (json_error msg))).
  { intros files w0 Hf. unfold submit.
    destruct (validate h now (form req) files) as [r|] eqn:Hv.
    - destruct (validate_reply _ _ _ _ _ Hv) as [msg ->]. eauto.
    - apply validate_None_iff in Hv. contradiction. }
  split; [intros files; apply Hsubmit|].
  unfold post_api_claims, Multer.array.
  destruct (receive "documents" 5 (parts req) (disk w)) as [err|d] eqn:Hr.
  - simpl. split; [|done].
    destruct err, v; simpl; coded_reply.
  - destruct (Hsubmit (parts req) {| db := db w; disk := d |} Hreq) as [msg ->].
    simpl. split; [|done]. coded_reply.
Qed.

(** C10.  A submission with more than five file parts is turned away by the
    upload middleware: the reply is an error (a 400 from [part_000], a 500
    from [Backend/server.js]) and neither the tables nor the disk change. *)
Theorem C10_more_than_five_attachments
    (v : variant) (h : host) (e : engine) (now : Z) (random : number)
    (req : submission) (w : world) :
  (5 < length (parts req))%nat ->
  exists msg code,
    post_api_claims v h e now random req w = (w, reply code (json_error msg))
    /\ (code = 400 \/ code = 500)
    /\ (v = part_000 -> code = 400).
Proof.
  intros Hlen. unfold post_api_claims, Multer.array.
  destruct (receive_too_many "documents" 5 (parts req) (disk w) Hlen)
    as [err ->].
  destruct err, v; simpl; coded_reply.
Qed.

(** *** Fetching a document *)

Lemma filter_none {A} (P : A -> Prop) `{!forall x, Decision (P x)}
    (l : list A) :
  (forall x, x ∈ l -> ~ P x) -> filter P l = [].
Proof.
  induction l as [|x l IH]; intros Hno; [done|].
  rewrite filter_cons_False.
  - apply IH. intros y Hy. apply Hno. by right.
  - apply Hno. left.
Qed.

(** A key picks one row: filtering on the value a row has under an
    injective column leaves that row alone. *)
Lemma filter_key {A K} (key : A -> K) (P : A -> Prop)
    `{!forall x, Decision (P x)} (l : list A) (r : A) :
  NoDup (map key l) -> r ∈ l ->
  (forall x, P x <-> key x = key r) ->
  filter P l = [r].
Proof.
  intros Hnd Hin HP. induction l as [|x xs IH]; [by apply elem_of_nil in Hin|].
  simpl in Hnd. apply NoDup_cons in Hnd as [Hx Hnd].
  apply elem_of_cons in Hin as [<-|Hin].
  - rewrite filter_cons_True by by apply HP.
    f_equal. apply filter_none. intros y Hy Hyr. apply Hx.
    apply HP in Hyr. rewrite <- Hyr. apply list_elem_of_fmap. eauto.
  - rewrite filter_cons_False; [by apply IH|].
    intros Hxr. apply Hx. apply HP in Hxr. rewrite Hxr.
    apply list_elem_of_fmap. eauto.
Qed.

(** C6.  Fetching the document whose id the route parameter spells.  For an
    id [i] of the type [INTEGER] of the column: when no row of [documents]
    has that id the reply is a 404 "Document not found"; when the row is
    there but no file is stored under its [file_path] the reply is a 404
    "File not found on server"; otherwise the reply is a 200 that carries
    the bytes of the file.  For a parameter that spells no integer, or one
    outside [INTEGER], the query raises and the reply is a 500 "Server error
    while fetching document", whatever the table holds.  The handler is
    total: one of the four replies is always produced. *)
Theorem C6_fetch_document (documentId : option Z) (w : world) :
  NoDup (map doc_id (Pg.documents (db w))) ->
  (forall i, documentId = Some i -> int4 i = true ->
     ((forall r, r ∈ Pg.documents (db w) -> doc_id r <> i) ->
      get_api_documents documentId w
      = reply 404 (json_error "Document not found"))
     /\ (forall r, r ∈ Pg.documents (db w) -> doc_id r = i ->
         (files (disk w) !! file_path r = None ->
          get_api_documents documentId w
          = reply 404 (json_error "File not found on server"))
         /\ (forall bytes, files (disk w) !! file_path r = Some bytes ->
             get_api_documents documentId w = reply 200 (file_content bytes))))
  /\ (documentId = None
      \/ (exists i, documentId = Some i /\ int4 i = false) ->
      get_api_documents documentId w
      = reply 500 (json_error "Server error while fetching document")).
Proof.
  intros Hnd. unfold get_api_documents, select_file_path. split.
  - intros i -> ->. split.
    + intros Hno. by rewrite filter_none.
    + intros r Hin Hid.
      rewrite (filter_key doc_id _ _ r Hnd Hin) by (intros x; by rewrite Hid).
      simpl. unfold existsSync, sendFile. split.
      * intros ->. by rewrite bool_decide_eq_false_2 by by intros [? [=]].
      * intros bytes ->. by rewrite bool_decide_eq_true_2 by eauto.
  - intros [-> | (i & -> & ->)]; reflexivity.
Qed.

(** C6, as stated, fails at an id outside [INTEGER]: no row of [documents]
    has the id 2147483648, and fetching it is answered with the 500 of the
    [catch] block, not with a not-found error. *)
Lemma C6_id_outside_integer :
  (forall r, r ∈ Pg.documents (db (after_two_receipts part_000)) ->
     doc_id r <> 2147483648)
  /\ get_api_documents (Some 2147483648) (after_two_receipts part_000)
     = reply 500 (json_error "Server error while fetching document")
  /\ get_api_documents (Some 2147483648) (after_two_receipts part_000)
     <> reply 404 (json_error "Document not found").
Proof.
  split; [|split; [by vm_compute | by vm_compute]].
  intros r Hr. vm_compute in Hr.
  apply elem_of_cons in Hr as [-> | Hr]; [done|].
  apply elem_of_cons in Hr as [-> | Hr]; [done|].
  by apply elem_of_nil in Hr.
Qed.

(** *** Status updates *)

Lemma terminal_includes (s : option string) :
  terminal s <->
  existsb (fun x => bool_decide (s = Some x)) ["approved"; "rejected"] = true.
Proof.
  unfold terminal. simpl. rewrite !orb_true_iff, !bool_decide_eq_true.
  intuition discriminate.
Qed.

Lemma update_status_claim_ids (st : string) (t : Z) (cid : string)
    (d : database) :
  map claim_id (claims (fst (update_status st t cid d)))
  = map claim_id (claims d).
Proof.
  simpl. induction (claims d) as [|r rs IH]; [done|].
  simpl. rewrite IH. by destruct (String.eqb (claim_id r) cid).
Qed.

Lemma update_status_rows (st : string) (t : Z) (cid : string) (d : database)
    (r' : claim_row) :
  r' ∈ claims (fst (update_status st t cid d)) <->
  exists r, r ∈ claims d
    /\ r' = if String.eqb (claim_id r) cid then set_status st t r else r.
Proof.
  simpl. rewrite list_elem_of_fmap.
  split; [intros (r & -> & Hr) | intros (r & Hr & ->)]; eauto.
Qed.

Lemma update_status_absent (st : string) (t : Z) (cid : string)
    (d : database) :
  (forall c, c ∈ claims d -> claim_id c <> cid) ->
  update_status st t cid d = (d, []).
Proof.
  intros Hno. unfold update_status. f_equal.
  - destruct d as [cs ds n]; simpl in *. f_equal.
    induction cs as [|r rs IH]; [done|]. simpl.
    rewrite IH by (intros c Hc; apply Hno; by right).
    destruct (String.eqb_spec (claim_id r) cid) as [Heq|_]; [|done].
    exfalso. eapply Hno; [|exact Heq]. left.
  - rewrite filter_none; [done|].
    intros c Hc Heq. apply String.eqb_eq in Heq. by eapply Hno.
Qed.

Lemma update_status_present (st : string) (t : Z) (d : database)
    (c : claim_row) :
  NoDup (map claim_id (claims d)) -> c ∈ claims d ->
  snd (update_status st t (claim_id c) d) = [set_status st t c].
Proof.
  intros Hnd Hin. simpl.
  rewrite (filter_key claim_id _ _ c Hnd Hin); [done|].
  intros x. apply String.eqb_eq.
Qed.

(** One accepted status update of an existing claim. *)
Lemma patch_existing (now : Z) (s : option string) (w : world)
    (c : claim_row) :
  terminal s ->
  NoDup (map claim_id (claims (db w))) -> c ∈ claims (db w) ->
  let c' := set_status (str s) now c in
  exists w',
    patch_api_claims now (claim_id c) s w = (w', reply 200 (json_claim c'))
    /\ NoDup (map claim_id (claims (db w')))
    /\ c' ∈ claims (db w')
    /\ (forall r, r ∈ claims (db w') -> claim_id r = claim_id c -> r = c')
    /\ (forall r, claim_id r <> claim_id c ->
          r ∈ claims (db w') <-> r ∈ claims (db w))
    /\ Pg.documents (db w') = Pg.documents (db w)
    /\ disk w' = disk w.
Proof.
  intros Hs Hnd Hin c'. unfold patch_api_claims.
  apply terminal_includes in Hs. rewrite Hs. cbn [negb].
  pose proof (update_status_present (str s) now (db w) c Hnd Hin) as Hrows.
  pose proof (update_status_claim_ids (str s) now (claim_id c) (db w)) as Hids.
  pose proof (update_status_rows (str s) now (claim_id c) (db w)) as Hmem.
  assert (Hdocs : Pg.documents (fst (update_status (str s) now (claim_id c)
                                       (db w))) = Pg.documents (db w)) by done.
  destruct (update_status (str s) now (claim_id c) (db w)) as [db' rows].
  simpl in Hrows, Hids, Hmem, Hdocs. subst rows.
  eexists. split; [reflexivity|]. simpl.
  split; [by rewrite Hids|].
  split; [apply Hmem; exists c; by rewrite String.eqb_refl|].
  split.
  { intros r Hr Hrc. apply Hmem in Hr as (r0 & Hr0 & ->).
    destruct (String.eqb_spec (claim_id r0) (claim_id c)) as [Heq|Hne].
    - assert (r0 = c) as ->; [|done].
      clear -Hnd Hr0 Hin Heq.
      induction (claims (db w)) as [|x xs IH]; [by apply elem_of_nil in Hin|].
      simpl in Hnd. apply NoDup_cons in Hnd as [Hx Hnd].
      apply elem_of_cons in Hr0 as [->|Hr0];
        apply elem_of_cons in Hin as [->|Hin]; auto.
      + exfalso. apply Hx. rewrite Heq. apply list_elem_of_fmap; eauto.
      + exfalso. apply Hx. rewrite <- Heq. apply list_elem_of_fmap; eauto.
    - by destruct Hne. }
  split; [|split].
  - intros r Hr. rewrite Hmem. split.
    + intros (r0 & Hr0 & ->).
      destruct (String.eqb_spec (claim_id r0) (claim_id c)) as [Heq|Hne];
        [by destruct Hr | done].
    + intros Hr0. exists r. split; [done|].
      by destruct (String.eqb_spec (claim_id r) (claim_id c)).
  - done.
  - done.
Qed.

(** C3.  A status update with a status other than approved or rejected is
    answered 400 and changes nothing; with one of the two and no claim of
    that id it is answered 404 and changes nothing; with one of the two and
    an existing claim it stores the status, stamps [updated_at] with the
    clock and returns the updated row.  Two updates in a row with different
    statuses both succeed, the second status is the one that stays, and
    [updated_at] follows the clock. *)
Theorem C3_update_status (now : Z) (claimId : string)
    (new_status : option string) (w : world) :
  (~ terminal new_status ->
   patch_api_claims now claimId new_status w
   = (w, reply 400 (json_error "Status must be approved or rejected")))
  /\ (terminal new_status ->
      (forall c, c ∈ claims (db w) -> claim_id c <> claimId) ->
      patch_api_claims now claimId new_status w
      = (w, reply 404 (json_error "Claim not found")))
  /\ (terminal new_status ->
      NoDup (map claim_id (claims (db w))) ->
      forall c, c ∈ claims (db w) -> claim_id c = claimId ->
      exists w' c',
        patch_api_claims now claimId new_status w
        = (w', reply 200 (json_claim c'))
        /\ c' = set_status (str new_status) now c
        /\ Pg.status c' = str new_status /\ updated_at c' = now
        /\ c' ∈ claims (db w')
        /\ (forall r, r ∈ claims (db w') -> claim_id r = claimId -> r = c')
        /\ (forall r, claim_id r <> claimId ->
              r ∈ claims (db w') <-> r ∈ claims (db w))
        /\ Pg.documents (db w') = Pg.documents (db w)
        /\ disk w' = disk w)
  /\ (forall (s1 s2 : string) (now2 : Z) (c : claim_row),
      new_status = Some s1 -> terminal (Some s1) -> terminal (Some s2) ->
      s1 <> s2 -> now <= now2 ->
      NoDup (map claim_id (claims (db w))) ->
      c ∈ claims (db w) -> claim_id c = claimId ->
      exists w1 c1 w2 c2,
        patch_api_claims now claimId (Some s1) w
        = (w1, reply 200 (json_claim c1))
        /\ patch_api_claims now2 claimId (Some s2) w1
           = (w2, reply 200 (json_claim c2))
        /\ Pg.status c1 = s1 /\ Pg.status c2 = s2
        /\ c2 ∈ claims (db w2)
        /\ (forall r, r ∈ claims (db w2) -> claim_id r = claimId -> r = c2)
        /\ updated_at c1 = now /\ updated_at c2 = now2
        /\ updated_at c1 <= updated_at c2).
Proof.
  split; [|split; [|split]].
  - intros Hs. unfold patch_api_claims.
    rewrite terminal_includes in Hs. apply not_true_is_false in Hs.
    by rewrite Hs.
  - intros Hs Hno. unfold patch_api_claims.
    apply terminal_includes in Hs. rewrite Hs. cbn [negb].
    rewrite update_status_absent by done. by destruct w.
  - intros Hs Hnd c Hin <-.
    destruct (patch_existing now new_status w c Hs Hnd Hin)
      as (w' & Hp & _ & Hin' & Huniq & Hother & Hdocs & Hdisk).
    exists w', (set_status (str new_status) now c). auto 10.
  - intros s1 s2 now2 c -> Hs1 Hs2 Hne Hle Hnd Hin <-.
    destruct (patch_existing now (Some s1) w c Hs1 Hnd Hin)
      as (w1 & Hp1 & Hnd1 & Hin1 & _).
    destruct (patch_existing now2 (Some s2) w1 _ Hs2 Hnd1 Hin1)
      as (w2 & Hp2 & _ & Hin2 & Huniq2 & _).
    simpl in Hp2, Hin2, Huniq2.
    exists w1, (set_status s1 now c), w2,
      (set_status s2 now2 (set_status s1 now c)).
    simpl. auto 12.
Qed.


(** *** Employee ids *)

(** C9, as stated, fails at the empty string: it does not match the
    pattern, and a listing filtered by it is answered 200, the empty filter
    being taken as no filter. *)
Lemma C9_empty_filter_is_no_filter :
  bad_employee_id ""
  /\ get_api_claims part_000
       {| q_employee_id := Some ""; q_claim_id := None; q_status := None |} w0
     = reply 200 (json_claims [])
  /\ get_api_claims Backend_server_js
       {| q_employee_id := Some ""; q_claim_id := None; q_status := None |} w0
     = reply 200 (json_claims []).
Proof.
  split; [|by vm_compute].
  apply bad_employee_id_test. by vm_compute.
Qed.

(** C9, amended.  For every string that does not match
    [ATS0[1-9]\d{2}]: a submission with that employee id is answered 400 by
    the handler, which changes nothing; and a listing filtered by it is
    answered 400 unless the string is empty. *)
Theorem C9_employee_id_pattern (v : variant) (h : host) (e : engine)
    (now : Z) (random : number) (f : claim_form) (files : list part)
    (q : claim_query) (w : world) (s : string) :
  bad_employee_id s ->
  (exists msg,
     submit v h e now random (with_empId f (Some s)) files w
     = (w, reply 400 (json_error msg)))
  /\ (s <> "" -> q_employee_id q = Some s ->
      get_api_claims v q w
      = reply 400 (json_error "Employee ID must be ATS0 followed by 3 digits")).
Proof.
  intros Hbad. split.
  - unfold submit.
    destruct (validate h now (with_empId f (Some s)) files) as [r|] eqn:Hv.
    + destruct (validate_reply _ _ _ _ _ Hv) as [msg ->]. eauto.
    + apply validate_None_iff in Hv. contradict Hv. right. left. exact Hbad.
  - intros Hne Hq. unfold get_api_claims. rewrite Hq. simpl.
    apply bad_employee_id_test in Hbad. rewrite Hbad.
    by destruct s.
Qed.

Lemma C9_employee_id_pattern_witness :
  bad_employee_id "ATS0023"
  /\ (exists msg,
        submit part_000 utc schema noon_2024_05_15 half
          (with_empId (form_ok "2024-05-15") (Some "ATS0023")) [pdf "1"] w0
        = (w0, reply 400 (json_error msg))).
Proof.
  assert (H : bad_employee_id "ATS0023").
  { intros (d1 & d2 & d3 & Heq & H1 & _). injection Heq as <- <- <-.
    vm_compute in H1. discriminate. }
  split; [exact H|].
  exact (proj1 (C9_employee_id_pattern part_000 utc schema noon_2024_05_15
                  half (form_ok "2024-05-15") [pdf "1"]
                  {| q_employee_id := None; q_claim_id := None;
                     q_status := None |} w0 "ATS0023" H)).
Defined.

(** *** Listing *)

Lemma insert_desc_perm (r : claim_row) (l : list claim_row) :
  Permutation (insert_desc r l) (r :: l).
Proof.
  induction l as [|x l IH]; simpl; [done|].
  destruct (created_at x <=? created_at r)%Z; [done|].
  rewrite IH. apply perm_swap.
Qed.

Lemma order_by_perm (l : list claim_row) :
  Permutation (order_by_created_at_desc l) l.
Proof.
  induction l as [|x l IH]; simpl; [done|].
  by rewrite insert_desc_perm, IH.
Qed.

Lemma insert_desc_sorted (r : claim_row) (l : list claim_row) :
  Sorted newer_or_same l -> Sorted newer_or_same (insert_desc r l).
Proof.
  induction 1 as [|x l Hl IH Hhd]; simpl.
  - repeat constructor.
  - destruct (Z.leb_spec (created_at x) (created_at r)) as [Hle|Hgt].
    + constructor; [by constructor|]. by constructor.
    + constructor; [exact IH|].
      destruct Hhd as [|y l Hxy]; simpl.
      * constructor. unfold newer_or_same. lia.
      * destruct (created_at y <=? created_at r)%Z; constructor;
          [unfold newer_or_same; lia | done].
Qed.

Lemma order_by_sorted (l : list claim_row) :
  Sorted newer_or_same (order_by_created_at_desc l).
Proof.
  induction l as [|x l IH]; simpl; [constructor|].
  by apply insert_desc_sorted.
Qed.

Lemma where_push (c : column) (x : option string)
    (values : list (column * string)) (r : claim_row) :
  where_ (push_filter c x values) r = true <->
  where_ values r = true /\ filter_holds x (column_value c r).
Proof.
  unfold push_filter, filter_holds, where_.
  destruct x as [[|a s]|]; simpl; try tauto.
  rewrite forallb_app, andb_true_iff. simpl.
  rewrite andb_true_r, String.eqb_eq.
  split; intros [H1 H2]; split; auto.
  - right. by rewrite H2.
  - by destruct H2 as [[=]|[= ->]].
Qed.

Lemma where_selected (q : claim_query) (r : claim_row) :
  where_ (push_filter col_status (q_status q)
            (push_filter col_claim_id (q_claim_id q)
               (push_filter col_employee_id (q_employee_id q) []))) r = true
  <-> selected q r.
Proof.
  rewrite !where_push. unfold selected. simpl. tauto.
Qed.

Lemma select_documents_of (cid : string) (d : database) :
  select_documents cid d = documents_of cid d.
Proof.
  unfold select_documents, documents_of. f_equal.
  apply list_filter_iff. intros r. apply String.eqb_eq.
Qed.

(** X18.  The listing, on either copy of the server: for a query whose employee
    id, if any, matches the pattern, the reply is a 200 carrying exactly the
    claims that pass all the filters of the query (each once per row:
    nothing is cut off), newest first.  On [part_000] each claim comes with
    the (id, file_name, file_path) of the documents that reference it; on
    [Backend/server.js] it comes without documents. *)
Theorem listing (v : variant) (q : claim_query) (w : world) :
  falsy (q_employee_id q) = true \/ ~ bad_employee_id (str (q_employee_id q)) ->
  exists rows,
    get_api_claims v q w = reply 200 (json_claims rows)
    /\ Permutation (map claim rows) (filter (selected q) (claims (db w)))
    /\ Sorted newer_or_same (map claim rows)
    /\ Forall (fun x =>
                 Server.documents x
                 = match v with
                   | part_000 => Some (documents_of (claim_id (claim x)) (db w))
                   | Backend_server_js => None
                   end) rows.
Proof.
  intros Hq. unfold get_api_claims.
  assert (negb (falsy (q_employee_id q))
          && negb (RegExp_test re_employee_id (str (q_employee_id q))) = false)
    as ->.
  { destruct Hq as [->|Hq]; [done|]. rewrite bad_employee_id_test in Hq.
    apply not_false_is_true in Hq. rewrite Hq. apply andb_false_r. }
  eexists. split; [reflexivity|].
  rewrite map_map. simpl. rewrite map_id. unfold select_claims.
  split; [|split].
  - rewrite order_by_perm.
    erewrite list_filter_iff; [reflexivity|]. intros r. apply where_selected.
  - apply order_by_sorted.
  - apply Forall_map. apply Forall_forall. intros r _. simpl.
    by rewrite select_documents_of.
Qed.

Lemma listing_witness :
  exists rows,
    get_api_claims part_000 (only_claim_id "CLM-2024-5500")
      (after_two_receipts part_000)
    = reply 200 (json_claims rows)
    /\ Permutation (map claim rows)
         (filter (selected (only_claim_id "CLM-2024-5500"))
            (claims (db (after_two_receipts part_000))))
    /\ Sorted newer_or_same (map claim rows)
    /\ Forall (fun x =>
                 Server.documents x
                 = Some (documents_of (claim_id (claim x))
                           (db (after_two_receipts part_000)))) rows.
Proof.
  apply (listing part_000 (only_claim_id "CLM-2024-5500")
           (after_two_receipts part_000)).
  by left.
Defined.

(** C4 on [Backend/server.js]: after the end-to-end submission with two
    receipts the claim has two rows in [documents], and the listing returns
    the claim without them. *)
Theorem C4_backend_listing_has_no_documents :
  documents_of "CLM-2024-5500" (db (after_two_receipts Backend_server_js))
  = [(1, "receipt-1.pdf", "/srv/Uploads/documents-1.pdf");
     (2, "receipt-2.pdf", "/srv/Uploads/documents-2.pdf")]
  /\ get_api_claims Backend_server_js (only_claim_id "CLM-2024-5500")
       (after_two_receipts Backend_server_js)
     = reply 200
         (json_claims
            [{| claim := claim_values "CLM-2024-5500" noon_2024_05_15
                           (form_ok "2024-05-15");
                Server.documents := None |}]).
Proof. split; by vm_compute. Qed.

(** *** Failed submissions *)

Lemma cleanup_cons (f : part) (fs : list part) (d : file_system) :
  cleanup (f :: fs) d
  = cleanup fs (if existsSync (path f) d
                then from_option id d (unlinkSync (path f) d) else d).
Proof. reflexivity. Qed.

Lemma cleanup_spec (fs : list part) (d : file_system) :
  undeletable (cleanup fs d) = undeletable d
  /\ (forall p, files (cleanup fs d) !! p = None
               \/ files (cleanup fs d) !! p = files d !! p)
  /\ (forall f, f ∈ fs ->
        files (cleanup fs d) !! path f = None \/ path f ∈ undeletable d)
  /\ (forall p, p ∉ map path fs -> files (cleanup fs d) !! p = files d !! p).
Proof.
  revert d. induction fs as [|f fs IH]; intros d.
  - simpl. split; [done|]. split; [auto|]. split; [|done].
    intros f Hf. by apply elem_of_nil in Hf.
  - rewrite cleanup_cons.
    set (d1 := if existsSync (path f) d
               then from_option id d (unlinkSync (path f) d) else d).
    assert (Hd1 : undeletable d1 = undeletable d
              /\ (forall p, files d1 !! p = None \/ files d1 !! p = files d !! p)
              /\ (files d1 !! path f = None \/ path f ∈ undeletable d)
              /\ (forall p, p <> path f -> files d1 !! p = files d !! p)).
    { subst d1. unfold unlinkSync.
      destruct (existsSync (path f) d) eqn:Hex; simpl.
      - destruct (bool_decide (path f ∈ undeletable d)) eqn:Hu; simpl.
        + apply bool_decide_eq_true in Hu. auto.
        + split; [done|]. split; [|split].
          * intros p. destruct (decide (path f = p)) as [<-|Hne].
            -- left. apply lookup_delete_eq.
            -- right. by apply lookup_delete_ne.
          * left. apply lookup_delete_eq.
          * intros p Hp. by apply lookup_delete_ne.
      - apply bool_decide_eq_false in Hex.
        split; [done|]. split; [auto|]. split; [|done].
        left. by apply eq_None_not_Some. }
    destruct Hd1 as (Hu1 & Hsub1 & Hf1 & Hoth1).
    destruct (IH d1) as (Hu & Hsub & Hgone & Hoth).
    split; [by rewrite Hu|]. split; [|split].
    + intros p. destruct (Hsub p) as [H|H]; [by left|].
      rewrite H. apply Hsub1.
    + intros g [->|Hg]%elem_of_cons.
      * destruct Hf1 as [Hnone|Hund]; [|by right].
        left. destruct (Hsub (path f)) as [H|H]; [done|]. by rewrite H.
      * destruct (Hgone g Hg) as [H|H]; [by left|]. right. by rewrite <- Hu1.
    + intros p Hp. simpl in Hp. apply not_elem_of_cons in Hp as [Hpf Hp].
      rewrite Hoth by done. by apply Hoth1.
Qed.

Lemma insert_documents_disk (v : variant) (e : engine) (cid : string)
    (now : Z) (fs : list part) (w : world) :
  disk (fst (insert_documents v e cid now fs w)) = disk w.
Proof.
  revert w. induction fs as [|f fs IH]; intros w; simpl; [done|].
  destruct (match v with part_000 => _ | Backend_server_js => _ end);
    [apply IH|].
  destruct (insert_document e cid _ _ now (db w)) as [[db' i]|]; [|done].
  by rewrite IH.
Qed.

(** X19.  A failed submission, on either copy of the server: when a submission
    has passed validation and an INSERT raises (the one into [claims], or one
    into [documents] after the claim went in) the reply is a 500 with the
    fixed text "Server error while submitting claim".  On [part_000] every
    file of the request is afterwards gone from the disk unless the operating
    system refuses to remove it, and files that do not belong to the request
    are left alone; on [Backend/server.js] the disk is left as it was. *)
Theorem failed_submission (v : variant) (h : host) (e : engine) (now : Z)
    (random : number) (f : claim_form) (fs : list part) (w : world) :
  validate h now f fs = None ->
  persistence_fails v h e now random f fs w ->
  exists w',
    submit v h e now random f fs w
    = (w', reply 500 (json_error "Server error while submitting claim"))
    /\ match v with
       | part_000 =>
           (forall x, x ∈ fs ->
              files (disk w') !! path x = None
              \/ path x ∈ undeletable (disk w))
           /\ (forall p, p ∉ map path fs ->
                 files (disk w') !! p = files (disk w) !! p)
       | Backend_server_js => disk w' = disk w
       end.
Proof.
  intros Hv Hfail. unfold submit. rewrite Hv. cbv zeta.
  destruct (cleanup_spec fs (disk w)) as (_ & _ & Hgone & Hoth).
  destruct Hfail as [-> | (db1 & -> & Hloop)].
  - eexists. split; [reflexivity|]. simpl. by destruct v.
  - pose proof (insert_documents_disk v e (claimId_of h now random)
                  now fs {| db := db1; disk := disk w |}) as Hdisk.
    destruct (insert_documents _ _ _ _ _ _) as [w1 ok].
    simpl in Hloop, Hdisk. subst ok.
    eexists. split; [reflexivity|]. simpl. rewrite Hdisk. by destruct v.
Qed.

Lemma failed_submission_witness :
  validate utc noon_2024_05_15 (form_ok "2024-05-15")
    [pdf "1"; pdf_long_name] = None
  /\ exists w',
      submit part_000 utc schema noon_2024_05_15 half (form_ok "2024-05-15")
        [pdf "1"; pdf_long_name] (stored [pdf "1"; pdf_long_name] w0)
      = (w', reply 500 (json_error "Server error while submitting claim"))
      /\ (forall x, x ∈ [pdf "1"; pdf_long_name] ->
            files (disk w') !! path x = None
            \/ path x ∈ undeletable (disk (stored [pdf "1"; pdf_long_name] w0)))
      /\ (forall p, p ∉ map path [pdf "1"; pdf_long_name] ->
            files (disk w') !! p
            = files (disk (stored [pdf "1"; pdf_long_name] w0)) !! p).
Proof.
  assert (Hv : validate utc noon_2024_05_15 (form_ok "2024-05-15")
                 [pdf "1"; pdf_long_name] = None) by (vm_compute; reflexivity).
  split; [exact Hv|].
  apply (failed_submission part_000 utc schema noon_2024_05_15 half
           (form_ok "2024-05-15") [pdf "1"; pdf_long_name]
           (stored [pdf "1"; pdf_long_name] w0) Hv).
  right. eexists. split; vm_compute; reflexivity.
Defined.

(** C5 on [Backend/server.js].  First, a submission that draws the claim
    id of an earlier one: the INSERT into [claims] raises on the primary key,
    the reply is the 500, and the file uploaded with the request is still on
    the disk.  Second, a submission whose second file has a path of 284
    characters: the claim and the first document go in, the second INSERT
    raises; the reply is the 500, the claim row and the first document row
    stay, and both uploaded files are still on the disk.  On [part_000] the
    same two requests end with the files removed. *)
Theorem C5_backend_leaves_files :
  snd (post_api_claims Backend_server_js utc schema noon_2024_05_15 half
         third_receipt (after_two_receipts Backend_server_js))
  = reply 500 (json_error "Server error while submitting claim")
  /\ files (disk (after_third_receipt Backend_server_js)) !! path (pdf "3")
     = Some "%PDF-1.7"
  /\ snd (post_api_claims Backend_server_js utc schema noon_2024_05_15 half
            long_path_receipt w0)
     = reply 500 (json_error "Server error while submitting claim")
  /\ map claim_id (claims (db (after_long_path Backend_server_js)))
     = ["CLM-2024-5500"]
  /\ map file_name (Pg.documents (db (after_long_path Backend_server_js)))
     = ["receipt-1.pdf"]
  /\ files (disk (after_long_path Backend_server_js)) !! path (pdf "1")
     = Some "%PDF-1.7"
  /\ files (disk (after_long_path Backend_server_js)) !! path pdf_long_path
     = Some "%PDF-1.7"
  /\ files (disk (after_third_receipt part_000)) !! path (pdf "3") = None
  /\ files (disk (after_long_path part_000)) !! path (pdf "1") = None
  /\ files (disk (after_long_path part_000)) !! path pdf_long_path = None.
Proof. repeat split; vm_compute; reflexivity. Qed.

(** *** The calendar *)

Lemma leap_year_spec (y : Z) :
  leap_year y = true <-> (y mod 4 = 0 /\ y mod 100 <> 0) \/ y mod 400 = 0.
Proof.
  unfold leap_year.
  rewrite orb_true_iff, andb_true_iff, negb_true_iff, !Z.eqb_eq, Z.eqb_neq.
  tauto.
Qed.

Lemma DayFromYear_succ (y : Z) :
  DayFromYear (y + 1) = DayFromYear y + DaysInYear y.
Proof.
  unfold DayFromYear, DaysInYear.
  destruct (leap_year y) eqn:Hl.
  - apply leap_year_spec in Hl. Z.div_mod_to_equations. lia.
  - apply not_true_iff_false in Hl. rewrite leap_year_spec in Hl.
    Z.div_mod_to_equations. lia.
Qed.

Lemma year_of_day_spec (d : Z) :
  DayFromYear (year_of_day d) <= d < DayFromYear (year_of_day d + 1).
Proof.
  unfold year_of_day.
  set (y := 1970 + d * 400 / 146097).
  assert (Hlo : DayFromYear (y - 1) <= d) by (unfold DayFromYear; subst y; Z.div_mod_to_equations; lia).
  assert (Hhi : d < DayFromYear (y + 2)) by (unfold DayFromYear; subst y; Z.div_mod_to_equations; lia).
  destruct (Z.leb_spec (DayFromYear (y + 1)) d) as [H1|H1].
  - split; [done|]. by replace (y + 1 + 1) with (y + 2) by lia.
  - destruct (Z.leb_spec (DayFromYear y) d) as [H2|H2]; [done|].
    split; [done|]. by replace (y - 1 + 1) with y by lia.
Qed.

Lemma DayWithinYear_range (t : Z) :
  0 <= DayWithinYear t < DaysInYear (YearFromTime t).
Proof.
  unfold DayWithinYear, YearFromTime.
  pose proof (year_of_day_spec (Day t)) as H.
  rewrite DayFromYear_succ in H. lia.
Qed.

Lemma month_of_day_spec (leap : bool) (dwy : Z) :
  0 <= dwy < month_start leap 12 ->
  let m := month_of_day leap dwy 11 0 in
  0 <= m <= 11 /\ month_start leap m <= dwy < month_start leap (m + 1).
Proof.
  intros H. cbv zeta. unfold month_of_day.
  repeat match goal with
         | |- context [Z.ltb ?a ?b] => destruct (Z.ltb_spec a b)
         end; destruct leap; simpl in *; lia.
Qed.

Lemma MonthFromTime_range (t : Z) : 0 <= MonthFromTime t <= 11.
Proof.
  unfold MonthFromTime. apply month_of_day_spec.
  pose proof (DayWithinYear_range t) as H. unfold DaysInYear in H.
  destruct (leap_year (YearFromTime t)); simpl; lia.
Qed.

(** The day of a time value, from its year, month and date. *)
Lemma MakeDay_of_time (t : Z) :
  MakeDay (YearFromTime t) (MonthFromTime t) (DateFromTime t) = Day t.
Proof.
  pose proof (MonthFromTime_range t) as Hm.
  unfold MakeDay, DateFromTime.
  rewrite Z.div_small, Z.mod_small by lia.
  rewrite Z.add_0_r. unfold DayWithinYear. lia.
Qed.

(** Three months back in the calendar is 89 to 92 days back. *)
Lemma MakeDay_three_months_back (y m dt : Z) :
  0 <= m <= 11 ->
  MakeDay y m dt - 92 <= MakeDay y (m - 3) dt <= MakeDay y m dt - 89.
Proof.
  intros Hm. unfold MakeDay.
  rewrite (Z.div_small m), (Z.mod_small m) by lia. rewrite Z.add_0_r.
  destruct (Z.lt_ge_cases m 3) as [Hlt|Hge].
  - replace ((m - 3) / 12) with (-1) by (Z.div_mod_to_equations; lia).
    replace ((m - 3) mod 12) with (m + 9) by (Z.div_mod_to_equations; lia).
    pose proof (DayFromYear_succ (y + -1)) as Hy.
    replace (y + -1 + 1) with y in Hy by lia. unfold DaysInYear in Hy.
    assert (m = 0 \/ m = 1 \/ m = 2) as [-> | [-> | ->]] by lia;
      destruct (leap_year y), (leap_year (y + -1)); simpl; lia.
  - rewrite (Z.div_small (m - 3)), (Z.mod_small (m - 3)) by lia.
    rewrite Z.add_0_r.
    assert (m = 3 \/ m = 4 \/ m = 5 \/ m = 6 \/ m = 7 \/ m = 8 \/ m = 9
            \/ m = 10 \/ m = 11) as Hcases by lia.
    destruct (leap_year y);
      repeat (destruct Hcases as [-> | Hcases]; [simpl; lia|]);
      subst; simpl; lia.
Qed.

(** [threeMonthsAgo] is a valid date from 89 to 92 days before the clock,
    give or take what the offset of the zone changes by in between: the day
    [setMonth] lands on, at the local time of day of the clock. *)
Lemma three_months_back_arith (now tz1 tz2 twd d back delta : Z) :
  tz1 - tz2 <= delta -> tz2 - tz1 <= delta ->
  now + tz1 = d * 86400000 + twd ->
  d - 92 <= back <= d - 89 ->
  now - 92 * 86400000 - delta <= back * 86400000 + twd - tz2
  <= now - 89 * 86400000 + delta.
Proof. lia. Qed.

Lemma local_time_split (t : Z) :
  t = Day t * 86400000 + TimeWithinDay t /\ 0 <= TimeWithinDay t < 86400000.
Proof.
  unfold Day, TimeWithinDay, msPerDay. Z.div_mod_to_equations. lia.
Qed.

Lemma threeMonthsAgo_value (h : host) (now delta : Z) :
  offsets_vary_by h delta ->
  - 8640000000000000 + 92 * msPerDay + delta <= now
  <= 8640000000000000 - delta ->
  let t := LocalTime h now in
  let back := MakeDay (YearFromTime t) (MonthFromTime t - 3) (DateFromTime t) in
  threeMonthsAgo h now = Some (UTC h (MakeDate back (TimeWithinDay t)))
  /\ now - 92 * msPerDay - delta <= UTC h (MakeDate back (TimeWithinDay t))
     <= now - 89 * msPerDay + delta.
Proof.
  intros Hvar Hnow t back.
  pose proof (MakeDay_three_months_back (YearFromTime t) (MonthFromTime t)
                (DateFromTime t) (MonthFromTime_range t)) as Hback.
  rewrite MakeDay_of_time in Hback. fold back in Hback.
  destruct (local_time_split t) as [Ht _].
  assert (Hb : now - 92 * msPerDay - delta
               <= UTC h (MakeDate back (TimeWithinDay t))
               <= now - 89 * msPerDay + delta).
  { unfold UTC, MakeDate. change msPerDay with 86400000.
    apply (three_months_back_arith now (LocalTZA h now true) _ _ (Day t));
      [apply Hvar | apply Hvar | exact Ht | exact Hback]. }
  split; [|exact Hb].
  unfold threeMonthsAgo, setMonth, getMonth. simpl. fold t. fold back.
  unfold TimeClip. unfold msPerDay in *.
  assert (0 <= delta) by (specialize (Hvar 0 true 0 true); lia).
  destruct (Z.leb_spec (Z.abs (UTC h (MakeDate back (TimeWithinDay t))))
              8640000000000000); [done|lia].
Qed.

Lemma threeMonthsAgo_bounds (h : host) (now delta : Z) :
  offsets_vary_by h delta ->
  - 8640000000000000 + 92 * msPerDay + delta <= now
  <= 8640000000000000 - delta ->
  exists t3,
    threeMonthsAgo h now = Some t3
    /\ now - 92 * msPerDay - delta <= t3 <= now - 89 * msPerDay + delta.
Proof.
  intros Hvar Hnow.
  destruct (threeMonthsAgo_value h now delta Hvar Hnow) as [Hv Hb]. eauto.
Qed.

(** A host whose zone keeps one offset. *)
Lemma constant_offset (tz : Z) (parse : string -> option Z) :
  offsets_vary_by {| LocalTZA := fun _ _ => tz; Date_parse_other := parse |} 0.
Proof. intros t b t' b'. simpl. lia. Qed.

(** The offsets of Eastern time differ by an hour. *)
Lemma eastern_2023_offsets : offsets_vary_by eastern_2023 3600000.
Proof.
  intros t b t' b'. simpl.
  destruct b, b'; simpl;
    repeat match goal with
           | |- context [if ?c then _ else _] => destruct c
           end; lia.
Qed.

(** By how many days [setMonth] runs past the calendar date [n] months
    back: the days by which the date exceeds the length of that month. *)
Lemma MakeDay_overshoot (n y m dt : Z) :
  MakeDay y (m - n) dt - months_before n y m dt
  = Z.max 0 (dt - DaysInMonth (y + (m - n) / 12) ((m - n) mod 12)).
Proof.
  unfold months_before. cbv zeta. unfold MakeDay.
  set (ym := y + (m - n) / 12). set (mn := (m - n) mod 12).
  assert (0 <= mn < 12) by (subst mn; Z.div_mod_to_equations; lia).
  rewrite (Z.div_small mn), (Z.mod_small mn) by lia.
  rewrite Z.add_0_r. lia.
Qed.

(** *** The date window *)

(** C7 on the code.  On a host on UTC at noon of 31 May 2024 the handler
    computes [threeMonthsAgo] as noon of 2 March (there is no 31 February,
    and [setMonth] runs on into March): the claim date 1 March 2024, which is
    three calendar months less one day before 31 May, is turned away, so is
    2 March, and 3 March is the first date let through.  On a host on Indian time at
    02:00 of 15 May 2024 the claim date 15 May 2024, the current date there,
    is turned away as lying in the future. *)
Theorem C7_date_window_on_the_code :
  threeMonthsAgo utc noon_2024_05_31
  = (fun t => t + 12 * 3600000) <$> Date_of_string utc "2024-03-02"
  /\ Some (MakeDate (months_before 3 2024 4 31 + 1) 0)
     = Date_of_string utc "2024-03-01"
  /\ validate utc noon_2024_05_31 (form_ok "2024-03-01") [pdf "1"]
     = Some (reply 400 (json_error
         "Claim date must be within the last 3 months and not in the future"))
  /\ validate utc noon_2024_05_31 (form_ok "2024-03-02") [pdf "1"]
     = Some (reply 400 (json_error
         "Claim date must be within the last 3 months and not in the future"))
  /\ validate utc noon_2024_05_31 (form_ok "2024-03-03") [pdf "1"] = None
  /\ getFullYear ist (Some early_2024_05_15_ist) = Some 2024
  /\ getMonth ist (Some early_2024_05_15_ist) = Some 4
  /\ DateFromTime (LocalTime ist early_2024_05_15_ist) = 15
  /\ validate ist early_2024_05_15_ist (form_ok "2024-05-15") [pdf "1"]
     = Some (reply 400 (json_error
         "Claim date must be within the last 3 months and not in the future")).
Proof. repeat split; vm_compute; reflexivity. Qed.

(** The first sentence of C7 holds on every host: a claim date after the
    clock, or before the date the handler calls [threeMonthsAgo], is turned
    away with a 400. *)
Lemma date_outside_window_rejected (h : host) (now : Z) (f : claim_form)
    (fs : list part) :
  bad_date h now (str (claimDate f)) ->
  exists msg, validate h now f fs = Some (reply 400 (json_error msg)).
Proof.
  intros Hbad.
  destruct (validate h now f fs) as [r|] eqn:Hv.
  - destruct (validate_reply _ _ _ _ _ Hv) as [msg ->]. eauto.
  - apply validate_None_iff in Hv. contradict Hv.
    unfold fails_validation. auto 10.
Qed.

(** The window in days: on a host whose clock is in the range of valid
    dates and whose zone offsets differ by at most [delta], a claim date
    after the clock or more than 92 days and [delta] before it is turned
    away, and one from 89 days less [delta] before the clock up to the clock
    passes the date check. *)
Theorem date_window_in_days (h : host) (now delta : Z) (s : string) (t : Z) :
  offsets_vary_by h delta ->
  - 8640000000000000 + 92 * msPerDay + delta <= now
  <= 8640000000000000 - delta ->
  Date_of_string h s = Some t ->
  (now < t -> bad_date h now s)
  /\ (t < now - 92 * msPerDay - delta -> bad_date h now s)
  /\ (now - 89 * msPerDay + delta <= t <= now -> ~ bad_date h now s).
Proof.
  intros Hvar Hnow Hs.
  destruct (threeMonthsAgo_bounds h now delta Hvar Hnow) as (t3 & Ht3 & Hb).
  unfold bad_date. rewrite Hs, Ht3. split; [|split].
  - intros Hlt. exists t. auto.
  - intros Hlt. exists t. split; [done|]. right. exists t3. split; [done|lia].
  - intros Hin (t' & [= <-] & [Hlt | (t3' & [= <-] & Hlt)]); lia.
Qed.

(** A claim date equal to the clock passes the date check. *)
Corollary clock_in_window (h : host) (now delta : Z) (s : string) :
  offsets_vary_by h delta -> delta <= 89 * msPerDay ->
  - 8640000000000000 + 92 * msPerDay + delta <= now
  <= 8640000000000000 - delta ->
  Date_of_string h s = Some now -> ~ bad_date h now s.
Proof.
  intros Hvar Hdelta Hnow Hs.
  apply (date_window_in_days h now delta s now Hvar Hnow Hs).
  unfold msPerDay in *. lia.
Qed.

(** The current calendar date of the host, sent as [YYYY-MM-DD], is read as
    midnight UTC of that day.  It passes the date check exactly when the
    local time of day has reached the offset of the zone from UTC: always on
    a host on or behind UTC, and on a host ahead of UTC only once that many
    hours of the day have gone by. *)
Theorem current_date_in_window (h : host) (now delta : Z) (s : string) :
  offsets_vary_by h delta -> delta <= msPerDay ->
  - msPerDay <= LocalTZA h now true ->
  - 8640000000000000 + 92 * msPerDay + delta <= now
  <= 8640000000000000 - delta ->
  Date_of_string h s = Some (MakeDate (Day (LocalTime h now)) 0) ->
  ~ bad_date h now s <-> LocalTZA h now true <= TimeWithinDay (LocalTime h now).
Proof.
  intros Hvar Hdelta Htz Hnow Hs.
  destruct (date_window_in_days h now delta s _ Hvar Hnow Hs)
    as (Hafter & _ & Hin).
  assert (Ht : MakeDate (Day (LocalTime h now)) 0
               = now + LocalTZA h now true - TimeWithinDay (LocalTime h now)
               /\ 0 <= TimeWithinDay (LocalTime h now) < msPerDay).
  { unfold MakeDate, Day, TimeWithinDay, LocalTime, msPerDay.
    Z.div_mod_to_equations. lia. }
  destruct Ht as [Ht Hrange]. rewrite Ht in Hafter, Hin.
  unfold msPerDay in *. split.
  - intros Hok. destruct (Z.le_gt_cases (LocalTZA h now true)
                            (TimeWithinDay (LocalTime h now))); [done|].
    exfalso. apply Hok, Hafter. lia.
  - intros Hle. apply Hin. lia.
Qed.

Lemma bad_date_iff (h : host) (now : Z) (s : string) (t t3 : Z) :
  Date_of_string h s = Some t -> threeMonthsAgo h now = Some t3 ->
  bad_date h now s <-> now < t \/ t < t3.
Proof.
  intros Hs H3. unfold bad_date. rewrite Hs, H3. split.
  - intros (t' & [= <-] & [Hlt | (t3' & [= <-] & Hlt)]); auto.
  - intros [Hlt | Hlt]; exists t; split; eauto.
Qed.

Lemma UTC_MakeDate (h : host) (day time : Z) :
  UTC h (MakeDate day time)
  = day * 86400000 + time - LocalTZA h (MakeDate day time) false.
Proof. reflexivity. Qed.

Lemma months_before_le (n y m dt : Z) :
  months_before n y m dt <= MakeDay y (m - n) dt.
Proof.
  pose proof (MakeDay_overshoot n y m dt) as Hov.
  set (back := MakeDay y (m - n) dt) in *.
  set (cm := months_before n y m dt) in *.
  clearbody back cm. lia.
Qed.



Lemma less_a_day_arith (now tz1 tz2 twd d cm back : Z) :
  tz1 <= 86400000 -> 0 <= twd < 86400000 ->
  now + tz1 = d * 86400000 + twd ->
  d - 92 <= back <= d - 89 -> cm <= back ->
  ~ (now < (cm + 1) * 86400000 + 0
     \/ (cm + 1) * 86400000 + 0 < back * 86400000 + twd - tz2)
  <-> (back - cm) * 86400000 + twd - tz2 <= 86400000.
Proof. lia. Qed.

(** The calendar date three months less a day before the current date of
    the host, sent as [YYYY-MM-DD]: it passes the date check exactly when
    the overshoot of [setMonth], the time of day and the zone offset on the
    day [setMonth] lands on leave room for it. *)
Theorem three_months_less_a_day (h : host) (now delta : Z) (s : string) :
  offsets_vary_by h delta ->
  LocalTZA h now true <= msPerDay ->
  - 8640000000000000 + 92 * msPerDay + delta <= now
  <= 8640000000000000 - delta ->
  let t := LocalTime h now in
  let y := YearFromTime t in
  let m := MonthFromTime t in
  let dt := DateFromTime t in
  Date_of_string h s = Some (MakeDate (months_before 3 y m dt + 1) 0) ->
  ~ bad_date h now s <->
  (MakeDay y (m - 3) dt - months_before 3 y m dt) * msPerDay
  + TimeWithinDay t
  - LocalTZA h (MakeDate (MakeDay y (m - 3) dt) (TimeWithinDay t)) false
  <= msPerDay.
Proof.
  intros Hvar Htz Hnow t y m dt Hs. subst y m dt.
  destruct (threeMonthsAgo_value h now delta Hvar Hnow) as [Hv _].
  fold t in Hv.
  rewrite (bad_date_iff h now s _ _ Hs Hv), UTC_MakeDate.
  change (MakeDate ?d 0) with (d * 86400000 + 0).
  change msPerDay with 86400000 in *.
  destruct (local_time_split t) as [Hsplit Hrange].
  apply (less_a_day_arith now (LocalTZA h now true) _ (TimeWithinDay t) (Day t)).
  - exact Htz.
  - exact Hrange.
  - exact Hsplit.
  - rewrite <- (MakeDay_of_time t).
    apply MakeDay_three_months_back, MonthFromTime_range.
  - apply months_before_le.
Qed.

(** In the middle of a month the date three months less a day back passes:
    at noon of 15 May 2024 on UTC that is 16 February. *)
Example mid_month_three_months_less_a_day :
  ~ bad_date utc noon_2024_05_15 "2024-02-16".
Proof.
  apply (three_months_less_a_day utc noon_2024_05_15 0 "2024-02-16");
    [apply constant_offset | by vm_compute ..].
Qed.

(** At the end of May it does not: at noon of 31 May 2024 on UTC that is
    1 March, and [setMonth] overshoots by two days. *)
Example month_end_three_months_less_a_day :
  bad_date utc noon_2024_05_31 "2024-03-01".
Proof.
  destruct (bad_date_checks utc noon_2024_05_31 "2024-03-01") as [_ Hbad].
  apply Hbad. by vm_compute.
Qed.

(** On a host on UTC the current date always passes; here at noon of 15 May
    2024. *)
Example current_date_on_utc : ~ bad_date utc noon_2024_05_15 "2024-05-15".
Proof.
  apply (current_date_in_window utc noon_2024_05_15 0 "2024-05-15");
    [apply constant_offset | by vm_compute ..].
Qed.

(** Where daylight saving begins within the three months, [threeMonthsAgo]
    is an hour later than on a fixed offset: at noon of 31 May 2023 on
    Eastern time, 16:00 UTC, it is noon of 3 March on the local clock, which
    is 17:00 UTC, 89 days less an hour back, where a host on UTC gets 89
    days; the claim date 3 March, read as midnight UTC, lies before it and
    is turned away, and 4 March passes. *)
Example three_months_ago_over_daylight_saving :
  threeMonthsAgo eastern_2023 noon_2023_05_31_eastern
  = Some (noon_2023_05_31_eastern - 89 * msPerDay + 3600000)
  /\ threeMonthsAgo utc noon_2023_05_31_eastern
     = Some (noon_2023_05_31_eastern - 89 * msPerDay)
  /\ bad_date eastern_2023 noon_2023_05_31_eastern "2023-03-03"
  /\ ~ bad_date eastern_2023 noon_2023_05_31_eastern "2023-03-04".
Proof.
  split; [by vm_compute|]. split; [by vm_compute|]. split.
  - apply bad_date_checks. by vm_compute.
  - rewrite bad_date_checks. by vm_compute.
Qed.


(** *** A submission and the listing that follows it *)

Lemma insert_claim_inv (e : engine) (r : claim_row) (d d' : database) :
  insert_claim e r d = Some d' ->
  has_claim (claim_id r) d = false
  /\ claims d' = claims d ++ [r]
  /\ Pg.documents d' = Pg.documents d
  /\ documents_id_seq d' = documents_id_seq d.
Proof.
  unfold insert_claim. destruct (has_claim (claim_id r) d); [done|].
  destruct (negb (accepts_claim e r)); [done|]. by intros [= <-].
Qed.

Lemma insert_document_inv (e : engine) (cid name p : string) (t : Z)
    (d d' : database) (i : Z) :
  insert_document e cid name p t d = Some (d', i) ->
  has_claim cid d = true
  /\ claims d' = claims d
  /\ Pg.documents d'
     = Pg.documents d
       ++ [{| doc_id := documents_id_seq d; doc_claim_id := cid;
              file_name := name; file_path := p; uploaded_at := t |}]
  /\ documents_id_seq d' = documents_id_seq d + 1.
Proof.
  unfold insert_document. destruct (has_claim cid d); [|done].
  simpl. destruct (negb (accepts_document e _)); [done|]. by intros [= <- <-].
Qed.

(** The document loop when no INSERT raises and, on [part_000], every file
    is on the disk: one row per file, in order, under the original name. *)
Lemma insert_documents_all (v : variant) (e : engine) (cid : string)
    (now : Z) (fs : list part) (w w' : world) :
  (v = part_000 -> Forall (fun f => existsSync (path f) (disk w) = true) fs) ->
  insert_documents v e cid now fs w = (w', true) ->
  claims (db w') = claims (db w)
  /\ disk w' = disk w
  /\ exists rows,
      Pg.documents (db w') = Pg.documents (db w) ++ rows
      /\ map file_name rows = map originalname fs
      /\ map file_path rows = map path fs
      /\ Forall (fun r => doc_claim_id r = cid) rows.
Proof.
  revert w. induction fs as [|f fs IH]; intros w Hall; simpl.
  - intros [= <-]. split; [done|]. split; [done|].
    exists []. by rewrite app_nil_r.
  - assert (match v with
            | part_000 => negb (existsSync (path f) (disk w))
            | Backend_server_js => false
            end = false) as ->.
    { destruct v; [|done]. specialize (Hall eq_refl).
      apply Forall_cons in Hall as [-> _]. done. }
    destruct (insert_document e cid (originalname f) (path f) now (db w))
      as [[d1 i]|] eqn:Hins; [|done].
    apply insert_document_inv in Hins as (_ & Hc & Hd & _).
    intros Hloop.
    apply IH in Hloop as (Hc' & Hdisk & rows & Hd' & Hn & Hp & Hid).
    + simpl in *. split; [congruence|]. split; [done|].
      eexists (_ :: rows). rewrite Hd', Hd, <- app_assoc. simpl.
      split; [reflexivity|]. split; [by rewrite Hn|]. split; [by rewrite Hp|].
      by constructor.
    + intros Hv. specialize (Hall Hv). by apply Forall_cons in Hall as [_ ?].
Qed.

Lemma has_claim_false (cid : string) (d : database) :
  has_claim cid d = false <-> forall r, r ∈ claims d -> claim_id r <> cid.
Proof.
  unfold has_claim. rewrite <- not_true_iff_false, existsb_exists. split.
  - intros Hno r Hr Heq. apply Hno. exists r.
    split; [by apply list_elem_of_In | by apply String.eqb_eq].
  - intros Hno (r & Hr & Heq). apply String.eqb_eq in Heq.
    apply list_elem_of_In in Hr. by eapply Hno.
Qed.

(** Listing by the id of a claim that has just been appended to a table
    that did not have that id. *)
Lemma select_new_claim (r : claim_row) (d d' : database) :
  has_claim (claim_id r) d = false ->
  claims d' = claims d ++ [r] ->
  select_claims [(col_claim_id, claim_id r)] d' = [r].
Proof.
  intros Hnew Hc. unfold select_claims. rewrite Hc, filter_app.
  rewrite filter_none.
  - rewrite filter_cons_True; [done|]. simpl. by rewrite String.eqb_refl.
  - intros x Hx. simpl. rewrite andb_true_r, String.eqb_eq.
    by apply has_claim_false with (r := x) in Hnew.
Qed.

(** The documents of a new claim are the rows appended for it: under the
    foreign key no older row can reference it. *)
Lemma documents_of_new_claim (cid : string) (d d' : database)
    (rows : list document_row) :
  Forall (fun r => has_claim (doc_claim_id r) d = true) (Pg.documents d) ->
  has_claim cid d = false ->
  Pg.documents d' = Pg.documents d ++ rows ->
  Forall (fun r => doc_claim_id r = cid) rows ->
  documents_of cid d'
  = map (fun r => (doc_id r, file_name r, file_path r)) rows.
Proof.
  intros Hfk Hnew Hd Hrows. unfold documents_of. rewrite Hd, filter_app.
  rewrite filter_none.
  - simpl. f_equal. clear -Hrows.
    induction Hrows as [|r rows Hr _ IH]; [done|].
    by rewrite filter_cons_True, IH.
  - intros x Hx Hxc. rewrite Forall_forall in Hfk.
    specialize (Hfk x Hx). congruence.
Qed.

(** *** The key constraints are invariants *)

Lemma has_claim_ids (cid : string) (d d' : database) :
  map claim_id (claims d') = map claim_id (claims d) ->
  has_claim cid d' = has_claim cid d.
Proof.
  unfold has_claim. generalize (claims d) (claims d'). clear.
  intros l. induction l as [|x l IH]; intros [|y l']; simpl; try done.
  intros [= Hy Hl]. by rewrite Hy, (IH l').
Qed.

Lemma empty_consistent : consistent Pg.empty.
Proof. split; simpl; constructor. Qed.

Lemma insert_claim_consistent (e : engine) (r : claim_row) (d d' : database) :
  consistent d -> insert_claim e r d = Some d' -> consistent d'.
Proof.
  intros [Hpk Hdk Hfk Hseq] (Hnew & Hc & Hd & Hs)%insert_claim_inv.
  split.
  - rewrite Hc, map_app. simpl. apply NoDup_app. split; [done|].
    split; [|apply NoDup_singleton].
    intros i Hi [->|[]%elem_of_nil]%elem_of_cons.
    apply list_elem_of_fmap in Hi as (x & Hx & Hin).
    apply has_claim_false with (r := x) in Hnew; [|done]. congruence.
  - by rewrite Hd.
  - rewrite Hd. eapply Forall_impl; [exact Hfk|]. simpl. intros x Hx.
    unfold has_claim in *. rewrite Hc, existsb_app, Hx. done.
  - by rewrite Hd, Hs.
Qed.

Lemma insert_document_consistent (e : engine) (cid name p : string) (t : Z)
    (d d' : database) (i : Z) :
  consistent d -> insert_document e cid name p t d = Some (d', i) ->
  consistent d'.
Proof.
  intros [Hpk Hdk Hfk Hseq] (Hhas & Hc & Hd & Hs)%insert_document_inv.
  split.
  - by rewrite Hc.
  - rewrite Hd, map_app. simpl. apply NoDup_app. split; [done|].
    split; [|apply NoDup_singleton].
    intros j Hj [->|[]%elem_of_nil]%elem_of_cons.
    apply list_elem_of_fmap in Hj as (x & Hx & Hin).
    rewrite Forall_forall in Hseq. specialize (Hseq x Hin). lia.
  - rewrite Hd. apply Forall_app. split.
    + eapply Forall_impl; [exact Hfk|]. simpl. intros x Hx.
      by rewrite (has_claim_ids _ d d') by by rewrite Hc.
    + constructor; [|constructor]. simpl.
      by rewrite (has_claim_ids _ d d') by by rewrite Hc.
  - rewrite Hd, Hs. apply Forall_app. split.
    + eapply Forall_impl; [exact Hseq|]. simpl. intros. lia.
    + constructor; [|constructor]. simpl. lia.
Qed.

Lemma insert_documents_consistent (v : variant) (e : engine) (cid : string)
    (now : Z) (fs : list part) (w : world) :
  consistent (db w) ->
  consistent (db (fst (insert_documents v e cid now fs w))).
Proof.
  revert w. induction fs as [|f fs IH]; intros w Hw; simpl; [done|].
  destruct (match v with part_000 => _ | Backend_server_js => _ end);
    [by apply IH|].
  destruct (insert_document e cid _ _ now (db w)) as [[d1 i]|] eqn:Hins;
    [|done].
  apply IH. simpl. by eapply insert_document_consistent.
Qed.

(** Every request leaves the key constraints of the tables in force. *)
Lemma post_api_claims_consistent (v : variant) (h : host) (e : engine)
    (now : Z) (random : number) (req : submission) (w : world) :
  consistent (db w) ->
  consistent (db (fst (post_api_claims v h e now random req w))).
Proof.
  intros Hw. unfold post_api_claims.
  destruct (Multer.array _ _ _ _) as [err|[files d]]; [done|].
  unfold submit.
  destruct (validate h now (form req) files); [done|]. cbv zeta.
  cbn [db disk].
  destruct (insert_claim e _ (db w)) as [db1|] eqn:Hins; [|done].
  apply insert_claim_consistent in Hins; [|done].
  pose proof (insert_documents_consistent v e (claimId_of h now random) now
                files {| db := db1; disk := d |} Hins) as Hloop.
  destruct (insert_documents _ _ _ _ _ _) as [w1 []]; done.
Qed.

Lemma patch_api_claims_consistent (now : Z) (claimId : string)
    (s : option string) (w : world) :
  consistent (db w) ->
  consistent (db (fst (patch_api_claims now claimId s w))).
Proof.
  intros [Hpk Hdk Hfk Hseq]. unfold patch_api_claims.
  destruct (negb _); [done|].
  pose proof (update_status_claim_ids (str s) now claimId (db w)) as Hids.
  assert (Hdocs : Pg.documents (fst (update_status (str s) now claimId (db w)))
                  = Pg.documents (db w)) by done.
  assert (Hs : documents_id_seq (fst (update_status (str s) now claimId (db w)))
               = documents_id_seq (db w)) by done.
  destruct (update_status (str s) now claimId (db w)) as [db' rows].
  simpl in Hids, Hdocs, Hs.
  assert (consistent db').
  { split.
    - by rewrite Hids.
    - by rewrite Hdocs.
    - rewrite Hdocs. eapply Forall_impl; [exact Hfk|]. simpl. intros x Hx.
      by rewrite (has_claim_ids _ (db w) db').
    - by rewrite Hdocs, Hs. }
  by destruct rows.
Qed.

(** *** Rounding to binary64 *)

Section Rounding.
Local Open Scope Q_scope.

Lemma pow2_pos (e : Z) : 0 < 2 ^ e.
Proof. by apply Qpower_0_lt. Qed.

Lemma pow2_succ (e : Z) : 2 ^ (e + 1) == 2 * 2 ^ e.
Proof. rewrite Qpower_plus by done. simpl. ring. Qed.

Lemma pow2_le (a b : Z) : (a <= b)%Z -> 2 ^ a <= 2 ^ b.
Proof. intros. apply Qpower_le_compat_l; [done|]. by unfold Qle. Qed.

Lemma pow2_lt_inv (a b : Z) : 2 ^ a < 2 ^ b -> (a < b)%Z.
Proof.
  intros H. destruct (Z.lt_ge_cases a b) as [|Hge]; [done|].
  apply pow2_le in Hge. apply Qle_not_lt in Hge. contradiction.
Qed.


Lemma pow2_inject (a : Z) : (0 <= a)%Z -> inject_Z (2 ^ a) == 2 ^ a.
Proof. intros. by rewrite Zpower_Qpower. Qed.

Lemma log2_bounds (n : Z) :
  (0 < n)%Z ->
  2 ^ Z.log2 n <= inject_Z n /\ inject_Z n < 2 * 2 ^ Z.log2 n.
Proof.
  intros Hn. destruct (Z.log2_spec n Hn) as [H1 H2].
  pose proof (Z.log2_nonneg n) as H0.
  assert (E1 : inject_Z (2 ^ Z.log2 n) <= inject_Z n) by (by rewrite <- Zle_Qle).
  assert (E2 : inject_Z n < inject_Z (2 ^ (Z.log2 n + 1)))
    by (by rewrite <- Zlt_Qlt).
  pose proof (pow2_inject (Z.log2 n) H0) as E3.
  pose proof (pow2_inject (Z.log2 n + 1) ltac:(lia)) as E4.
  pose proof (pow2_succ (Z.log2 n)) as E5.
  split; lra.
Qed.

Lemma binade_spec (q : Q) :
  0 < q -> 2 ^ binade q <= q /\ q < 2 ^ (binade q + 1).
Proof.
  intros Hq. unfold binade.
  destruct q as [n d]. simpl Qnum. simpl Qden.
  assert (Hn : (0 < n)%Z) by (unfold Qlt in Hq; simpl in Hq; lia).
  destruct (log2_bounds n Hn) as [Ha1 Ha2].
  destruct (log2_bounds (Z.pos d) eq_refl) as [Hb1 Hb2].
  set (a := Z.log2 n) in *. set (b := Z.log2 (Z.pos d)) in *.
  pose proof (pow2_pos a) as HA. pose proof (pow2_pos b) as HB.
  assert (Hq' : n # d == inject_Z n / inject_Z (Z.pos d)) by apply Qmake_Qdiv.
  assert (HD : 0 < inject_Z (Z.pos d)) by (by rewrite <- (Zlt_Qlt 0)).
  assert (He : 2 ^ (a - b) * 2 ^ b == 2 ^ a).
  { rewrite <- Qpower_plus by done. by replace (a - b + b)%Z with a by lia. }
  assert (HX : 0 < 2 ^ (a - b)) by apply pow2_pos.
  destruct (Qle_bool (2 ^ (a - b)) (n # d)) eqn:Hle.
  - apply Qle_bool_iff in Hle. split; [done|].
    rewrite pow2_succ, Hq'. apply Qlt_shift_div_r; [done|]. nra.
  - assert (Hlt : n # d < 2 ^ (a - b)).
    { apply Qnot_le_lt. intros H. apply Qle_bool_iff in H. congruence. }
    replace (a - b - 1 + 1)%Z with (a - b)%Z by lia. split; [|done].
    assert (He' : 2 ^ (a - b - 1) * 2 == 2 ^ (a - b)).
    { replace (a - b)%Z with (a - b - 1 + 1)%Z at 2 by lia.
      rewrite pow2_succ. ring. }
    pose proof (pow2_pos (a - b - 1)) as HY.
    rewrite Hq'. apply Qle_shift_div_l; [done|]. nra.
Qed.

Lemma rhe_cases (x : Q) :
  round_half_even x = Qfloor x
  \/ (round_half_even x = (Qfloor x + 1)%Z /\ 1 # 2 <= x - inject_Z (Qfloor x)).
Proof.
  unfold round_half_even.
  destruct (x - inject_Z (Qfloor x) ?= 1 # 2) eqn:Hc; [|by left|].
  - apply Qeq_alt in Hc. destruct (Z.even (Qfloor x)); [by left|].
    right. split; [done|]. rewrite Hc. apply Qle_refl.
  - apply Qgt_alt in Hc. right. split; [done|]. by apply Qlt_le_weak.
Qed.

Lemma rhe_le (x : Q) (k : Z) : x <= inject_Z k -> (round_half_even x <= k)%Z.
Proof.
  intros Hx. pose proof (Qfloor_resp_le _ _ Hx) as Hf. rewrite Qfloor_Z in Hf.
  destruct (rhe_cases x) as [-> | [-> Hhalf]]; [done|].
  assert (inject_Z (Qfloor x) < inject_Z k) as Hlt by lra.
  rewrite <- Zlt_Qlt in Hlt. lia.
Qed.

Lemma rhe_ge (x : Q) (k : Z) : inject_Z k <= x -> (k <= round_half_even x)%Z.
Proof.
  intros Hx. pose proof (Qfloor_resp_le _ _ Hx) as Hf. rewrite Qfloor_Z in Hf.
  destruct (rhe_cases x) as [-> | [-> _]]; lia.
Qed.

Lemma rhe_mono (x y : Q) : x <= y -> (round_half_even x <= round_half_even y)%Z.
Proof.
  intros Hxy. pose proof (Qfloor_resp_le _ _ Hxy) as Hf.
  destruct (Z.eq_dec (Qfloor x) (Qfloor y)) as [Heq|Hne].
  - unfold round_half_even. rewrite <- Heq.
    destruct (x - inject_Z (Qfloor x) ?= 1 # 2) eqn:Hx;
      destruct (y - inject_Z (Qfloor x) ?= 1 # 2) eqn:Hy;
      try (destruct (Z.even (Qfloor x))); try lia;
      repeat match goal with
             | H : (_ ?= _) = Eq |- _ => apply Qeq_alt in H
             | H : (_ ?= _) = Lt |- _ => apply Qlt_alt in H
             | H : (_ ?= _) = Gt |- _ => apply Qgt_alt in H
             end; lra.
  - destruct (rhe_cases x) as [-> | [-> _]];
      destruct (rhe_cases y) as [-> | [-> _]]; lia.
Qed.

Lemma binade_mono (x y : Q) : 0 < x -> x <= y -> (binade x <= binade y)%Z.
Proof.
  intros Hx Hxy.
  destruct (binade_spec x Hx) as [Hx1 _].
  destruct (binade_spec y) as [_ Hy2]; [lra|].
  assert (2 ^ binade x < 2 ^ (binade y + 1)) as H by lra.
  apply pow2_lt_inv in H. lia.
Qed.

Lemma fl_pos_val (q : Q) :
  fl_pos q = if Qle_bool (2 ^ 1024) (fl_val q) then Infinity false
             else Finite (Qred (fl_val q)).
Proof. reflexivity. Qed.

Lemma scaled_le (x : Q) (e k : Z) :
  x <= inject_Z k * 2 ^ e -> x / 2 ^ e <= inject_Z k.
Proof.
  intros H. pose proof (pow2_pos e). apply Qle_shift_div_r; [done|lra].
Qed.

Lemma scaled_ge (x : Q) (e k : Z) :
  inject_Z k * 2 ^ e <= x -> inject_Z k <= x / 2 ^ e.
Proof.
  intros H. pose proof (pow2_pos e). apply Qle_shift_div_l; [done|lra].
Qed.

(** A multiple of the spacing above [x] bounds the rounding of [x]. *)
Lemma fl_val_le (x : Q) (k : Z) :
  x <= inject_Z k * 2 ^ quantum x -> fl_val x <= inject_Z k * 2 ^ quantum x.
Proof.
  intros H. unfold fl_val. pose proof (pow2_pos (quantum x)).
  apply scaled_le, rhe_le in H. rewrite Zle_Qle in H. nra.
Qed.

Lemma fl_val_ge (x : Q) (k : Z) :
  inject_Z k * 2 ^ quantum x <= x -> inject_Z k * 2 ^ quantum x <= fl_val x.
Proof.
  intros H. unfold fl_val. pose proof (pow2_pos (quantum x)).
  apply scaled_ge, rhe_ge in H. rewrite Zle_Qle in H. nra.
Qed.

Lemma pow2_split (a b : Z) : (0 <= a)%Z -> inject_Z (2 ^ a) * 2 ^ b == 2 ^ (a + b).
Proof. intros. rewrite pow2_inject by done. by rewrite Qpower_plus. Qed.

Lemma fl_val_mono (x y : Q) : 0 < x -> x <= y -> fl_val x <= fl_val y.
Proof.
  intros Hx Hxy. assert (Hy : 0 < y) by lra.
  pose proof (binade_mono x y Hx Hxy) as Hb.
  destruct (binade_spec x Hx) as [_ Hx2].
  destruct (binade_spec y Hy) as [Hy1 _].
  destruct (Z.eq_dec (quantum x) (quantum y)) as [Heq|Hne].
  - unfold fl_val. rewrite <- Heq. pose proof (pow2_pos (quantum x)) as Hp.
    assert (x / 2 ^ quantum x <= y / 2 ^ quantum x) as Hs.
    { apply Qle_shift_div_l; [done|].
      unfold Qdiv. rewrite <- Qmult_assoc, (Qmult_comm (/ _)), Qmult_inv_r; lra. }
    apply rhe_mono in Hs. rewrite Zle_Qle in Hs. nra.
  - unfold quantum in Hne.
    assert (Hlt : (Z.max (binade x) (-1022) < binade y)%Z) by lia.
    assert (Hqy : quantum y = (binade y - 52)%Z) by (unfold quantum; lia).
    apply Qle_trans with (2 ^ (Z.max (binade x) (-1022) + 1)).
    + assert (E : inject_Z (2 ^ 53) * 2 ^ quantum x
                  == 2 ^ (Z.max (binade x) (-1022) + 1)).
      { rewrite pow2_split by lia.
        by replace (53 + quantum x)%Z with (Z.max (binade x) (-1022) + 1)%Z
          by (unfold quantum; lia). }
      assert (2 ^ (binade x + 1) <= 2 ^ (Z.max (binade x) (-1022) + 1))
        by (apply pow2_le; lia).
      apply Qle_trans with (inject_Z (2 ^ 53) * 2 ^ quantum x); [|lra].
      apply fl_val_le. lra.
    + apply Qle_trans with (2 ^ binade y); [apply pow2_le; lia|].
      assert (E : inject_Z (2 ^ 52) * 2 ^ quantum y == 2 ^ binade y).
      { rewrite pow2_split by lia. by replace (52 + quantum y)%Z with (binade y) by lia. }
      apply Qle_trans with (inject_Z (2 ^ 52) * 2 ^ quantum y); [lra|].
      apply fl_val_ge. lra.
Qed.

Lemma fl_val_pos (x : Q) : 0 < x -> 0 <= fl_val x.
Proof.
  intros Hx. pose proof (pow2_pos (quantum x)) as Hp.
  assert (E : inject_Z 0 * 2 ^ quantum x <= fl_val x).
  { apply fl_val_ge. change (inject_Z 0) with 0. lra. }
  change (inject_Z 0) with 0 in E. lra.
Qed.

Lemma fl_pos_mono (x y : Q) :
  0 < x -> x <= y -> num_le (fl_pos x) (fl_pos y) = true.
Proof.
  intros Hx Hxy. pose proof (fl_val_mono x y Hx Hxy) as Hv.
  rewrite !fl_pos_val.
  destruct (Qle_bool (2 ^ 1024) (fl_val y)) eqn:Hy.
  - by destruct (Qle_bool (2 ^ 1024) (fl_val x)).
  - destruct (Qle_bool (2 ^ 1024) (fl_val x)) eqn:Hx'.
    + apply Qle_bool_iff in Hx'.
      assert (2 ^ 1024 <= fl_val y) as H by lra.
      apply Qle_bool_iff in H. congruence.
    + simpl. apply Qle_bool_iff. by rewrite !Qred_correct.
Qed.

(** Rounding is monotone on the non-negative rationals. *)
Lemma fl_mono (x y : Q) : 0 <= x -> x <= y -> num_le (fl x) (fl y) = true.
Proof.
  intros Hx Hxy. unfold fl.
  destruct (x ?= 0) eqn:Cx.
  - destruct (y ?= 0) eqn:Cy; [done| |].
    + apply Qlt_alt in Cy. apply Qeq_alt in Cx. lra.
    + apply Qgt_alt in Cy. rewrite fl_pos_val.
      destruct (Qle_bool _ _); [done|]. simpl. apply Qle_bool_iff.
      rewrite Qred_correct. by apply fl_val_pos.
  - apply Qlt_alt in Cx. lra.
  - apply Qgt_alt in Cx.
    destruct (y ?= 0) eqn:Cy.
    + apply Qeq_alt in Cy. lra.
    + apply Qlt_alt in Cy. lra.
    + by apply fl_pos_mono.
Qed.

(** A rounding between two finite ones is finite and lies between them. *)
Lemma fl_between (x lo hi : Q) (a b : Q) :
  0 <= lo -> lo <= x -> x <= hi ->
  fl lo = Finite a -> fl hi = Finite b ->
  exists y, fl x = Finite y /\ a <= y /\ y <= b.
Proof.
  intros H0 H1 H2 Ha Hb.
  pose proof (fl_mono lo x H0 H1) as Hlo.
  pose proof (fl_mono x hi ltac:(lra) H2) as Hhi.
  rewrite Ha in Hlo. rewrite Hb in Hhi.
  destruct (fl x) as [|[]|y]; try done.
  simpl in *. apply Qle_bool_iff in Hlo, Hhi. eauto.
Qed.

(** [Math.floor(1000 + Math.random() * 9000)] has four digits. *)
Lemma suffix_range (q : Q) :
  0 <= q -> q <= below_one ->
  exists k,
    Math_floor (num_add (Finite 1000) (num_mul (Finite q) (Finite 9000)))
    = Finite (inject_Z k)
    /\ (1000 <= k <= 9999)%Z.
Proof.
  intros H0 H1. simpl.
  destruct (fl_between (q * 9000) 0 (below_one * 9000) 0
              (Qred (9000 - (1 # 2) ^ 39)))
    as (y & -> & Hy0 & Hy1); [lra|lra|lra|reflexivity|by vm_compute|].
  rewrite Qred_correct in Hy1. simpl.
  change ((1 # 2) ^ 39) with (1 # 549755813888) in Hy1.
  destruct (fl_between (1000 + y) 1000 (10000 - (1 # 549755813888)) 1000
              (Qred (10000 - (1 # 549755813888))))
    as (z & -> & Hz0 & Hz1); [lra|lra|lra|by vm_compute|by vm_compute|].
  rewrite Qred_correct in Hz1. simpl.
  eexists. split; [reflexivity|].
  assert (inject_Z 1000 <= z) as Hlo by (change (inject_Z 1000) with 1000; lra).
  apply Qfloor_resp_le in Hlo. rewrite Qfloor_Z in Hlo.
  split; [done|].
  pose proof (Qfloor_le z) as Hf.
  assert (inject_Z (Qfloor z) < inject_Z 10000) as Hlt.
  { change (inject_Z 10000) with 10000. lra. }
  rewrite <- Zlt_Qlt in Hlt. lia.
Qed.

End Rounding.

(** *** The claim id *)

Lemma four_digits_b_spec (s : string) :
  four_digits_b s = true -> four_digits s.
Proof.
  destruct s as [|a [|b [|c [|d [|]]]]]; try done.
  intros H. by exists a, b, c, d.
Qed.

Lemma Z_toString_four_digits (n : Z) :
  (1000 <= n <= 9999)%Z -> four_digits (Z_toString n).
Proof.
  intros Hn. apply four_digits_b_spec.
  assert (Hall : forallb (fun n => four_digits_b (Z_toString n))
                   (seqZ 1000 9000) = true) by (vm_compute; reflexivity).
  rewrite forallb_forall in Hall. apply Hall.
  apply list_elem_of_In, elem_of_seqZ. lia.
Qed.

Lemma claimId_of_format (h : host) (now : Z) (q : Q) :
  (0 <= q)%Q -> (q <= below_one)%Q ->
  (1000 <= YearFromTime (LocalTime h now) <= 9999)%Z ->
  claim_id_format (claimId_of h now (Finite q)).
Proof.
  intros H0 H1 Hy. unfold claimId_of.
  destruct (suffix_range q H0 H1) as (k & -> & Hk).
  unfold Number_toString, getFullYear. rewrite Qfloor_Z. cbn [mbind option_bind from_option].
  exists (Z_toString (YearFromTime (LocalTime h now))), (Z_toString k).
  split; [done|]. split; by apply Z_toString_four_digits.
Qed.

(** On either copy of the server: for every submission that is answered
    201, made while the year has four digits and with [Math.random()] in
    [0, 1), on tables that respect the key constraints: the claim id of the
    reply has the form CLM-<4-digit-year>-<4 digits>; the values the handler
    sends for that id are appended to [claims], with status pending and the
    clock reading of the request for both timestamps; the rows of
    [documents] that reference it are as many as the attachments of the
    submission, under their original names and in their order; and the
    listing filtered by that id returns that one claim, pending.  On
    [part_000] the listing shows those documents with the claim, on
    [Backend/server.js] it shows none. *)
Theorem submission_then_listing (v : variant) (h : host) (e : engine)
    (now : Z) (q : Q) (req : submission) (w w' : world) (r : response) :
  consistent (db w) ->
  (0 <= q)%Q -> (q <= below_one)%Q ->
  (1000 <= YearFromTime (LocalTime h now) <= 9999)%Z ->
  post_api_claims v h e now (Finite q) req w = (w', r) ->
  status r = 201 ->
  exists cid row docs,
    r = reply 201
          (json_submitted "Claim submitted successfully" cid
             match v with
             | part_000 =>
                 Some (map (fun f => (originalname f, path f)) (parts req))
             | Backend_server_js => None
             end)
    /\ claim_id_format cid
    /\ row = claim_values cid now (form req)
    /\ claim_id row = cid /\ Pg.status row = "pending"
    /\ created_at row = now /\ updated_at row = now
    /\ claims (db w') = claims (db w) ++ [row]
    /\ documents_of cid (db w') = docs
    /\ map (fun d => snd (fst d)) docs = map originalname (parts req)
    /\ length docs = length (parts req)
    /\ get_api_claims v (only_claim_id cid) w'
       = reply 200
           (json_claims
              [{| claim := row;
                  Server.documents := match v with
                                      | part_000 => Some docs
                                      | Backend_server_js => None
                                      end |}]).
Proof.
  intros Hcons H0 H1 Hyear Hpost Hst.
  unfold post_api_claims, Multer.array in Hpost.
  destruct (receive "documents" 5 (parts req) (disk w)) as [err|d] eqn:Hrecv.
  { injection Hpost as <- <-. by destruct err, v. }
  apply receive_stores in Hrecv as (Hstored & _ & _).
  unfold submit in Hpost.
  destruct (validate h now (form req) (parts req)) as [r0|] eqn:Hv.
  { injection Hpost as <- <-.
    destruct (validate_reply _ _ _ _ _ Hv) as [msg ->]. done. }
  cbv zeta in Hpost. cbn [db disk] in Hpost.
  set (cid := claimId_of h now (Finite q)) in *.
  destruct (insert_claim e (claim_values cid now (form req)) (db w))
    as [db1|] eqn:Hins; [|by injection Hpost as <- <-].
  apply insert_claim_inv in Hins as (Hnew & Hc1 & Hd1 & _). simpl in Hnew.
  destruct (insert_documents v e cid now (parts req)
              {| db := db1; disk := d |}) as [w1 ok] eqn:Hloop.
  destruct ok; [|by injection Hpost as <- <-].
  injection Hpost as <- <-.
  apply insert_documents_all in Hloop as (Hc & _ & rows & Hd & Hn & _ & Hid);
    [|done].
  simpl in Hc, Hd.
  assert (Hdocs : documents_of cid (db w1)
                  = map (fun r => (doc_id r, file_name r, file_path r)) rows).
  { apply (documents_of_new_claim cid (db w) _ rows);
      [apply Hcons|done|congruence|done]. }
  exists cid, (claim_values cid now (form req)),
    (map (fun r => (doc_id r, file_name r, file_path r)) rows).
  split; [done|]. split; [by apply claimId_of_format|].
  do 5 (split; [done|]).
  split; [congruence|]. split; [done|]. split; [|split].
  - rewrite map_map. simpl. exact Hn.
  - rewrite length_map. rewrite <- (length_map file_name), Hn.
    by rewrite length_map.
  - unfold get_api_claims, only_claim_id. simpl.
    unfold push_filter. simpl.
    replace (falsy (Some cid)) with false by done. simpl.
    rewrite (select_new_claim (claim_values cid now (form req)) (db w));
      [|done|congruence].
    simpl. by rewrite select_documents_of, Hdocs.
Qed.

Lemma submission_then_listing_witness :
  exists cid row docs,
    snd (post_api_claims part_000 utc schema noon_2024_05_15 half
           two_receipts w0)
    = reply 201
        (json_submitted "Claim submitted successfully" cid
           (Some (map (fun f => (originalname f, path f))
                    (parts two_receipts))))
    /\ claim_id_format cid
    /\ row = claim_values cid noon_2024_05_15 (form two_receipts)
    /\ claim_id row = cid /\ Pg.status row = "pending"
    /\ created_at row = noon_2024_05_15 /\ updated_at row = noon_2024_05_15
    /\ claims (db (after_two_receipts part_000)) = claims (db w0) ++ [row]
    /\ documents_of cid (db (after_two_receipts part_000)) = docs
    /\ map (fun d => snd (fst d)) docs = map originalname (parts two_receipts)
    /\ length docs = length (parts two_receipts)
    /\ get_api_claims part_000 (only_claim_id cid) (after_two_receipts part_000)
       = reply 200
           (json_claims [{| claim := row; Server.documents := Some docs |}]).
Proof.
  apply (submission_then_listing part_000 utc schema noon_2024_05_15 (1 # 2)
           two_receipts w0).
  - apply empty_consistent.
  - done.
  - by vm_compute.
  - by vm_compute.
  - apply surjective_pairing.
  - by vm_compute.
Defined.

(** X20.  On either copy of the server: for every submission that is answered
    201, made while the year has four digits and with [Math.random()] in
    [0, 1), on tables that respect the key constraints: the claim id of the
    reply has the form CLM-<4-digit-year>-<4 digits>; one row of that id is
    appended to [claims], with status pending and with the name, e-mail
    address, employee id, department, description and type of the form in
    its text columns; the rows of [documents] that reference it are as many
    as the attachments of the submission, under their original names and in
    their order; and the listing filtered by that id returns that one
    claim.  On [part_000] the listing shows those documents with the claim,
    on [Backend/server.js] it shows none.  Nothing is said of the amount,
    the claim date and the two timestamps of the row, which the database
    keeps in types of its own. *)
Theorem submission_is_listed (v : variant) (h : host) (e : engine)
    (now : Z) (q : Q) (req : submission) (w w' : world) (r : response) :
  consistent (db w) ->
  (0 <= q)%Q -> (q <= below_one)%Q ->
  (1000 <= YearFromTime (LocalTime h now) <= 9999)%Z ->
  post_api_claims v h e now (Finite q) req w = (w', r) ->
  status r = 201 ->
  exists cid row docs,
    r = reply 201
          (json_submitted "Claim submitted successfully" cid
             match v with
             | part_000 =>
                 Some (map (fun f => (originalname f, path f)) (parts req))
             | Backend_server_js => None
             end)
    /\ claim_id_format cid
    /\ claim_id row = cid /\ Pg.status row = "pending"
    /\ text_columns row = text_fields (form req)
    /\ claims (db w') = claims (db w) ++ [row]
    /\ documents_of cid (db w') = docs
    /\ map (fun d => snd (fst d)) docs = map originalname (parts req)
    /\ length docs = length (parts req)
    /\ get_api_claims v (only_claim_id cid) w'
       = reply 200
           (json_claims
              [{| claim := row;
                  Server.documents := match v with
                                      | part_000 => Some docs
                                      | Backend_server_js => None
                                      end |}]).
Proof.
  intros Hcons H0 H1 Hyear Hpost Hst.
  destruct (submission_then_listing v h e now q req w w' r Hcons H0 H1 Hyear
              Hpost Hst)
    as (cid & row & docs & Hr & Hfmt & Hrow & Hid & Hstatus & _ & _ & Hclaims
        & Hdocs & Hnames & Hlen & Hlist).
  exists cid, row, docs.
  split; [done|]. split; [done|]. split; [done|]. split; [done|].
  split; [by rewrite Hrow|]. auto.
Qed.

Lemma submission_is_listed_witness :
  exists cid row docs,
    snd (post_api_claims part_000 utc schema noon_2024_05_15 half
           two_receipts w0)
    = reply 201
        (json_submitted "Claim submitted successfully" cid
           (Some (map (fun f => (originalname f, path f))
                    (parts two_receipts))))
    /\ claim_id_format cid
    /\ claim_id row = cid /\ Pg.status row = "pending"
    /\ text_columns row = text_fields (form two_receipts)
    /\ claims (db (after_two_receipts part_000)) = claims (db w0) ++ [row]
    /\ documents_of cid (db (after_two_receipts part_000)) = docs
    /\ map (fun d => snd (fst d)) docs = map originalname (parts two_receipts)
    /\ length docs = length (parts two_receipts)
    /\ get_api_claims part_000 (only_claim_id cid) (after_two_receipts part_000)
       = reply 200
           (json_claims [{| claim := row; Server.documents := Some docs |}]).
Proof.
  apply (submission_is_listed part_000 utc schema noon_2024_05_15 (1 # 2)
           two_receipts w0).
  - apply empty_consistent.
  - done.
  - by vm_compute.
  - by vm_compute.
  - apply surjective_pairing.
  - by vm_compute.
Defined.

(** C2 on [Backend/server.js]: the end-to-end submission with two receipts
    is answered 201 with the claim id CLM-2024-5500 and both documents are
    recorded, but the listing filtered by that id returns the pending claim
    without any documents. *)
Theorem C2_backend_listing_after_submission :
  snd (post_api_claims Backend_server_js utc schema noon_2024_05_15 half
         two_receipts w0)
  = reply 201
      (json_submitted "Claim submitted successfully" "CLM-2024-5500" None)
  /\ map file_name (Pg.documents (db (after_two_receipts Backend_server_js)))
     = map originalname (parts two_receipts)
  /\ exists row,
      get_api_claims Backend_server_js (only_claim_id "CLM-2024-5500")
        (after_two_receipts Backend_server_js)
      = reply 200 (json_claims [{| claim := row; Server.documents := None |}])
      /\ Pg.status row = "pending"
      /\ created_at row = noon_2024_05_15
      /\ updated_at row = noon_2024_05_15.
Proof.
  split; [by vm_compute|]. split; [by vm_compute|].
  exists (claim_values "CLM-2024-5500" noon_2024_05_15 (form_ok "2024-05-15")).
  repeat split; by vm_compute.
Qed.

(** *** The theorems at concrete requests *)

Lemma C1_validation_before_persistence_witness :
  fails_validation utc noon_2024_05_15 (form zero_amount) (parts zero_amount)
  /\ (exists msg code,
        snd (post_api_claims part_000 utc schema noon_2024_05_15 half
               zero_amount w0)
        = reply code (json_error msg)
        /\ (code = 400 \/ code = 500)
        /\ (part_000 = part_000 -> code = 400))
  /\ db (fst (post_api_claims part_000 utc schema noon_2024_05_15 half
                zero_amount w0)) = db w0.
Proof.
  assert (H : fails_validation utc noon_2024_05_15 (form zero_amount)
                (parts zero_amount)).
  { right. right. right. left. intros (q & Hq & Hpos & _).
    vm_compute in Hq. injection Hq as <-. vm_compute in Hpos. discriminate. }
  split; [exact H|].
  exact (proj2 (C1_validation_before_persistence part_000 utc schema
                  noon_2024_05_15 half zero_amount w0 H)).
Defined.

Lemma C10_more_than_five_attachments_witness :
  (5 < length (parts six_receipts))%nat
  /\ exists msg code,
      post_api_claims part_000 utc schema noon_2024_05_15 half six_receipts w0
      = (w0, reply code (json_error msg))
      /\ (code = 400 \/ code = 500)
      /\ (part_000 = part_000 -> code = 400).
Proof.
  assert (H : (5 < length (parts six_receipts))%nat) by (simpl; lia).
  split; [exact H|].
  exact (C10_more_than_five_attachments part_000 utc schema noon_2024_05_15
           half six_receipts w0 H).
Defined.

Lemma C6_fetch_document_witness :
  NoDup (map doc_id (Pg.documents (db (after_two_receipts part_000))))
  /\ get_api_documents (Some 1) (after_two_receipts part_000)
     = reply 200 (file_content "%PDF-1.7").
Proof.
  assert (H : NoDup (map doc_id
                       (Pg.documents (db (after_two_receipts part_000))))).
  { apply (bool_decide_unpack _). by vm_compute. }
  split; [exact H|].
  refine (proj2 (proj2 (proj1 (C6_fetch_document (Some 1)
                                 (after_two_receipts part_000) H)
                          1 eq_refl eq_refl)
                   {| doc_id := 1; doc_claim_id := "CLM-2024-5500";
                      file_name := "receipt-1.pdf";
                      file_path := "/srv/Uploads/documents-1.pdf";
                      uploaded_at := noon_2024_05_15 |} _ eq_refl)
            "%PDF-1.7" _).
  - vm_compute. left.
  - by vm_compute.
Defined.

Lemma C3_update_status_witness :
  exists w1 c1 w2 c2,
    patch_api_claims (noon_2024_05_15 + 1000) "CLM-2024-5500"
      (Some "approved") (after_two_receipts part_000)
    = (w1, reply 200 (json_claim c1))
    /\ patch_api_claims (noon_2024_05_15 + 2000) "CLM-2024-5500"
         (Some "rejected") w1
       = (w2, reply 200 (json_claim c2))
    /\ Pg.status c1 = "approved" /\ Pg.status c2 = "rejected"
    /\ c2 ∈ claims (db w2)
    /\ (forall r, r ∈ claims (db w2) -> claim_id r = "CLM-2024-5500" -> r = c2)
    /\ updated_at c1 = noon_2024_05_15 + 1000
    /\ updated_at c2 = noon_2024_05_15 + 2000
    /\ updated_at c1 <= updated_at c2.
Proof.
  refine (proj2 (proj2 (proj2
            (C3_update_status (noon_2024_05_15 + 1000) "CLM-2024-5500"
               (Some "approved") (after_two_receipts part_000))))
            "approved" "rejected" (noon_2024_05_15 + 2000)
            (claim_values "CLM-2024-5500" noon_2024_05_15
               (form_ok "2024-05-15"))
            eq_refl _ _ _ _ _ _ eq_refl).
  - by left.
  - by right.
  - done.
  - lia.
  - apply (bool_decide_unpack _). by vm_compute.
  - vm_compute. left.
Defined.

(* ===================================================================== *)
(** ** Further properties *)
(* ===================================================================== *)

Import Runtime Storage Routes HR Terms Cases.

(** *** Stored file names *)

Lemma chars_app (a b : string) :
  list_ascii_of_string (a ++ b)%string
  = list_ascii_of_string a ++ list_ascii_of_string b.
Proof. induction a as [|c a IH]; simpl; [done|]. by rewrite IH. Qed.

Lemma one_segment_app (a b : string) :
  one_segment (a ++ b)%string <-> one_segment a /\ one_segment b.
Proof. unfold one_segment. rewrite chars_app. apply Forall_app. Qed.

Lemma take_name_app (l r : list ascii) :
  Forall (fun c => is_sep c = false) l -> take_name (l ++ "/"%char :: r) = l.
Proof.
  induction 1 as [|c l Hc _ IH]; simpl; [done|]. by rewrite Hc, IH.
Qed.

Lemma drop_seps_name (l r : list ascii) :
  l <> [] -> Forall (fun c => is_sep c = false) l -> drop_seps (l ++ r) = l ++ r.
Proof. intros Hne Hl. destruct Hl as [|c l Hc _]; [done|]. simpl. by rewrite Hc. Qed.

(** [path.basename] gives back the name that [path.join] put after the
    directory. *)
Lemma basename_stored_at (dir name : string) :
  name <> "" -> one_segment name -> basename (stored_at dir name) = name.
Proof.
  intros Hne Hseg. unfold basename, stored_at.
  rewrite !chars_app. simpl. rewrite rev_app_distr. simpl.
  rewrite <- app_assoc. simpl.
  assert (Hrev : Forall (fun c => is_sep c = false)
                   (rev (list_ascii_of_string name))).
  { apply Forall_forall. intros c Hc. apply list_elem_of_In, in_rev in Hc.
    unfold one_segment in Hseg. rewrite Forall_forall in Hseg.
    apply Hseg. by apply list_elem_of_In. }
  rewrite drop_seps_name; [| |done].
  2:{ destruct name as [|c name]; [done|]. simpl. intros H.
      by apply app_eq_nil in H as [_ ?]. }
  rewrite take_name_app by done.
  by rewrite rev_involutive, string_of_list_ascii_of_string.
Qed.

Lemma extname_scan_segment (l : list ascii) (st : scan) :
  Forall (fun c => is_sep c = false) (seen st) ->
  (forall e, ext st = Some e -> Forall (fun c => is_sep c = false) e) ->
  forall e, ext (extname_scan l st) = Some e ->
            Forall (fun c => is_sep c = false) e.
Proof.
  revert st. induction l as [|c l IH]; intros st Hseen Hext; simpl; [done|].
  destruct (is_sep c) eqn:Hc; [done|].
  destruct (Ascii.eqb c "."); [destruct (ext st) eqn:He|];
    apply IH; simpl; try (by constructor); try done.
  intros e [= <-]. by constructor.
Qed.

(** The extension [path.extname] returns never holds a separator. *)
Lemma extname_one_segment (p : string) : one_segment (extname p).
Proof.
  unfold extname, one_segment.
  set (st := extname_scan _ _).
  destruct (ext st) as [e|] eqn:He; [|constructor].
  destruct (_ || _); [constructor|].
  rewrite list_ascii_of_string_of_list_ascii.
  eapply extname_scan_segment; [| |exact He]; simpl; [constructor|done].
Qed.

Lemma digit_char_is_digit (d : Z) : 0 <= d <= 9 -> is_digit (digit_char d) = true.
Proof.
  intros H.
  assert (d = 0 \/ d = 1 \/ d = 2 \/ d = 3 \/ d = 4 \/ d = 5 \/ d = 6 \/ d = 7
          \/ d = 8 \/ d = 9) as Hd by lia.
  repeat (destruct Hd as [->|Hd]; [reflexivity|]). by subst.
Qed.

Lemma digits_of_digits (fuel : nat) (n : Z) (acc : string) :
  0 <= n -> all_digits acc -> all_digits (digits_of fuel n acc).
Proof.
  revert n acc. induction fuel as [|fuel IH]; intros n acc Hn Hacc; simpl; [done|].
  assert (all_digits (String (digit_char (n mod 10)) acc)) as Hacc'.
  { constructor; [|done]. apply digit_char_is_digit.
    pose proof (Z.mod_pos_bound n 10). lia. }
  destruct (n / 10 =? 0)%Z; [done|].
  apply IH; [|done]. apply Z.div_pos; lia.
Qed.

Lemma digits_of_nonempty (fuel : nat) (n : Z) (acc : string) :
  acc <> "" -> digits_of fuel n acc <> "".
Proof.
  revert n acc. induction fuel as [|fuel IH]; intros n acc Hacc; simpl; [done|].
  destruct (n / 10 =? 0)%Z; [done|]. by apply IH.
Qed.

Lemma Z_toString_digits (n : Z) :
  0 <= n -> all_digits (Z_toString n) /\ Z_toString n <> "".
Proof.
  intros Hn. unfold Z_toString.
  destruct (Z.ltb_spec n 0) as [|_]; [lia|]. split.
  - apply digits_of_digits; [done|constructor].
  - simpl. destruct (n / 10 =? 0)%Z; [done|]. by apply digits_of_nonempty.
Qed.

Lemma all_digits_one_segment (s : string) : all_digits s -> one_segment s.
Proof.
  unfold all_digits, one_segment. intros H.
  eapply Forall_impl; [exact H|]. intros c Hc.
  unfold is_sep. destruct (Ascii.eqb_spec c "/") as [->|]; [done|done].
Qed.

Section RoundedRandom.
Local Open Scope Q_scope.

(** [Math.round(Math.random() * 1E9)] is a whole number from 0 to 10^9. *)
Lemma rounded_random_range (q : Q) :
  0 <= q -> q <= below_one ->
  exists k,
    Math_round (num_mul (Finite q) (Finite 1000000000)) = Finite (inject_Z k)
    /\ (0 <= k <= 1000000000)%Z.
Proof.
  intros H0 H1. simpl.
  assert (Hb : below_one < 1) by (by vm_compute).
  destruct (fl_between (q * 1000000000) 0 1000000000 0 1000000000)
    as (y & -> & Hy0 & Hy1); [lra|lra|nra|reflexivity|by vm_compute|].
  simpl. eexists. split; [reflexivity|].
  split.
  - assert (inject_Z 0 <= y + (1 # 2)) as H by (change (inject_Z 0) with 0; lra).
    apply Qfloor_resp_le in H. by rewrite Qfloor_Z in H.
  - assert (y + (1 # 2) <= inject_Z 1000000000 + (1 # 2)) as H.
    { change (inject_Z 1000000000) with 1000000000. lra. }
    apply Qfloor_resp_le in H.
    assert (Qfloor (inject_Z 1000000000 + (1 # 2)) = 1000000000%Z) as E
      by (by vm_compute).
    by rewrite E in H.
Qed.

End RoundedRandom.

(** *** The extension of a stored name *)

Lemma scan_plain (l r : list ascii) (st : scan) :
  Forall plain l -> ext st = None ->
  extname_scan (l ++ r) st
  = extname_scan r {| seen := rev l ++ seen st; ext := None;
                      preDotState := preDotState st |}.
Proof.
  revert st. induction l as [|c l IH]; intros st Hl He; simpl.
  - destruct st; simpl in *. by subst.
  - apply Forall_cons in Hl as [[Hc Hd] Hl]. rewrite Hc.
    apply Ascii.eqb_neq in Hd. rewrite Hd, He.
    rewrite IH by done. simpl. by rewrite <- app_assoc.
Qed.

Lemma scan_after_dot (l : list ascii) (st : scan) (x : list ascii) :
  Forall (fun c => is_sep c = false) l -> ext st = Some x ->
  ext (extname_scan l st) = Some x
  /\ seen (extname_scan l st) = rev l ++ seen st
  /\ (l <> [] \/ preDotState st <> 0 -> preDotState (extname_scan l st) <> 0).
Proof.
  revert st. induction l as [|c l IH]; intros st Hl He; simpl.
  - split; [done|]. split; [done|]. intros [?|?]; done.
  - apply Forall_cons in Hl as [Hc Hl]. rewrite Hc, He.
    destruct (Ascii.eqb c ".").
    + destruct (IH {| seen := c :: seen st; ext := Some x; preDotState := 1 |}
                  Hl eq_refl) as (H1 & H2 & H3).
      split; [done|]. split; [by rewrite H2, <- app_assoc|].
      intros _. apply H3. by right.
    + destruct (IH {| seen := c :: seen st; ext := Some x; preDotState := -1 |}
                  Hl eq_refl) as (H1 & H2 & H3).
      split; [done|]. split; [by rewrite H2, <- app_assoc|].
      intros _. apply H3. by right.
Qed.

Lemma Forall_rev_iff {A} (P : A -> Prop) (l : list A) :
  Forall P (rev l) <-> Forall P l.
Proof.
  rewrite !Forall_forall. split; intros H x Hx; apply H;
    apply list_elem_of_In; apply list_elem_of_In in Hx;
    [by apply in_rev in Hx | by apply in_rev].
Qed.

(** A name with a dot after at least two characters: its extension runs
    from the last dot to the end. *)
Lemma extname_dotted (stem e : string) :
  one_segment stem -> (2 <= String.length stem)%nat ->
  one_segment e -> no_dot e ->
  extname (stem ++ "." ++ e)%string = ("." ++ e)%string.
Proof.
  intros Hstem Hlen He Hnd. unfold extname.
  rewrite !chars_app. simpl. rewrite rev_app_distr. simpl.
  rewrite <- app_assoc. simpl.
  assert (Hplain : Forall plain (rev (list_ascii_of_string e))).
  { apply Forall_rev_iff. unfold one_segment, no_dot in *.
    rewrite Forall_forall in *. intros c Hc. split; auto. }
  assert (Hdrop : drop_seps (rev (list_ascii_of_string e)
                             ++ "."%char :: rev (list_ascii_of_string stem))
                  = rev (list_ascii_of_string e)
                    ++ "."%char :: rev (list_ascii_of_string stem)).
  { destruct Hplain as [|c l [Hc _] _]; simpl; [done|]. by rewrite Hc. }
  rewrite Hdrop, scan_plain by done. simpl.
  rewrite rev_involutive, app_nil_r.
  destruct (scan_after_dot (rev (list_ascii_of_string stem))
              {| seen := "."%char :: list_ascii_of_string e;
                 ext := Some ("."%char :: list_ascii_of_string e);
                 preDotState := 0 |}
              ("."%char :: list_ascii_of_string e))
    as (-> & Hseen & Hpre); [by apply Forall_rev_iff|done|].
  simpl in Hseen. rewrite rev_involutive in Hseen. rewrite Hseen. simpl.
  assert (Hp : preDotState
                 (extname_scan (rev (list_ascii_of_string stem))
                    {| seen := "."%char :: list_ascii_of_string e;
                       ext := Some ("."%char :: list_ascii_of_string e);
                       preDotState := 0 |}) <> 0).
  { apply Hpre. left. destruct stem; [simpl in Hlen; lia|].
    simpl. intros H. by apply app_eq_nil in H as [_ ?]. }
  apply Z.eqb_neq in Hp. rewrite Hp. simpl.
  assert (Hl : (length (list_ascii_of_string stem
                        ++ "."%char :: list_ascii_of_string e) =? 2)%nat = false).
  { apply Nat.eqb_neq. rewrite length_app. simpl.
    assert (length (list_ascii_of_string stem) = String.length stem) as ->.
    { clear. induction stem; simpl; auto. }
    lia. }
  rewrite Hl, andb_false_r.
  by rewrite string_of_list_ascii_of_string.
Qed.

(** A name without a dot has no extension. *)
Lemma extname_no_dot (s : string) :
  one_segment s -> no_dot s -> extname s = "".
Proof.
  intros Hs Hd. unfold extname.
  assert (Hplain : Forall plain (rev (list_ascii_of_string s))).
  { apply Forall_rev_iff. unfold one_segment, no_dot in *.
    rewrite Forall_forall in *. intros c Hc. split; auto. }
  assert (Hdrop : drop_seps (rev (list_ascii_of_string s))
                  = rev (list_ascii_of_string s)).
  { destruct Hplain as [|c l [Hc _] _]; simpl; [done|]. by rewrite Hc. }
  rewrite Hdrop.
  rewrite <- (app_nil_r (rev (list_ascii_of_string s))).
  by rewrite scan_plain.
Qed.

Lemma scan_shape (l : list ascii) (st : scan) :
  (ext st = None -> Forall plain (seen st)) ->
  (forall x, ext st = Some x -> exists e, x = "."%char :: e /\ Forall plain e) ->
  forall x, ext (extname_scan l st) = Some x ->
            exists e, x = "."%char :: e /\ Forall plain e.
Proof.
  revert st. induction l as [|c l IH]; intros st Hnone Hsome; simpl; [done|].
  destruct (is_sep c) eqn:Hc; [done|].
  destruct (Ascii.eqb_spec c ".") as [->|Hd].
  - destruct (ext st) as [y|] eqn:He.
    + apply IH; simpl; [done|done].
    + apply IH; simpl; [done|].
      intros x [= <-]. eauto.
  - apply IH; simpl; [|done].
    intros He. constructor; [done|]. by apply Hnone.
Qed.

(** What [path.extname] returns: nothing, or a dot and then characters
    that are neither dots nor separators. *)
Lemma extname_shape (p : string) :
  extname p = "" \/
  exists e, extname p = ("." ++ e)%string /\ one_segment e /\ no_dot e.
Proof.
  unfold extname. set (st := extname_scan _ _).
  destruct (ext st) as [x|] eqn:He; [|by left].
  destruct (_ || _); [by left|]. right.
  destruct (scan_shape (drop_seps (rev (list_ascii_of_string p)))
              {| seen := []; ext := None; preDotState := 0 |}
              (fun _ => Forall_nil_2 _) ltac:(done) x He)
    as (e & -> & Hpl).
  exists (string_of_list_ascii e). simpl.
  split; [done|].
  unfold one_segment, no_dot. rewrite list_ascii_of_string_of_list_ascii.
  split; (eapply Forall_impl; [exact Hpl|]); by intros c [? ?].
Qed.

Lemma string_app_assoc (a b c : string) :
  ((a ++ b) ++ c)%string = (a ++ b ++ c)%string.
Proof.
  induction a as [|x a IH]; [done|].
  change (String x ((a ++ b) ++ c) = String x (a ++ b ++ c))%string.
  by rewrite IH.
Qed.

Lemma string_app_nil_r (a : string) : (a ++ "")%string = a.
Proof.
  induction a as [|x a IH]; [done|].
  change (String x (a ++ "")%string = String x a). by rewrite IH.
Qed.

Lemma no_dot_app (a b : string) :
  no_dot (a ++ b)%string <-> no_dot a /\ no_dot b.
Proof. unfold no_dot. rewrite chars_app. apply Forall_app. Qed.

Lemma all_digits_no_dot (s : string) : all_digits s -> no_dot s.
Proof.
  unfold all_digits, no_dot. intros H.
  eapply Forall_impl; [exact H|]. intros c Hc ->. done.
Qed.

Lemma string_length_app (a b : string) :
  String.length (a ++ b)%string = (String.length a + String.length b)%nat.
Proof.
  induction a as [|x a IH]; [done|].
  change (S (String.length (a ++ b)%string)
          = S (String.length a + String.length b)). by rewrite IH.
Qed.

Lemma stored_name_stem (now : Z) (q : Q) (f : part) :
  fieldname f = "documents" -> 0 <= now -> (0 <= q)%Q -> (q <= below_one)%Q ->
  exists k stem,
    0 <= k <= 1000000000
    /\ stem = ("documents-" ++ Z_toString now ++ "-" ++ Z_toString k)%string
    /\ filename part_000 now (Finite q) f
       = (stem ++ extname (originalname f))%string
    /\ one_segment stem /\ no_dot stem /\ (2 <= String.length stem)%nat.
Proof.
  intros Hf Hnow H0 H1. unfold filename, uniqueSuffix. rewrite Hf.
  destruct (rounded_random_range q H0 H1) as (k & -> & Hk).
  unfold Number_toString. rewrite Qfloor_Z.
  exists k. eexists. split; [done|]. split; [reflexivity|].
  destruct (Z_toString_digits now Hnow) as [Hn _].
  destruct (Z_toString_digits k) as [Hkd _]; [lia|].
  split; [by rewrite !string_app_assoc|].
  split; [|split].
  - repeat (apply one_segment_app; split);
      auto using all_digits_one_segment; by repeat constructor.
  - repeat (apply no_dot_app; split);
      auto using all_digits_no_dot; by repeat constructor.
  - rewrite string_length_app. simpl. lia.
Qed.

(** X1.  The name [part_000] stores an upload under: [documents-], the clock, a
    number from 0 to 10^9 and the extension of the original name.  It is one
    path segment whatever the original name is, so the file lands in the
    uploads directory and [path.basename] of its path gives the name back. *)
Theorem stored_name_part_000 (dir : string) (now : Z) (q : Q) (f : part) :
  fieldname f = "documents" -> 0 <= now -> (0 <= q)%Q -> (q <= below_one)%Q ->
  exists k,
    0 <= k <= 1000000000
    /\ filename part_000 now (Finite q) f
       = ("documents-" ++ Z_toString now ++ "-" ++ Z_toString k
          ++ extname (originalname f))%string
    /\ one_segment (filename part_000 now (Finite q) f)
    /\ basename (stored_at dir (filename part_000 now (Finite q) f))
       = filename part_000 now (Finite q) f.
Proof.
  intros Hf Hnow H0 H1.
  destruct (stored_name_stem now q f Hf Hnow H0 H1)
    as (k & stem & Hk & -> & -> & Hseg & _ & _).
  exists k. split; [done|].
  split; [cbn; by rewrite !string_app_assoc|].
  assert (Hall : one_segment
                   (("documents-" ++ Z_toString now ++ "-" ++ Z_toString k)
                    ++ extname (originalname f))%string).
  { apply one_segment_app. split; [done|apply extname_one_segment]. }
  split; [done|].
  by apply basename_stored_at.
Qed.

Lemma stored_name_part_000_witness :
  exists k,
    0 <= k <= 1000000000
    /\ filename part_000 noon_2024_05_15 half (pdf "1")
       = ("documents-" ++ Z_toString noon_2024_05_15 ++ "-" ++ Z_toString k
          ++ extname (originalname (pdf "1")))%string
    /\ one_segment (filename part_000 noon_2024_05_15 half (pdf "1"))
    /\ basename (stored_at "/srv/Uploads"
                   (filename part_000 noon_2024_05_15 half (pdf "1")))
       = filename part_000 noon_2024_05_15 half (pdf "1").
Proof.
  apply (stored_name_part_000 "/srv/Uploads" noon_2024_05_15 (1 # 2) (pdf "1"));
    [reflexivity | by vm_compute | by vm_compute | by vm_compute].
Defined.

(** X2.  The name [part_000] stores an upload under has the extension of the
    original name, as [path.extname] reads both. *)
Theorem stored_name_extension (now : Z) (q : Q) (f : part) :
  fieldname f = "documents" -> 0 <= now -> (0 <= q)%Q -> (q <= below_one)%Q ->
  extname (filename part_000 now (Finite q) f) = extname (originalname f).
Proof.
  intros Hf Hnow H0 H1.
  destruct (stored_name_stem now q f Hf Hnow H0 H1)
    as (k & stem & _ & _ & -> & Hseg & Hnd & Hlen).
  destruct (extname_shape (originalname f)) as [-> | (e & -> & He & Hed)].
  - rewrite string_app_nil_r. by apply extname_no_dot.
  - by apply extname_dotted.
Qed.

Lemma stored_name_extension_witness :
  extname (filename part_000 noon_2024_05_15 half (pdf "1"))
  = extname (originalname (pdf "1")).
Proof.
  apply (stored_name_extension noon_2024_05_15 (1 # 2) (pdf "1"));
    [reflexivity | by vm_compute | by vm_compute | by vm_compute].
Defined.

(** X3.  The name [Backend/server.js] stores an upload under, for an original
    name that is one path segment: it is one segment too, [path.basename] of
    its path gives it back, and it ends in the extension of the original
    name. *)
Theorem stored_name_backend (dir : string) (now : Z) (random : number)
    (f : part) :
  0 <= now -> one_segment (originalname f) ->
  one_segment (filename Backend_server_js now random f)
  /\ basename (stored_at dir (filename Backend_server_js now random f))
     = filename Backend_server_js now random f
  /\ forall stem e,
       originalname f = (stem ++ "." ++ e)%string -> no_dot e ->
       extname (filename Backend_server_js now random f) = ("." ++ e)%string.
Proof.
  intros Hnow Horig. unfold filename.
  destruct (Z_toString_digits now Hnow) as [Hn Hne].
  assert (Hseg : one_segment (Z_toString now ++ "-" ++ originalname f)%string).
  { repeat (apply one_segment_app; split);
      auto using all_digits_one_segment; by repeat constructor. }
  split; [done|]. split.
  - apply basename_stored_at; [|done].
    destruct (Z_toString now); [done|done].
  - intros stem e Hse Hnd. rewrite Hse in *.
    apply one_segment_app in Horig as [Hstem He].
    apply one_segment_app in He as [_ He].
    rewrite <- (string_app_assoc _ "-"), <- (string_app_assoc _ stem).
    apply extname_dotted; [|  |done|done].
    + repeat (apply one_segment_app; split);
        auto using all_digits_one_segment; by repeat constructor.
    + rewrite !string_length_app. simpl.
      destruct (Z_toString now); [done|]. simpl. lia.
Qed.

Lemma stored_name_backend_witness :
  one_segment (filename Backend_server_js noon_2024_05_15 half (pdf "1"))
  /\ basename (stored_at "/srv/Uploads"
                 (filename Backend_server_js noon_2024_05_15 half (pdf "1")))
     = filename Backend_server_js noon_2024_05_15 half (pdf "1")
  /\ forall stem e,
       originalname (pdf "1") = (stem ++ "." ++ e)%string -> no_dot e ->
       extname (filename Backend_server_js noon_2024_05_15 half (pdf "1"))
       = ("." ++ e)%string.
Proof.
  apply (stored_name_backend "/srv/Uploads" noon_2024_05_15 half (pdf "1"));
    [by vm_compute | by repeat constructor].
Defined.


(** *** The documents of a claim *)

Lemma select_document_rows_filter (cid : string) (d : database) :
  select_document_rows cid d
  = filter (fun r => doc_claim_id r = cid) (Pg.documents d).
Proof.
  unfold select_document_rows. apply list_filter_iff. intros r.
  apply String.eqb_eq.
Qed.

Lemma document_rows_route (v : variant) (cid : string) (w : world) :
  document_rows (snd (get_api_claims_documents v cid w))
  = select_document_rows cid (db w).
Proof.
  destruct v; simpl; [|done]. rewrite map_map. simpl. apply map_id.
Qed.

(** X4.  The two routes that show documents agree: each claim of the listing of
    [part_000] carries the id, name and path of exactly the rows that the
    documents route of either copy returns for that claim, in the same
    order. *)
Theorem documents_route_matches_listing (v : variant) (q : claim_query)
    (w : world) (rows : list claim_with_documents) :
  get_api_claims part_000 q w = reply 200 (json_claims rows) ->
  Forall (fun x =>
            Server.documents x
            = Some (map (fun r => (doc_id r, file_name r, file_path r))
                      (document_rows
                         (snd (get_api_claims_documents v
                                 (claim_id (claim x)) w))))) rows.
Proof.
  unfold get_api_claims. destruct (_ && _); [done|].
  intros [= <-]. apply Forall_map, Forall_forall. intros c _. simpl.
  by rewrite document_rows_route.
Qed.

Lemma documents_route_matches_listing_witness :
  Forall (fun x =>
            Server.documents x
            = Some (map (fun r => (doc_id r, file_name r, file_path r))
                      (document_rows
                         (snd (get_api_claims_documents part_000
                                 (claim_id (claim x))
                                 (after_two_receipts part_000))))))
    listed_two_receipts.
Proof.
  apply (documents_route_matches_listing part_000
           (only_claim_id "CLM-2024-5500") (after_two_receipts part_000)).
  by vm_compute.
Defined.

(** What the document loop leaves behind, whether it ran to its end or
    stopped at an INSERT that raised: the claims as they were, and after the
    documents that were there a row for some of the files, each referencing
    the claim and stored under the path of one of the files; fewer rows than
    files when the loop stopped. *)
Lemma insert_documents_rows (v : variant) (e : engine) (cid : string)
    (now : Z) (fs : list part) (w w' : world) (ok : bool) :
  insert_documents v e cid now fs w = (w', ok) ->
  claims (db w') = claims (db w)
  /\ documents_id_seq (db w) <= documents_id_seq (db w')
  /\ exists rows,
      Pg.documents (db w') = Pg.documents (db w) ++ rows
      /\ Forall (fun r => doc_claim_id r = cid
                          /\ file_path r ∈ map path fs) rows
      /\ (length rows <= length fs)%nat
      /\ (ok = false -> (length rows < length fs)%nat).
Proof.
  revert w. induction fs as [|f fs IH]; intros w; simpl.
  - intros [= <- <-]. split; [done|]. split; [lia|].
    exists []. rewrite app_nil_r. split; [done|]. split; [constructor|].
    split; [done|done].
  - destruct (match v with part_000 => _ | Backend_server_js => _ end).
    + intros Hloop. apply IH in Hloop as (Hc & Hs & rows & Hd & Hall & Hl & Hlt).
      split; [done|]. split; [done|]. exists rows. split; [done|].
      split; [|split; [lia|intros; specialize (Hlt ltac:(done)); lia]].
      eapply Forall_impl; [exact Hall|]. simpl. intros r [? ?].
      split; [done|]. by right.
    + destruct (insert_document e cid (originalname f) (path f) now (db w))
        as [[d1 i]|] eqn:Hins.
      * apply insert_document_inv in Hins as (_ & Hc1 & Hd1 & Hs1).
        intros Hloop. apply IH in Hloop as (Hc & Hs & rows & Hd & Hall & Hl & Hlt).
        simpl in *. split; [congruence|]. split; [lia|].
        eexists (_ :: rows). rewrite Hd, Hd1, <- app_assoc. simpl.
        split; [reflexivity|].
        split; [|split; [lia|intros; specialize (Hlt ltac:(done)); lia]].
        constructor; [simpl; split; [done|left]|].
        eapply Forall_impl; [exact Hall|]. simpl. intros r [? ?].
        split; [done|]. by right.
      * intros [= <- <-]. split; [done|]. split; [lia|].
        exists []. rewrite app_nil_r. split; [done|]. split; [constructor|].
        simpl. split; [lia|]. intros _. lia.
Qed.

(** The rows that reference a claim id that was free before are the rows
    appended for it. *)
Lemma select_rows_new_claim (cid : string) (d d' : database)
    (rows : list document_row) :
  Forall (fun r => has_claim (doc_claim_id r) d = true) (Pg.documents d) ->
  has_claim cid d = false ->
  Pg.documents d' = Pg.documents d ++ rows ->
  Forall (fun r => doc_claim_id r = cid) rows ->
  select_document_rows cid d' = rows.
Proof.
  intros Hfk Hnew Hd Hrows. rewrite select_document_rows_filter, Hd, filter_app.
  rewrite filter_none.
  - simpl. clear -Hrows.
    induction Hrows as [|r rows Hr _ IH]; [done|].
    by rewrite filter_cons_True, IH.
  - intros x Hx Hxc. rewrite Forall_forall in Hfk.
    specialize (Hfk x Hx). congruence.
Qed.

(** X5.  A submission and the documents route after it, on either copy of the
    server: once a submission has been answered 201, the documents route
    returns for the new claim id one row per uploaded file, in the order of
    the upload, under the original name and the stored path.  [part_000]
    adds to every row that the file exists and the URL [/uploads/] followed
    by the base name of the stored path. *)
Theorem submission_then_documents (v : variant) (h : host) (e : engine)
    (now : Z) (random : number) (req : submission) (w w' : world)
    (msg cid : string) (docs : option (list (string * string))) :
  consistent (db w) ->
  post_api_claims v h e now random req w
  = (w', reply 201 (json_submitted msg cid docs)) ->
  exists body,
    get_api_claims_documents v cid w' = (200, body)
    /\ map file_name (document_rows body) = map originalname (parts req)
    /\ map file_path (document_rows body) = map path (parts req)
    /\ Forall (fun r => doc_claim_id r = cid) (document_rows body)
    /\ match body with
       | json_documents _ => v = Backend_server_js
       | json_documents_checked views =>
           v = part_000
           /\ Forall (fun x => file_exists x = true) views
           /\ map url views
              = map (fun f => Some ("/uploads/" ++ basename (path f))%string)
                  (parts req)
       end.
Proof.
  intros Hcons Hpost.
  unfold post_api_claims, Multer.array in Hpost.
  destruct (receive "documents" 5 (parts req) (disk w)) as [err|d] eqn:Hrecv.
  { apply (f_equal (fun p => status (snd p))) in Hpost.
    by destruct err, v. }
  apply receive_stores in Hrecv as (Hstored & _ & _).
  unfold submit in Hpost.
  destruct (validate h now (form req) (parts req)) as [r0|] eqn:Hv.
  { destruct (validate_reply _ _ _ _ _ Hv) as [m ->].
    by apply (f_equal (fun p => status (snd p))) in Hpost. }
  cbv zeta in Hpost. cbn [db disk] in Hpost.
  set (cid0 := claimId_of h now random) in *.
  destruct (insert_claim e (claim_values cid0 now (form req)) (db w))
    as [db1|] eqn:Hins;
    [|by apply (f_equal (fun p => status (snd p))) in Hpost].
  apply insert_claim_inv in Hins as (Hnew & Hc1 & Hd1 & _). simpl in Hnew.
  destruct (insert_documents v e cid0 now (parts req)
              {| db := db1; disk := d |}) as [w1 ok] eqn:Hloop.
  destruct ok; [|by apply (f_equal (fun p => status (snd p))) in Hpost].
  injection Hpost as <- _ <- _.
  apply insert_documents_all in Hloop as (Hc & Hdisk & rows & Hd & Hn & Hp & Hid);
    [|done].
  simpl in Hc, Hd, Hdisk.
  assert (Hsel : select_document_rows cid0 (db w1) = rows).
  { apply (select_rows_new_claim cid0 (db w) _ rows);
      [apply Hcons|done|congruence|done]. }
  assert (Hex : Forall (fun r => existsSync (file_path r) (disk w1) = true) rows).
  { rewrite Hdisk. clear -Hp Hstored. revert rows Hp.
    induction Hstored as [|f fs Hf _ IH]; intros [|r rows]; try done.
    simpl. intros [= Hr Hrows]. constructor; [by rewrite Hr|by apply IH]. }
  destruct v; simpl; rewrite Hsel.
  - eexists. split; [reflexivity|]. simpl. rewrite !map_map. simpl.
    split; [done|]. split; [done|].
    split; [by rewrite map_id|]. split; [done|]. split.
    + apply Forall_map. simpl. done.
    + clear -Hex Hp. revert Hp. generalize (parts req).
      induction Hex as [|r rows Hr _ IH]; intros [|f fs]; try done.
      simpl. intros [= Hrf Hrows]. rewrite Hr, Hrf. f_equal. by apply IH.
  - eexists. split; [reflexivity|]. simpl. done.
Qed.

Lemma submission_then_documents_witness :
  exists body,
    get_api_claims_documents part_000 "CLM-2024-5500"
      (after_two_receipts part_000) = (200, body)
    /\ map file_name (document_rows body) = map originalname (parts two_receipts)
    /\ map file_path (document_rows body) = map path (parts two_receipts)
    /\ Forall (fun r => doc_claim_id r = "CLM-2024-5500") (document_rows body)
    /\ match body with
       | json_documents _ => part_000 = Backend_server_js
       | json_documents_checked views =>
           part_000 = part_000
           /\ Forall (fun x => file_exists x = true) views
           /\ map url views
              = map (fun f => Some ("/uploads/" ++ basename (path f))%string)
                  (parts two_receipts)
       end.
Proof.
  apply (submission_then_documents part_000 utc schema noon_2024_05_15 half
           two_receipts w0 (after_two_receipts part_000)
           "Claim submitted successfully" "CLM-2024-5500"
           (Some [("receipt-1.pdf", "/srv/Uploads/documents-1.pdf");
                  ("receipt-2.pdf", "/srv/Uploads/documents-2.pdf")])).
  - apply empty_consistent.
  - by vm_compute.
Defined.


(** *** What a submission leaves in the tables *)

(** The rows a submission adds, whatever its outcome: at most one claim,
    pending, at the end of [claims], and rows at the end of [documents]. *)
Lemma post_api_claims_rows (v : variant) (h : host) (e : engine) (now : Z)
    (random : number) (req : submission) (w : world) :
  exists cs ds,
    claims (db (fst (post_api_claims v h e now random req w)))
    = claims (db w) ++ cs
    /\ Pg.documents (db (fst (post_api_claims v h e now random req w)))
       = Pg.documents (db w) ++ ds
    /\ (length cs <= 1)%nat
    /\ (length ds <= length (parts req))%nat
    /\ (cs = [] -> ds = [])
    /\ Forall (fun c => Pg.status c = "pending") cs.
Proof.
  assert (Hsame : forall w0 : world, db w0 = db w ->
            exists cs ds,
              claims (db w0) = claims (db w) ++ cs
              /\ Pg.documents (db w0) = Pg.documents (db w) ++ ds
              /\ (length cs <= 1)%nat
              /\ (length ds <= length (parts req))%nat
              /\ (cs = [] -> ds = [])
              /\ Forall (fun c => Pg.status c = "pending") cs).
  { intros w0 ->. exists [], []. rewrite !app_nil_r. simpl.
    repeat split; auto; lia. }
  unfold post_api_claims, Multer.array.
  destruct (receive "documents" 5 (parts req) (disk w)) as [err|d];
    [by apply Hsame|].
  unfold submit.
  destruct (validate h now (form req) (parts req)); [by apply Hsame|].
  cbv zeta. cbn [db disk].
  set (cid := claimId_of h now random).
  destruct (insert_claim e (claim_values cid now (form req)) (db w))
    as [db1|] eqn:Hins; [|by apply Hsame].
  apply insert_claim_inv in Hins as (_ & Hc1 & Hd1 & _).
  destruct (insert_documents v e cid now (parts req)
              {| db := db1; disk := d |}) as [w1 ok] eqn:Hloop.
  apply insert_documents_rows in Hloop as (Hc & _ & rows & Hd & _ & Hlen & _).
  simpl in Hc, Hd.
  assert (claims (db w1) = claims (db w) ++ [claim_values cid now (form req)]
          /\ Pg.documents (db w1) = Pg.documents (db w) ++ rows) as [Hc' Hd']
    by (split; congruence).
  exists [claim_values cid now (form req)], rows.
  destruct ok; simpl; rewrite Hc', Hd';
    (repeat split; [lia | done | done | by repeat constructor]).
Qed.

(** X6.  A submission never touches what is already stored: whatever its
    outcome, on either copy of the server, the claims and the documents that
    were in the tables are still there, unchanged and in place; at most one
    claim and at most one document per uploaded file have been added after
    them, and no document without a claim. *)
Theorem submission_only_appends (v : variant) (h : host) (e : engine)
    (now : Z) (random : number) (req : submission) (w : world) :
  exists cs ds,
    claims (db (fst (post_api_claims v h e now random req w)))
    = claims (db w) ++ cs
    /\ Pg.documents (db (fst (post_api_claims v h e now random req w)))
       = Pg.documents (db w) ++ ds
    /\ (length cs <= 1)%nat
    /\ (length ds <= length (parts req))%nat
    /\ (cs = [] -> ds = []).
Proof.
  destruct (post_api_claims_rows v h e now random req w)
    as (cs & ds & H1 & H2 & H3 & H4 & H5 & _).
  exists cs, ds. auto.
Qed.

(** X7.  There is no rollback.  When the claim of a submission went in and an
    INSERT into [documents] raises afterwards, on either copy of the server
    the reply is the 500, yet the claim stays in [claims] and the documents
    inserted before the failure stay in [documents]; the documents route
    returns those rows for the claim.  On [part_000], which removes the
    uploaded files, every such row is reported with [file_exists] false and
    no URL (when the operating system lets the files be removed). *)
Theorem failed_submission_keeps_rows (v : variant) (h : host) (e : engine)
    (now : Z) (random : number) (f : claim_form) (fs : list part) (w : world) :
  consistent (db w) ->
  validate h now f fs = None ->
  (exists db1,
     insert_claim e (claim_values (claimId_of h now random) now f) (db w)
     = Some db1
     /\ snd (insert_documents v e (claimId_of h now random) now fs
               {| db := db1; disk := disk w |}) = false) ->
  exists w' kept,
    submit v h e now random f fs w
    = (w', reply 500 (json_error "Server error while submitting claim"))
    /\ claims (db w')
       = claims (db w) ++ [claim_values (claimId_of h now random) now f]
    /\ Pg.documents (db w') = Pg.documents (db w) ++ kept
    /\ (length kept < length fs)%nat
    /\ document_rows
         (snd (get_api_claims_documents v (claimId_of h now random) w'))
       = kept
    /\ (v = part_000 ->
        (forall x, x ∈ fs -> path x ∉ undeletable (disk w)) ->
        exists views,
          snd (get_api_claims_documents v (claimId_of h now random) w')
          = json_documents_checked views
          /\ Forall (fun x => file_exists x = false /\ url x = None) views).
Proof.
  intros Hcons Hv (db1 & Hins & Hloop).
  unfold submit. rewrite Hv. cbv zeta. rewrite Hins.
  set (cid := claimId_of h now random) in *.
  apply insert_claim_inv in Hins as (Hnew & Hc1 & Hd1 & _). simpl in Hnew.
  pose proof (insert_documents_disk v e cid now fs
                {| db := db1; disk := disk w |}) as Hdisk.
  destruct (insert_documents v e cid now fs {| db := db1; disk := disk w |})
    as [w1 ok] eqn:Hrun.
  simpl in Hloop, Hdisk. subst ok.
  apply insert_documents_rows in Hrun as (Hc & _ & rows & Hd & Hall & _ & Hlt).
  simpl in Hc, Hd. specialize (Hlt eq_refl).
  assert (Hd' : Pg.documents (db w1) = Pg.documents (db w) ++ rows)
    by congruence.
  eexists _, rows. split; [reflexivity|]. simpl.
  split; [congruence|]. split; [done|]. split; [done|].
  assert (Hsel : select_document_rows cid (db w1) = rows).
  { apply (select_rows_new_claim cid (db w) _ rows);
      [apply Hcons|done|done|].
    eapply Forall_impl; [exact Hall|]. by intros r [? _]. }
  split.
  { rewrite document_rows_route. exact Hsel. }
  intros -> Hdel. simpl. rewrite Hsel. eexists. split; [reflexivity|].
  apply Forall_map. rewrite Hdisk.
  eapply Forall_impl; [exact Hall|]. simpl. intros r [_ Hin].
  apply list_elem_of_fmap in Hin as (x & -> & Hx).
  destruct (cleanup_spec fs (disk w)) as (_ & _ & Hgone & _).
  destruct (Hgone x Hx) as [Hnone|Hund]; [|by apply Hdel in Hund].
  unfold existsSync. rewrite Hnone.
  rewrite bool_decide_eq_false_2; [done|]. by intros [? [=]].
Qed.

Lemma failed_submission_keeps_rows_witness :
  exists w' kept,
    submit part_000 utc schema noon_2024_05_15 half (form_ok "2024-05-15")
      [pdf "1"; pdf_long_name] (stored [pdf "1"; pdf_long_name] w0)
    = (w', reply 500 (json_error "Server error while submitting claim"))
    /\ claims (db w')
       = claims (db (stored [pdf "1"; pdf_long_name] w0))
         ++ [claim_values (claimId_of utc noon_2024_05_15 half)
               noon_2024_05_15 (form_ok "2024-05-15")]
    /\ Pg.documents (db w')
       = Pg.documents (db (stored [pdf "1"; pdf_long_name] w0)) ++ kept
    /\ (length kept < length [pdf "1"; pdf_long_name])%nat
    /\ document_rows
         (snd (get_api_claims_documents part_000
                 (claimId_of utc noon_2024_05_15 half) w'))
       = kept
    /\ (part_000 = part_000 ->
        (forall x, x ∈ [pdf "1"; pdf_long_name] ->
           path x ∉ undeletable (disk (stored [pdf "1"; pdf_long_name] w0))) ->
        exists views,
          snd (get_api_claims_documents part_000
                 (claimId_of utc noon_2024_05_15 half) w')
          = json_documents_checked views
          /\ Forall (fun x => file_exists x = false /\ url x = None) views).
Proof.
  apply (failed_submission_keeps_rows part_000 utc schema noon_2024_05_15 half
           (form_ok "2024-05-15") [pdf "1"; pdf_long_name]
           (stored [pdf "1"; pdf_long_name] w0)).
  - apply empty_consistent.
  - vm_compute; reflexivity.
  - eexists. split; vm_compute; reflexivity.
Defined.

(** *** The states the server reaches *)

Lemma patch_api_claims_known (now : Z) (claimId : string)
    (s : option string) (w : world) :
  Forall known_status (claims (db w)) ->
  Forall known_status (claims (db (fst (patch_api_claims now claimId s w)))).
Proof.
  intros Hw. unfold patch_api_claims.
  destruct (negb _) eqn:Hs; [done|].
  apply negb_false_iff, terminal_includes in Hs.
  assert (Hst : str s ∈ ["pending"; "approved"; "rejected"]).
  { destruct Hs as [-> | ->]; simpl; set_solver. }
  pose proof (update_status_rows (str s) now claimId (db w)) as Hrows.
  destruct (update_status (str s) now claimId (db w)) as [db' rows].
  simpl in Hrows.
  assert (Forall known_status (claims db')).
  { apply Forall_forall. intros r' (r & Hr & ->)%Hrows.
    rewrite Forall_forall in Hw.
    destruct (String.eqb (claim_id r) claimId); [exact Hst|by apply Hw]. }
  by destruct rows.
Qed.

Lemma post_api_claims_known (v : variant) (h : host) (e : engine) (now : Z)
    (random : number) (req : submission) (w : world) :
  Forall known_status (claims (db w)) ->
  Forall known_status
    (claims (db (fst (post_api_claims v h e now random req w)))).
Proof.
  intros Hw.
  destruct (post_api_claims_rows v h e now random req w)
    as (cs & ds & -> & _ & _ & _ & _ & Hcs).
  apply Forall_app. split; [done|].
  eapply Forall_impl; [exact Hcs|]. unfold known_status. intros c ->.
  set_solver.
Qed.

Lemma reachable_consistent (v : variant) (h : host) (e : engine) (w : world) :
  reachable v h e w -> consistent (db w).
Proof.
  induction 1.
  - apply empty_consistent.
  - by apply post_api_claims_consistent.
  - by apply patch_api_claims_consistent.
Qed.

Lemma reachable_known (v : variant) (h : host) (e : engine) (w : world) :
  reachable v h e w -> Forall known_status (claims (db w)).
Proof.
  induction 1.
  - constructor.
  - by apply post_api_claims_known.
  - by apply patch_api_claims_known.
Qed.

(** X8.  In every state the server reaches from empty tables, on either copy:
    the claim ids are distinct, the document ids are distinct and below the
    sequence, every document references a claim that is there, and every
    claim has one of the statuses pending, approved and rejected. *)
Theorem reachable_invariants (v : variant) (h : host) (e : engine)
    (w : world) :
  reachable v h e w ->
  consistent (db w) /\ Forall known_status (claims (db w)).
Proof.
  intros Hw. split; [by eapply reachable_consistent|by eapply reachable_known].
Qed.

Lemma reachable_invariants_witness :
  consistent (db (after_two_receipts part_000))
  /\ Forall known_status (claims (db (after_two_receipts part_000))).
Proof.
  apply (reachable_invariants part_000 utc schema (after_two_receipts part_000)).
  apply (reach_post part_000 utc schema noon_2024_05_15 half two_receipts w0).
  apply (reach_start part_000 utc schema).
Defined.


(** *** The HR page *)

Lemma table_summarize (cs : list claim_row) : table (summarize cs) = cs.
Proof. unfold summarize. by destruct cs. Qed.

Lemma pending_not_decided : "pending" ∉ ["approved"; "rejected"].
Proof.
  intros H. apply elem_of_cons in H as [?|H]; [done|].
  apply elem_of_cons in H as [?|H]; [done|]. by apply elem_of_nil in H.
Qed.

Lemma tables_partition (cs : list claim_row) :
  Forall known_status cs ->
  Permutation (pendingClaims cs ++ completedClaims cs) cs
  /\ forall c, c ∈ pendingClaims cs -> c ∉ completedClaims cs.
Proof.
  intros Hcs. split.
  - unfold pendingClaims, completedClaims.
    induction Hcs as [|c cs Hc _ IH]; [done|].
    unfold known_status in Hc.
    destruct (decide (Pg.status c = "pending")) as [Hp|Hp].
    + rewrite filter_cons_True by done.
      rewrite (filter_cons_False (fun c => Pg.status c ∈ _));
        [|rewrite Hp; apply pending_not_decided].
      simpl. by constructor.
    + rewrite filter_cons_False by done.
      rewrite (filter_cons_True (fun c => Pg.status c ∈ _));
        [|apply elem_of_cons in Hc as [?|Hc]; done].
      rewrite <- Permutation_middle. by constructor.
  - unfold pendingClaims, completedClaims. intros c.
    rewrite !list_elem_of_filter. intros [Hp _] [Hc _]. rewrite Hp in Hc.
    by apply pending_not_decided in Hc.
Qed.

Lemma listing_all (v : variant) (w : world) :
  exists rows,
    get_api_claims v all_claims w = reply 200 (json_claims rows)
    /\ Permutation (map claim rows) (claims (db w)).
Proof.
  unfold get_api_claims, all_claims. simpl. eexists. split; [reflexivity|].
  rewrite map_map. simpl. rewrite map_id. unfold select_claims.
  rewrite order_by_perm. unfold where_. simpl.
  induction (claims (db w)) as [|c cs IH]; [done|].
  rewrite filter_cons_True by done. by constructor.
Qed.

(** X9.  The two tables of the HR page, in every state the server reaches: the
    unfiltered listing returns every stored claim, and the pending table and
    the completed table together show each of these claims once; no claim
    is in both. *)
Theorem tables_show_every_claim (v : variant) (h : host) (e : engine)
    (w : world) (rows : list claim_with_documents) :
  reachable v h e w ->
  get_api_claims v all_claims w = reply 200 (json_claims rows) ->
  Permutation (map claim rows) (claims (db w))
  /\ Permutation
       (table (fst (updateTables (map claim rows)))
        ++ table (snd (updateTables (map claim rows))))
       (map claim rows)
  /\ forall c, c ∈ table (fst (updateTables (map claim rows))) ->
               c ∉ table (snd (updateTables (map claim rows))).
Proof.
  intros Hw Hget.
  destruct (listing_all v w) as (rows' & Hget' & Hperm).
  rewrite Hget in Hget'. injection Hget' as <-.
  split; [done|].
  unfold updateTables. simpl. rewrite !table_summarize.
  apply tables_partition.
  apply reachable_known in Hw.
  rewrite Forall_forall in *. intros c Hc. apply Hw. by rewrite <- Hperm.
Qed.

Lemma tables_show_every_claim_witness :
  Permutation (map claim listed_two_receipts)
    (claims (db (after_two_receipts part_000)))
  /\ Permutation
       (table (fst (updateTables (map claim listed_two_receipts)))
        ++ table (snd (updateTables (map claim listed_two_receipts))))
       (map claim listed_two_receipts)
  /\ forall c,
       c ∈ table (fst (updateTables (map claim listed_two_receipts))) ->
       c ∉ table (snd (updateTables (map claim listed_two_receipts))).
Proof.
  apply (tables_show_every_claim part_000 utc schema
           (after_two_receipts part_000)).
  - apply (reach_post part_000 utc schema noon_2024_05_15 half two_receipts w0).
    apply (reach_start part_000 utc schema).
  - by vm_compute.
Defined.

(** X10.  Looking a claim up by its id, as the details view of the HR page does:
    on tables whose claim ids are distinct the listing filtered by a
    non-empty claim id returns the one claim of that id, and nothing when no
    claim has it. *)
Theorem lookup_by_claim_id (v : variant) (cid : string) (w : world) :
  cid <> "" ->
  NoDup (map claim_id (claims (db w))) ->
  exists rows,
    get_api_claims v (only_claim_id cid) w = reply 200 (json_claims rows)
    /\ ((forall c, c ∈ claims (db w) -> claim_id c <> cid) -> rows = [])
    /\ (forall c, c ∈ claims (db w) -> claim_id c = cid ->
          map claim rows = [c]).
Proof.
  intros Hne Hnd. unfold get_api_claims, only_claim_id, push_filter.
  cbn [q_employee_id q_claim_id q_status falsy negb andb str default].
  destruct cid as [|a cid']; [done|]. set (cid := String a cid') in *.
  eexists. split; [reflexivity|]. unfold select_claims. simpl. split.
  - intros Hno. rewrite filter_none; [done|].
    intros c Hc. simpl. rewrite andb_true_r, String.eqb_eq. by apply Hno.
  - intros c Hc Hid. rewrite map_map. simpl. rewrite map_id.
    rewrite (filter_key claim_id _ _ c Hnd Hc); [done|].
    intros x. simpl. rewrite andb_true_r, String.eqb_eq. by rewrite Hid.
Qed.

Lemma lookup_by_claim_id_witness :
  exists rows,
    get_api_claims part_000 (only_claim_id "CLM-2024-5500")
      (after_two_receipts part_000) = reply 200 (json_claims rows)
    /\ ((forall c, c ∈ claims (db (after_two_receipts part_000)) ->
           claim_id c <> "CLM-2024-5500") -> rows = [])
    /\ (forall c, c ∈ claims (db (after_two_receipts part_000)) ->
          claim_id c = "CLM-2024-5500" -> map claim rows = [c]).
Proof.
  apply (lookup_by_claim_id part_000 "CLM-2024-5500"
           (after_two_receipts part_000)).
  - done.
  - apply (bool_decide_unpack _). by vm_compute.
Defined.

(** X11.  Approving or rejecting from the HR page: after a status update that was
    answered 200, the next unfiltered listing has the updated claim in the
    completed table and no claim of that id in the pending table, and every
    other claim is in the table it was in. *)
Theorem decided_claim_changes_table (v : variant) (now : Z) (cid : string)
    (s : option string) (w w' : world) (row : claim_row)
    (rows : list claim_with_documents) :
  patch_api_claims now cid s w = (w', reply 200 (json_claim row)) ->
  get_api_claims v all_claims w' = reply 200 (json_claims rows) ->
  row ∈ completedClaims (map claim rows)
  /\ (forall c, c ∈ map claim rows -> claim_id c = cid ->
        c ∈ completedClaims (map claim rows)
        /\ c ∉ pendingClaims (map claim rows))
  /\ (forall c, claim_id c <> cid ->
        (c ∈ pendingClaims (map claim rows)
         <-> c ∈ pendingClaims (claims (db w)))
        /\ (c ∈ completedClaims (map claim rows)
            <-> c ∈ completedClaims (claims (db w)))).
Proof.
  intros Hpatch Hget.
  destruct (listing_all v w') as (rows' & Hget' & Hperm).
  rewrite Hget in Hget'. injection Hget' as <-.
  unfold patch_api_claims in Hpatch.
  destruct (negb _) eqn:Hs;
    [by apply (f_equal (fun p => status (snd p))) in Hpatch|].
  apply negb_false_iff, terminal_includes in Hs.
  assert (Hst : str s ∈ ["approved"; "rejected"]).
  { destruct Hs as [-> | ->]; simpl; set_solver. }
  assert (Hnp : str s <> "pending").
  { destruct Hs as [-> | ->]; done. }
  pose proof (update_status_rows (str s) now cid (db w)) as Hmem.
  destruct (update_status (str s) now cid (db w)) as [db' upd] eqn:Hupd.
  simpl in Hmem.
  assert (Hrow : exists r, r ∈ claims (db w) /\ claim_id r = cid
                           /\ row = set_status (str s) now r).
  { destruct upd as [|r0 upd];
      [by apply (f_equal (fun p => status (snd p))) in Hpatch|].
    injection Hpatch as _ <-.
    unfold update_status in Hupd. injection Hupd as _ Hrows.
    assert (r0 ∈ map (set_status (str s) now)
              (filter (fun r => String.eqb (claim_id r) cid = true)
                 (claims (db w)))) as Hin by (rewrite Hrows; left).
    apply list_elem_of_fmap in Hin as (r & -> & Hr).
    apply list_elem_of_filter in Hr as [Hid Hr].
    apply String.eqb_eq in Hid. eauto. }
  assert (Hw' : claims (db w') = claims db').
  { destruct upd; by injection Hpatch as <- _. }
  assert (Hin : forall c, c ∈ map claim rows <->
            exists r, r ∈ claims (db w)
              /\ c = if String.eqb (claim_id r) cid
                     then set_status (str s) now r else r).
  { intros c. rewrite Hperm, Hw'. apply Hmem. }
  unfold pendingClaims, completedClaims.
  split; [|split].
  - apply list_elem_of_filter.
    destruct Hrow as (r & Hr & Hid & ->). split; [exact Hst|].
    apply Hin. exists r. split; [done|].
    apply String.eqb_eq in Hid. by rewrite Hid.
  - intros c Hc Hid. apply Hin in Hc as (r & Hr & ->).
    destruct (String.eqb_spec (claim_id r) cid) as [Heq|Hne];
      [|by destruct Hne].
    rewrite !list_elem_of_filter. split.
    + split; [exact Hst|]. apply Hin. exists r. split; [done|].
      apply String.eqb_eq in Heq. by rewrite Heq.
    + intros [Hp _]. by apply Hnp.
  - intros c Hne. rewrite !list_elem_of_filter, Hin.
    assert (Hc : (exists r, r ∈ claims (db w)
                    /\ c = if String.eqb (claim_id r) cid
                           then set_status (str s) now r else r)
                 <-> c ∈ claims (db w)).
    { split.
      - intros (r & Hr & ->).
        destruct (String.eqb_spec (claim_id r) cid) as [Heq|_];
          [by destruct Hne|done].
      - intros Hc. exists c. split; [done|].
        by destruct (String.eqb_spec (claim_id c) cid). }
    rewrite Hc. done.
Qed.

Lemma decided_claim_changes_table_witness :
  approved_claim ∈ completedClaims (map claim listed_approved)
  /\ (forall c, c ∈ map claim listed_approved ->
        claim_id c = "CLM-2024-5500" ->
        c ∈ completedClaims (map claim listed_approved)
        /\ c ∉ pendingClaims (map claim listed_approved))
  /\ (forall c, claim_id c <> "CLM-2024-5500" ->
        (c ∈ pendingClaims (map claim listed_approved)
         <-> c ∈ pendingClaims
                   (claims (db (after_two_receipts Backend_server_js))))
        /\ (c ∈ completedClaims (map claim listed_approved)
            <-> c ∈ completedClaims
                      (claims (db (after_two_receipts Backend_server_js))))).
Proof.
  apply (decided_claim_changes_table Backend_server_js (noon_2024_05_15 + 1000)
           "CLM-2024-5500" (Some "approved")
           (after_two_receipts Backend_server_js)
           (fst (patch_api_claims (noon_2024_05_15 + 1000) "CLM-2024-5500"
                   (Some "approved") (after_two_receipts Backend_server_js)))).
  - by vm_compute.
  - by vm_compute.
Defined.


(** *** Whole rupees add up exactly *)

Section WholeNumbers.
Local Open Scope Q_scope.

Lemma rhe_whole (x : Q) (k : Z) : x == inject_Z k -> round_half_even x = k.
Proof.
  intros Hx. unfold round_half_even.
  assert (Hf : Qfloor x = k) by (rewrite Hx; apply Qfloor_Z).
  rewrite Hf.
  assert (Hc : (x - inject_Z k ?= 1 # 2) = Lt).
  { assert (E : x - inject_Z k == 0) by (rewrite Hx; ring).
    by rewrite E. }
  by rewrite Hc.
Qed.

Lemma Qred_whole (n : Z) : Qred (inject_Z n) = inject_Z n.
Proof.
  unfold Qred, inject_Z.
  pose proof (Z.ggcd_gcd n 1) as Hg.
  pose proof (Z.ggcd_correct_divisors n 1) as Hd.
  destruct (Z.ggcd n 1) as [g [aa bb]]. simpl in *.
  rewrite Z.gcd_1_r in Hg. subst g. destruct Hd as [Ha Hb].
  assert (aa = n) as -> by lia. assert (bb = 1%Z) as -> by lia. done.
Qed.

(** A whole number below [2^53] is a binary64 float. *)
Lemma fl_whole (q : Q) (n : Z) :
  q == inject_Z n -> (0 <= n < 2 ^ 53)%Z -> fl q = Finite (inject_Z n).
Proof.
  intros Hq Hn. unfold fl.
  destruct (Z.eq_dec n 0%Z) as [->|Hn0].
  { assert ((q ?= 0) = Eq) as -> by (apply Qeq_alt; rewrite Hq; reflexivity).
    done. }
  assert (Hpos : 0 < q).
  { rewrite Hq. change 0 with (inject_Z 0). rewrite <- Zlt_Qlt. lia. }
  assert ((q ?= 0) = Gt) as -> by (by apply Qgt_alt).
  rewrite fl_pos_val.
  destruct (binade_spec q Hpos) as [Hb1 Hb2].
  assert (Hlt : q < 2 ^ 53).
  { rewrite Hq. rewrite <- (pow2_inject 53) by done. rewrite <- Zlt_Qlt. lia. }
  assert (He : (binade q < 53)%Z).
  { apply pow2_lt_inv. lra. }
  set (m := (- quantum q)%Z).
  assert (Hm : (0 <= m)%Z) by (unfold m, quantum; lia).
  assert (Hone : 2 ^ m * 2 ^ quantum q == 1).
  { rewrite <- Qpower_plus by done. unfold m.
    replace (- quantum q + quantum q)%Z with 0%Z by lia. reflexivity. }
  pose proof (pow2_pos (quantum q)) as Hp.
  assert (Hscaled : q / 2 ^ quantum q == inject_Z (n * 2 ^ m)).
  { rewrite inject_Z_mult, pow2_inject by done. rewrite <- Hq.
    apply Qmult_inj_r with (z := 2 ^ quantum q); [lra|].
    unfold Qdiv. rewrite <- !Qmult_assoc, Hone.
    rewrite (Qmult_comm (/ _)), Qmult_inv_r by lra. reflexivity. }
  assert (Hval : fl_val q == inject_Z n).
  { unfold fl_val. rewrite (rhe_whole _ _ Hscaled).
    rewrite inject_Z_mult, pow2_inject by done.
    rewrite <- Qmult_assoc, Hone. ring. }
  assert (Qle_bool (2 ^ 1024) (fl_val q) = false) as ->.
  { apply not_true_iff_false. rewrite Qle_bool_iff, Hval, <- Hq.
    assert (2 ^ 53 <= 2 ^ 1024) by (by apply pow2_le). lra. }
  f_equal. rewrite (Qred_complete _ _ Hval). apply Qred_whole.
Qed.

(** The sum of two whole numbers is exact while it stays below [2^53]. *)
Lemma num_add_whole (a b : Z) :
  (0 <= a + b < 2 ^ 53)%Z ->
  num_add (Finite (inject_Z a)) (Finite (inject_Z b))
  = Finite (inject_Z (a + b)).
Proof.
  intros H. simpl. apply fl_whole; [|done]. by rewrite inject_Z_plus.
Qed.

End WholeNumbers.


(** *** The totals of the HR page *)

Lemma in_CLAIM_TYPES (t : string) :
  t ∈ CLAIM_TYPES ->
  t = "Medical" \/ t = "Travel" \/ t = "Education" \/ t = "Meal"
  \/ t = "Equipment" \/ t = "Other".
Proof.
  unfold CLAIM_TYPES. rewrite !elem_of_cons, elem_of_nil. tauto.
Qed.

Lemma totals_of_ext (g g' : string -> Z) :
  (forall t, t ∈ CLAIM_TYPES -> g t = g' t) -> totals_of g = totals_of g'.
Proof.
  intros H. unfold totals_of. apply map_ext_in. intros t Ht.
  by rewrite H by by apply list_elem_of_In.
Qed.

Lemma add_assign_totals (key : string) (x : Z) (g : string -> Z) :
  key ∈ CLAIM_TYPES -> 0 <= g key + x < 2 ^ 53 ->
  add_assign key (Finite (inject_Z x)) (totals_of g)
  = totals_of (fun t => if String.eqb t key then g t + x else g t).
Proof.
  intros Hkey Hb. apply in_CLAIM_TYPES in Hkey.
  unfold add_assign, totals_of, CLAIM_TYPES.
  destruct Hkey as [-> | [-> | [-> | [-> | [-> | ->]]]]];
    cbn [map get set String.eqb Ascii.eqb Bool.eqb default from_option id];
    by rewrite num_add_whole.
Qed.

Lemma get_totals (t : string) (g : string -> Z) :
  t ∈ CLAIM_TYPES -> get t (totals_of g) = Some (Finite (inject_Z (g t))).
Proof.
  intros Ht. apply in_CLAIM_TYPES in Ht.
  by destruct Ht as [-> | [-> | [-> | [-> | [-> | ->]]]]].
Qed.

Lemma total_totals (g : string -> Z) :
  (forall t, 0 <= g t) -> Zsum (map g CLAIM_TYPES) < 2 ^ 53 ->
  total (totals_of g) = Finite (inject_Z (Zsum (map g CLAIM_TYPES))).
Proof.
  intros Hg Hsum. unfold total, totals_of, CLAIM_TYPES in *. simpl in Hsum.
  cbn [map snd foldl Zsum foldr].
  pose proof (Hg "Medical"). pose proof (Hg "Travel").
  pose proof (Hg "Education"). pose proof (Hg "Meal").
  pose proof (Hg "Equipment"). pose proof (Hg "Other").
  change (Finite 0) with (Finite (inject_Z 0)).
  rewrite !num_add_whole by lia. do 2 f_equal. lia.
Qed.

Lemma counted_under_type (c : claim_row) : counted_under c ∈ CLAIM_TYPES.
Proof.
  unfold counted_under. destruct (bool_decide_reflect (Pg.type c ∈ CLAIM_TYPES));
    [done|]. unfold CLAIM_TYPES. rewrite !elem_of_cons. auto 10.
Qed.

Lemma counted_cons (t : string) (c : claim_row) (cs : list claim_row) :
  counted t (c :: cs)
  = (if String.eqb t (counted_under c) then rupees c else 0) + counted t cs.
Proof.
  unfold counted.
  destruct (String.eqb_spec t (counted_under c)) as [->|Hne].
  - by rewrite filter_cons_True.
  - by rewrite filter_cons_False by done.
Qed.

Lemma sum_by_type (cs : list claim_row) :
  Zsum (map (fun t => counted t cs) CLAIM_TYPES) = Zsum (map rupees cs).
Proof.
  induction cs as [|c cs IH]; [done|].
  simpl (Zsum (map rupees _)). rewrite <- IH.
  unfold CLAIM_TYPES. cbn [map Zsum foldr]. rewrite !counted_cons.
  destruct (in_CLAIM_TYPES _ (counted_under_type c))
    as [-> | [-> | [-> | [-> | [-> | ->]]]]]; simpl; lia.
Qed.

Lemma rupees_floor (c : claim_row) :
  countable_amount c ->
  Math_floor (Pg.amount c) = Finite (inject_Z (rupees c)) /\ 0 <= rupees c.
Proof.
  intros (q & Hq & H0). unfold rupees. rewrite Hq. simpl. split; [done|].
  apply Qfloor_resp_le in H0. exact H0.
Qed.

Lemma counted_nonneg (t : string) (cs : list claim_row) :
  Forall countable_amount cs -> 0 <= counted t cs.
Proof.
  induction 1 as [|c cs Hc _ IH]; [done|]. rewrite counted_cons.
  destruct (rupees_floor c Hc) as [_ ?]. destruct (String.eqb _ _); lia.
Qed.

Lemma typeTotals_from (g : string -> Z) (cs : list claim_row) :
  Forall countable_amount cs ->
  (forall t, 0 <= g t) ->
  (forall t, g t + Zsum (map rupees cs) < 2 ^ 53) ->
  foldl (fun totals claim =>
           if bool_decide (Pg.type claim ∈ CLAIM_TYPES)
           then add_assign (Pg.type claim) (Math_floor (Pg.amount claim)) totals
           else add_assign "Other" (Math_floor (Pg.amount claim)) totals)
        (totals_of g) cs
  = totals_of (fun t => g t + counted t cs).
Proof.
  intros Hcs. revert g. induction Hcs as [|c cs Hc Hcs IH]; intros g Hg Hb.
  - simpl. apply totals_of_ext. intros t _. unfold counted. simpl. lia.
  - cbn [foldl]. destruct (rupees_floor c Hc) as [Hfl Hr].
    assert (Hstep : (if bool_decide (Pg.type c ∈ CLAIM_TYPES)
                     then add_assign (Pg.type c) (Math_floor (Pg.amount c))
                            (totals_of g)
                     else add_assign "Other" (Math_floor (Pg.amount c))
                            (totals_of g))
                    = add_assign (counted_under c)
                        (Finite (inject_Z (rupees c))) (totals_of g)).
    { rewrite Hfl. unfold counted_under. by destruct (bool_decide _). }
    rewrite Hstep. simpl in Hb.
    assert (Hsum : 0 <= Zsum (map rupees cs)).
    { clear -Hcs. induction Hcs as [|x xs Hx _ IH]; [done|]. simpl.
      destruct (rupees_floor x Hx). lia. }
    rewrite add_assign_totals;
      [|apply counted_under_type
       |specialize (Hg (counted_under c)); specialize (Hb (counted_under c)); lia].
    rewrite IH.
    + apply totals_of_ext. intros t _. rewrite counted_cons.
      destruct (String.eqb t (counted_under c)); lia.
    + intros t. specialize (Hg t). destruct (String.eqb _ _); lia.
    + intros t. specialize (Hg t). specialize (Hb t).
      destruct (String.eqb _ _); lia.
Qed.

Lemma typeTotals_counted (cs : list claim_row) :
  Forall countable_amount cs ->
  Zsum (map rupees cs) < 2 ^ 53 ->
  typeTotals cs = totals_of (fun t => counted t cs).
Proof.
  intros Hcs Hsum. unfold typeTotals.
  change zero_totals with (totals_of (fun _ => 0)).
  rewrite typeTotals_from; [|done|done|intros; lia].
  by apply totals_of_ext.
Qed.

(** X12.  The summary the HR page shows for a list of claims whose amounts are
    numbers that are not negative and add up to less than [2^53]: the total
    is the sum of the whole rupees of all the claims, and the amount shown
    for each type is the sum over the claims counted under it, a claim of an
    unlisted type being counted under Other.  No rounding error enters, and
    the total is the sum of the six amounts. *)
Theorem summary_counts_every_claim (cs : list claim_row) :
  Forall countable_amount cs ->
  Zsum (map rupees cs) < 2 ^ 53 ->
  total_amount (summarize cs) = Finite (inject_Z (Zsum (map rupees cs)))
  /\ by_type (summarize cs)
     = map (fun t => (t, Finite (inject_Z (counted t cs)))) CLAIM_TYPES
  /\ Zsum (map (fun t => counted t cs) CLAIM_TYPES) = Zsum (map rupees cs).
Proof.
  intros Hcs Hsum.
  split; [|split; [|apply sum_by_type]].
  - unfold summarize. destruct cs as [|c cs]; [done|].
    cbn [length Nat.eqb total_amount].
    rewrite typeTotals_counted by done.
    rewrite total_totals.
    + by rewrite sum_by_type.
    + intros t. by apply counted_nonneg.
    + by rewrite sum_by_type.
  - unfold summarize. destruct cs as [|c cs]; [done|].
    cbn [length Nat.eqb by_type].
    rewrite typeTotals_counted by done.
    apply map_ext_in. intros t Ht. apply list_elem_of_In in Ht.
    by rewrite get_totals.
Qed.


(** *** Amounts with text after the number *)

Lemma digit_not_special (c : ascii) :
  is_digit c = true ->
  is_white c = false /\ c <> "-"%char /\ c <> "+"%char /\ c <> "I"%char.
Proof.
  intros Hc. repeat split; try (intros ->; done).
  destruct c as [[] [] [] [] [] [] [] []]; done.
Qed.

Lemma take_digits_then (ds rest : string) (acc n : Z) :
  all_digits ds -> not_numeric rest ->
  take_digits (ds ++ rest)%string acc n
  = (fst (fst (take_digits ds acc n)), snd (fst (take_digits ds acc n)), rest).
Proof.
  revert acc n. induction ds as [|c ds IH]; intros acc n Hds Hrest.
  - change ("" ++ rest)%string with rest. simpl.
    destruct rest as [|c rest]; [done|]. simpl.
    destruct Hrest as (-> & _). done.
  - apply Forall_cons in Hds as [Hc Hds].
    change (String c ds ++ rest)%string with (String c (ds ++ rest)%string).
    simpl. rewrite Hc. by apply IH.
Qed.

Lemma take_digits_count (ds : string) (acc n : Z) :
  all_digits ds ->
  snd (fst (take_digits ds acc n)) = n + Z.of_nat (String.length ds)
  /\ snd (take_digits ds acc n) = "".
Proof.
  revert acc n. induction ds as [|c ds IH]; intros acc n Hds; simpl.
  - split; [lia|done].
  - apply Forall_cons in Hds as [Hc Hds]. rewrite Hc.
    destruct (IH (10 * acc + digit_val c) (n + 1) Hds) as [-> ->].
    split; [lia|done].
Qed.

(** [parseFloat] stops at the first character that cannot continue the
    number: what follows a run of digits is not read. *)
Lemma parseFloat_digits_then (ds rest : string) :
  ds <> "" -> all_digits ds -> not_numeric rest ->
  parseFloat (ds ++ rest) = parseFloat ds.
Proof.
  intros Hne Hds Hrest.
  assert (Hgen : forall r, not_numeric r ->
            parseFloat (ds ++ r)
            = fl (inject_Z (fst (fst (take_digits ds 0 0))) * 10 ^ 0)%Q).
  { intros r Hr. unfold parseFloat.
    destruct ds as [|c ds]; [done|].
    pose proof Hds as Hds'. apply Forall_cons in Hds' as [Hc _].
    destruct (digit_not_special c Hc) as (Hw & Hm & Hp & Hi).
    change (String c ds ++ r)%string with (String c (ds ++ r)%string).
    cbn [trimStart]. rewrite Hw.
    assert (strip_sign (String c (ds ++ r)) = (false, String c (ds ++ r)))
      as ->.
    { unfold strip_sign. clear -Hc.
      destruct c as [[] [] [] [] [] [] [] []]; done. }
    assert (String.prefix "Infinity" (String c (ds ++ r)) = false) as ->.
    { clear -Hc. destruct c as [[] [] [] [] [] [] [] []]; done. }
    change (String c (ds ++ r)%string) with (String c ds ++ r)%string.
    rewrite take_digits_then by done.
    destruct (take_digits_count (String c ds) 0 0 Hds) as [Hcount _].
    set (ip := fst (fst (take_digits (String c ds) 0 0))) in *.
    set (ni := snd (fst (take_digits (String c ds) 0 0))) in *.
    assert (Hni : (ni =? 0)%Z = false).
    { apply Z.eqb_neq. rewrite Hcount. simpl String.length. lia. }
    assert (Hs1 : match r with
                  | String "." s' => take_digits s' ip 0
                  | _ => (ip, 0, r)
                  end = (ip, 0, r)).
    { destruct r as [|x r]; [done|]. destruct Hr as (_ & Hdot & _).
      destruct x as [[] [] [] [] [] [] [] []]; done. }
    rewrite Hs1, Hni. simpl andb. cbv iota.
    assert (exponent_part r = 0) as ->.
    { destruct r as [|x r]; [done|]. destruct Hr as (_ & _ & He1 & He2).
      unfold exponent_part.
      apply Ascii.eqb_neq in He1, He2. by rewrite He1, He2. }
    reflexivity. }
  rewrite (Hgen rest Hrest).
  rewrite <- (string_app_nil_r ds) at 2. by rewrite (Hgen "").
Qed.


(** X13.  An amount with text after its digits is handled as the digits alone:
    the handler, on either copy of the server, gives the same reply and
    leaves the same tables and files whether the amount is sent as a run of
    digits or as those digits followed by text that cannot continue a
    number (so [12,500] is taken as 12). *)
Theorem amount_text_after_number (v : variant) (h : host) (e : engine)
    (now : Z) (random : number) (f : claim_form) (files : list part)
    (w : world) (ds rest : string) :
  ds <> "" -> all_digits ds -> not_numeric rest ->
  submit v h e now random (with_amount f (Some (ds ++ rest)%string)) files w
  = submit v h e now random (with_amount f (Some ds)) files w.
Proof.
  intros Hne Hds Hrest.
  pose proof (parseFloat_digits_then ds rest Hne Hds Hrest) as Hpf.
  assert (Hfalsy : falsy (Some (ds ++ rest)%string) = falsy (Some ds)).
  { destruct ds; [by destruct Hne|reflexivity]. }
  assert (Hval : validate h now (with_amount f (Some (ds ++ rest)%string)) files
                 = validate h now (with_amount f (Some ds)) files).
  { unfold validate, with_amount.
    cbn [empName empEmail empId Server.department claimDate Server.amount
         Server.description Server.type].
    rewrite Hfalsy.
    change (str (Some (ds ++ rest)%string)) with (ds ++ rest)%string.
    change (str (Some ds)) with ds. by rewrite Hpf. }
  assert (Hrow : forall cid,
            claim_values cid now (with_amount f (Some (ds ++ rest)%string))
            = claim_values cid now (with_amount f (Some ds))).
  { intros cid. unfold claim_values, with_amount.
    cbn [empName empEmail empId Server.department claimDate Server.amount
         Server.description Server.type].
    change (str (Some (ds ++ rest)%string)) with (ds ++ rest)%string.
    change (str (Some ds)) with ds. by rewrite Hpf. }
  unfold submit. rewrite Hval.
  destruct (validate h now (with_amount f (Some ds)) files); [done|].
  cbv zeta. by rewrite Hrow.
Qed.

Lemma amount_text_after_number_witness :
  submit part_000 utc schema noon_2024_05_15 half
    (with_amount (form_ok "2024-05-15") (Some ("12" ++ ",500")%string))
    [pdf "1"] (stored [pdf "1"] w0)
  = submit part_000 utc schema noon_2024_05_15 half
      (with_amount (form_ok "2024-05-15") (Some "12"))
      [pdf "1"] (stored [pdf "1"] w0).
Proof.
  apply (amount_text_after_number part_000 utc schema noon_2024_05_15 half
           (form_ok "2024-05-15") [pdf "1"] (stored [pdf "1"] w0) "12" ",500").
  - done.
  - by repeat constructor.
  - by vm_compute.
Defined.

(** *** The date check on its own *)




Lemma summary_counts_every_claim_witness :
  total_amount (summarize mixed_claims)
  = Finite (inject_Z (Zsum (map rupees mixed_claims)))
  /\ by_type (summarize mixed_claims)
     = map (fun t => (t, Finite (inject_Z (counted t mixed_claims)))) CLAIM_TYPES
  /\ Zsum (map (fun t => counted t mixed_claims) CLAIM_TYPES)
     = Zsum (map rupees mixed_claims).
Proof.
  apply (summary_counts_every_claim mixed_claims).
  - repeat constructor; (eexists; split; [by vm_compute|by vm_compute]).
  - by vm_compute.
Defined.

(** *** What the upload turns away *)

Lemma fileFilter_allowed (f : part) :
  fileFilter f = None <-> allowed_type f.
Proof.
  unfold fileFilter, allowed_type.
  destruct (existsb _ _) eqn:Hex.
  - split; [intros _|done]. apply existsb_exists in Hex as (x & Hx & Heq).
    apply String.eqb_eq in Heq. rewrite Heq. by apply list_elem_of_In.
  - split; [done|]. intros Hin. apply list_elem_of_In in Hin.
    assert (existsb (String.eqb (mimetype f))
              ["application/pdf"; "image/jpeg"; "image/png"] = true) as Ht.
    { apply existsb_exists. exists (mimetype f). split; [done|].
      apply String.eqb_refl. }
    congruence.
Qed.

Lemma receive_outcome (n : nat) (ps : list part) (d : file_system) :
  Forall (fun f => fieldname f = "documents") ps ->
  (length ps <= n)%nat ->
  (Forall (fun f => size f < fileSize) ps ->
   Exists (fun f => ~ allowed_type f) ps ->
   receive "documents" n ps d
   = inl (filter_error "Only PDF, JPG, and PNG files are allowed"))
  /\ (Forall allowed_type ps ->
      Exists (fun f => fileSize <= size f) ps ->
      receive "documents" n ps d = inl LIMIT_FILE_SIZE)
  /\ (Forall allowed_type ps ->
      Forall (fun f => size f < fileSize) ps ->
      receive "documents" n ps d
      = inr (foldl (fun d f => writeFile (path f) (content f) d) d ps)).
Proof.
  intros Hnames. revert n d.
  induction Hnames as [|f ps Hf _ IH]; intros n d Hlen.
  - split; [|split].
    + intros _ H. by apply Exists_nil in H.
    + intros _ H. by apply Exists_nil in H.
    + done.
  - simpl in Hlen. destruct n as [|n]; [lia|].
    destruct (IH n (writeFile (path f) (content f) d)) as (IH1 & IH2 & IH3);
      [lia|].
    cbn [receive]. rewrite Hf. cbn [String.eqb Ascii.eqb Bool.eqb negb].
    split; [|split].
    + intros Hsize Hex. apply Forall_cons in Hsize as [Hs Hsize].
      destruct (fileFilter f) as [err|] eqn:Hff.
      * unfold fileFilter in Hff. destruct (existsb _ _); [done|].
        by injection Hff as <-.
      * apply fileFilter_allowed in Hff.
        apply Exists_cons in Hex as [Hex|Hex]; [done|].
        destruct (Z.leb_spec fileSize (size f)); [lia|]. by apply IH1.
    + intros Hall Hex. apply Forall_cons in Hall as [Ha Hall].
      apply fileFilter_allowed in Ha. rewrite Ha.
      destruct (Z.leb_spec fileSize (size f)); [done|].
      apply Exists_cons in Hex as [Hex|Hex]; [lia|]. by apply IH2.
    + intros Hall Hsize. apply Forall_cons in Hall as [Ha Hall].
      apply Forall_cons in Hsize as [Hs Hsize].
      apply fileFilter_allowed in Ha. rewrite Ha.
      destruct (Z.leb_spec fileSize (size f)); [lia|]. by apply IH3.
Qed.

(** X15.  What becomes of an upload of at most five files, all sent in the field
    [documents], on either copy of the server, as long as the disk takes
    every file that is written (the file store of the model always does).
    When every file is smaller than 5 MiB (5,242,880 bytes) and one is not a
    PDF, a JPEG or a PNG, the reply is a 400 with the text about the allowed
    types; when every file is of an allowed type and one has 5 MiB or more,
    a file of exactly 5,242,880 bytes included, the reply is a 400 with the
    text about the size; in both cases the tables and the disk are as
    before.  When every file is of an allowed type and smaller than 5 MiB,
    the files are written to the disk and the handler runs on them. *)
Theorem upload_outcomes (v : variant) (h : host) (e : engine) (now : Z)
    (random : number) (req : submission) (w : world) :
  Forall (fun f => fieldname f = "documents") (parts req) ->
  (length (parts req) <= 5)%nat ->
  (Forall (fun f => size f < fileSize) (parts req) ->
   Exists (fun f => ~ allowed_type f) (parts req) ->
   post_api_claims v h e now random req w
   = (w, reply 400 (json_error "Only PDF, JPG, and PNG files are allowed")))
  /\ (Forall allowed_type (parts req) ->
      Exists (fun f => fileSize <= size f) (parts req) ->
      post_api_claims v h e now random req w
      = (w, reply 400 (json_error "File size exceeds 5MB limit")))
  /\ (Forall allowed_type (parts req) ->
      Forall (fun f => size f < fileSize) (parts req) ->
      post_api_claims v h e now random req w
      = submit v h e now random (form req) (parts req) (stored (parts req) w)).
Proof.
  intros Hnames Hlen.
  destruct (receive_outcome 5 (parts req) (disk w) Hnames Hlen)
    as (H1 & H2 & H3).
  unfold post_api_claims, Multer.array. split; [|split].
  - intros Hs Hex. by rewrite H1.
  - intros Ha Hex. by rewrite H2.
  - intros Ha Hs. by rewrite H3.
Qed.

Lemma upload_outcomes_witness :
  (Forall (fun f => size f < fileSize) (parts with_text_file) ->
   Exists (fun f => ~ allowed_type f) (parts with_text_file) ->
   post_api_claims part_000 utc schema noon_2024_05_15 half with_text_file w0
   = (w0, reply 400 (json_error "Only PDF, JPG, and PNG files are allowed")))
  /\ (Forall allowed_type (parts with_text_file) ->
      Exists (fun f => fileSize <= size f) (parts with_text_file) ->
      post_api_claims part_000 utc schema noon_2024_05_15 half with_text_file w0
      = (w0, reply 400 (json_error "File size exceeds 5MB limit")))
  /\ (Forall allowed_type (parts with_text_file) ->
      Forall (fun f => size f < fileSize) (parts with_text_file) ->
      post_api_claims part_000 utc schema noon_2024_05_15 half with_text_file w0
      = submit part_000 utc schema noon_2024_05_15 half (form with_text_file)
          (parts with_text_file) (stored (parts with_text_file) w0)).
Proof.
  apply (upload_outcomes part_000 utc schema noon_2024_05_15 half
           with_text_file w0).
  - by repeat constructor.
  - simpl. lia.
Defined.

(** *** The date window at a concrete date *)


(** *** Amounts written as decimal literals *)

Import Decimal.

Section RoundingOfEqualValues.
Local Open Scope Q_scope.

Lemma binade_unique (q : Q) (e : Z) :
  0 < q -> 2 ^ e <= q -> q < 2 ^ (e + 1) -> binade q = e.
Proof.
  intros Hq Hlo Hhi. destruct (binade_spec q Hq) as [H1 H2].
  assert (Ha : 2 ^ binade q < 2 ^ (e + 1)) by lra.
  assert (Hb : 2 ^ e < 2 ^ (binade q + 1)) by lra.
  apply pow2_lt_inv in Ha, Hb. lia.
Qed.

Lemma binade_comp (x y : Q) : 0 < x -> x == y -> binade x = binade y.
Proof.
  intros Hx Hxy. destruct (binade_spec x Hx) as [H1 H2].
  symmetry. apply binade_unique; lra.
Qed.

Lemma rhe_comp (x y : Q) : x == y -> round_half_even x = round_half_even y.
Proof.
  intros Hxy. unfold round_half_even.
  assert (Hf : Qfloor x = Qfloor y) by (by rewrite Hxy).
  rewrite Hf.
  assert (Hc : (x - inject_Z (Qfloor y) ?= 1 # 2)
               = (y - inject_Z (Qfloor y) ?= 1 # 2)) by (by rewrite Hxy).
  by rewrite Hc.
Qed.

Lemma fl_val_comp (x y : Q) : 0 < x -> x == y -> fl_val x == fl_val y.
Proof.
  intros Hx Hxy. unfold fl_val, quantum.
  rewrite (binade_comp x y Hx Hxy).
  rewrite (rhe_comp (x / 2 ^ (Z.max (binade y) (-1022) - 52))
             (y / 2 ^ (Z.max (binade y) (-1022) - 52))); [reflexivity|].
  by rewrite Hxy.
Qed.

Lemma fl_pos_comp (x y : Q) : 0 < x -> x == y -> fl_pos x = fl_pos y.
Proof.
  intros Hx Hxy. pose proof (fl_val_comp x y Hx Hxy) as Hv.
  rewrite !fl_pos_val.
  assert (Hb : Qle_bool (2 ^ 1024) (fl_val x) = Qle_bool (2 ^ 1024) (fl_val y)).
  { destruct (Qle_bool (2 ^ 1024) (fl_val y)) eqn:Hy.
    - apply Qle_bool_iff. apply Qle_bool_iff in Hy. by rewrite Hv.
    - apply not_true_iff_false. intros H. apply Qle_bool_iff in H.
      rewrite Hv in H. apply Qle_bool_iff in H. congruence. }
  rewrite Hb. destruct (Qle_bool (2 ^ 1024) (fl_val y)); [reflexivity|].
  f_equal. by apply Qred_complete.
Qed.

(** Rounding depends on the value only, not on the fraction that gives
    it. *)
Lemma fl_comp (x y : Q) : x == y -> fl x = fl y.
Proof.
  intros Hxy. unfold fl.
  assert (Hc : (x ?= 0) = (y ?= 0)) by (by rewrite Hxy).
  rewrite <- Hc. destruct (x ?= 0) eqn:Cx.
  - done.
  - apply Qlt_alt in Cx. f_equal. apply fl_pos_comp; [lra|by rewrite Hxy].
  - apply Qgt_alt in Cx. by apply fl_pos_comp.
Qed.

End RoundingOfEqualValues.

Section AmountBounds.
Local Open Scope Q_scope.

Lemma rhe_above_half (x : Q) (k : Z) :
  inject_Z k + (1 # 2) < x -> (k + 1 <= round_half_even x)%Z.
Proof.
  intros Hx.
  assert (Hk : (k <= Qfloor x)%Z).
  { assert (inject_Z k <= x) as H by lra.
    apply Qfloor_resp_le in H. by rewrite Qfloor_Z in H. }
  destruct (Z.eq_dec (Qfloor x) k) as [Heq|Hne].
  - unfold round_half_even. rewrite Heq.
    assert ((x - inject_Z k ?= 1 # 2) = Gt) as ->; [|lia].
    apply Qgt_alt. lra.
  - destruct (rhe_cases x) as [-> | [-> _]]; lia.
Qed.

(** The amount test of the handler on the number [x]. *)
Lemma amount_test_false (x : number) :
  isNaN x || num_le x (Finite 0) || num_gt x (Finite 50000) = false
  <-> exists y, x = Finite y /\ 0 < y /\ y <= 50000.
Proof.
  destruct x as [|[]|y]; simpl.
  - split; [done | by intros (y & [=] & _)].
  - split; [done | by intros (y & [=] & _)].
  - split; [done | by intros (y & [=] & _)].
  - rewrite orb_false_iff, negb_false_iff.
    rewrite <- not_true_iff_false, !Qle_bool_iff. split.
    + intros [H1 H2]. exists y. split; [done|]. split; [|done].
      by apply Qnot_le_lt.
    + intros (y' & [= <-] & H1 & H2). split; [|done]. by apply Qlt_not_le.
Qed.

Lemma fl_of_negative (q : Q) : q < 0 -> num_le (fl q) (Finite 0) = true.
Proof.
  intros Hq. unfold fl.
  assert ((q ?= 0) = Lt) as -> by (by apply Qlt_alt).
  rewrite fl_pos_val.
  destruct (Qle_bool (2 ^ 1024) (fl_val (- q))); [done|].
  simpl. apply Qle_bool_iff. rewrite Qred_correct, Qred_correct.
  assert (0 <= fl_val (- q)) by (apply fl_val_pos; lra). lra.
Qed.

Lemma fl_least_amount : fl least_amount = Finite 0.
Proof. by vm_compute. Qed.

Lemma fl_most_amount : fl most_amount = Finite 50000.
Proof. by vm_compute. Qed.

Lemma amount_too_small (q : Q) :
  q <= least_amount -> num_le (fl q) (Finite 0) = true.
Proof.
  intros Hq. destruct (Qlt_le_dec q 0) as [Hneg|Hpos].
  - by apply fl_of_negative.
  - rewrite <- fl_least_amount. by apply fl_mono.
Qed.

Lemma fl_65536 : fl 65536 = Finite 65536.
Proof. by vm_compute. Qed.

Lemma amount_too_large (q : Q) :
  most_amount < q -> num_gt (fl q) (Finite 50000) = true.
Proof.
  intros Hq.
  assert (Hmost : most_amount == 50000 + (1 # 274877906944)) by (by vm_compute).
  destruct (Qlt_le_dec q 65536) as [Hlt|Hge].
  - assert (Hpos : 0 < q) by lra.
    assert (Hbin : binade q = 15%Z).
    { apply binade_unique; [done| |].
      - change (2 ^ 15) with 32768. lra.
      - change (2 ^ (15 + 1)) with 65536. lra. }
    assert (Hv : 50000 + (1 # 137438953472) <= fl_val q).
    { unfold fl_val, quantum. rewrite Hbin.
      change (Z.max 15 (-1022) - 52)%Z with (-37)%Z.
      assert (HP : 2 ^ (-37) == 1 # 137438953472) by (by vm_compute).
      assert (Hk : (6871947673600000 + 1
                    <= round_half_even (q / 2 ^ (-37)))%Z).
      { apply rhe_above_half. apply Qlt_shift_div_l; [apply pow2_pos|].
        rewrite HP.
        assert ((inject_Z 6871947673600000 + (1 # 2)) * (1 # 137438953472)
                == 50000 + (1 # 274877906944)) as -> by (by vm_compute).
        lra. }
      rewrite Zle_Qle in Hk.
      change (inject_Z (6871947673600000 + 1)) with 6871947673600001 in Hk.
      set (r := inject_Z (round_half_even _)) in *. clearbody r.
      rewrite HP. lra. }
    unfold fl. assert ((q ?= 0) = Gt) as -> by (by apply Qgt_alt).
    rewrite fl_pos_val. destruct (Qle_bool (2 ^ 1024) (fl_val q)); [done|].
    simpl. apply negb_true_iff, not_true_iff_false. intros H.
    apply Qle_bool_iff in H. rewrite Qred_correct in H. lra.
  - pose proof (fl_mono 65536 q ltac:(lra) Hge) as Hm.
    rewrite fl_65536 in Hm.
    destruct (fl q) as [|[]|y]; simpl in *; try done.
    apply negb_true_iff, not_true_iff_false. intros H.
    apply Qle_bool_iff in H, Hm. lra.
Qed.

Lemma amount_in_range (q : Q) :
  least_amount < q -> q <= most_amount ->
  exists y, fl q = Finite y /\ 0 < y /\ y <= 50000.
Proof.
  intros Hlo Hhi.
  assert (Hleast : 0 < least_amount) by (by vm_compute).
  destruct (Qlt_le_dec q ((1 # 2) ^ 1074)) as [Hlt|Hge].
  - assert (Hpos : 0 < q) by lra.
    assert (Htiny : (1 # 2) ^ 1074 == 2 ^ (-1074)) by (by vm_compute).
    assert (Hhalf : (1 # 2) * 2 ^ (-1074) == least_amount) by (by vm_compute).
    assert (Hbig : 2 ^ (-1074) < 2 ^ 1024) by (by vm_compute).
    assert (Hsmall : 2 ^ (-1074) <= 50000) by (by vm_compute).
    pose proof (pow2_pos (-1074)) as HP.
    assert (Hq : quantum q = (-1074)%Z).
    { destruct (binade_spec q Hpos) as [H1 _].
      assert (2 ^ binade q < 2 ^ (-1074)) as H by lra.
      apply pow2_lt_inv in H. unfold quantum. lia. }
    assert (Hv : fl_val q == 2 ^ (-1074)).
    { unfold fl_val. rewrite Hq.
      assert (round_half_even (q / 2 ^ (-1074)) = 1%Z) as ->.
      { assert (1 <= round_half_even (q / 2 ^ (-1074)))%Z.
        { apply (rhe_above_half _ 0). apply Qlt_shift_div_l; [done|].
          change (inject_Z 0) with 0. lra. }
        assert (round_half_even (q / 2 ^ (-1074)) <= 1)%Z.
        { apply rhe_le. apply Qle_shift_div_r; [done|].
          change (inject_Z 1) with 1. lra. }
        lia. }
      change (inject_Z 1) with 1. ring. }
    unfold fl. assert ((q ?= 0) = Gt) as -> by (by apply Qgt_alt).
    rewrite fl_pos_val.
    assert (Qle_bool (2 ^ 1024) (fl_val q) = false) as ->.
    { apply not_true_iff_false. intros H. apply Qle_bool_iff in H. lra. }
    eexists. split; [reflexivity|]. rewrite Qred_correct. lra.
  - assert (exists a, fl ((1 # 2) ^ 1074) = Finite a /\ 0 < a) as (a & Ha & Hapos).
    { eexists. split; [by vm_compute | by vm_compute]. }
    destruct (fl_between q ((1 # 2) ^ 1074) most_amount a 50000)
      as (y & Hy & Hy1 & Hy2); [by vm_compute|done|done|done| |].
    + apply fl_most_amount.
    + exists y. split; [done|]. split; [lra|done].
Qed.

(** The amount test of the handler on the rounding of [q]: it passes
    exactly between the two bounds. *)
Lemma amount_test_value (q : Q) :
  isNaN (fl q) || num_le (fl q) (Finite 0) || num_gt (fl q) (Finite 50000)
  = false
  <-> least_amount < q /\ q <= most_amount.
Proof.
  split.
  - intros Hpass.
    apply orb_false_iff in Hpass as [Hpass Hgt].
    apply orb_false_iff in Hpass as [_ Hle].
    split.
    + destruct (Qlt_le_dec least_amount q) as [|Hsmall]; [done|].
      apply amount_too_small in Hsmall. congruence.
    + destruct (Qlt_le_dec most_amount q) as [Hlarge|]; [|done].
      apply amount_too_large in Hlarge. congruence.
  - intros [Hlo Hhi]. apply amount_test_false. by apply amount_in_range.
Qed.

End AmountBounds.

Section LiteralParsing.

Lemma digit_text_spec (d : Z) :
  is_digit_value d = true ->
  is_digit (digit_text d) = true /\ digit_val (digit_text d) = d.
Proof.
  unfold is_digit_value. intros H. apply andb_prop in H as [H1 H2].
  apply Z.leb_le in H1, H2.
  assert (d = 0 \/ d = 1 \/ d = 2 \/ d = 3 \/ d = 4 \/ d = 5 \/ d = 6
          \/ d = 7 \/ d = 8 \/ d = 9) as Hd by lia.
  repeat (destruct Hd as [-> | Hd]; [by vm_compute|]). subst. by vm_compute.
Qed.

Lemma take_digits_text (ds : list Z) (tail : string) (acc n : Z) :
  forallb is_digit_value ds = true -> ends_digits tail ->
  take_digits (digits_text ds ++ tail) acc n
  = (acc * 10 ^ Z.of_nat (length ds) + digits_number ds,
     n + Z.of_nat (length ds), tail).
Proof.
  intros Hds Htail. revert acc n.
  induction ds as [|d ds IH]; intros acc n.
  - change (digits_text [] ++ tail)%string with tail.
    cbn [length digits_number Z.of_nat].
    rewrite Z.pow_0_r, Z.mul_1_r, !Z.add_0_r.
    destruct tail as [|c tail]; [done|]. simpl in Htail |- *. by rewrite Htail.
  - simpl in Hds. apply andb_prop in Hds as [Hd Hds].
    change (digits_text (d :: ds) ++ tail)%string
      with (String (digit_text d) (digits_text ds ++ tail)%string).
    destruct (digit_text_spec d Hd) as [Hdig Hval].
    cbn [take_digits]. rewrite Hdig, Hval, (IH Hds).
    cbn [length digits_number]. rewrite Nat2Z.inj_succ, Z.pow_succ_r by lia.
    f_equal. f_equal; [ring|lia].
Qed.

Lemma strip_sign_other (c : ascii) (s : string) :
  c <> "-"%char -> c <> "+"%char ->
  strip_sign (String c s) = (false, String c s).
Proof.
  intros H1 H2. unfold strip_sign.
  destruct c as [[] [] [] [] [] [] [] []]; done.
Qed.

Lemma prefix_Infinity_other (c : ascii) (s : string) :
  c <> "I"%char -> String.prefix "Infinity" (String c s) = false.
Proof. intros H. destruct c as [[] [] [] [] [] [] [] []]; done. Qed.

(** The start of a number: a digit or the point. *)
Lemma number_start (c : ascii) :
  is_digit c = true \/ c = "."%char ->
  is_white c = false /\ c <> "-"%char /\ c <> "+"%char /\ c <> "I"%char.
Proof.
  intros [Hc | ->]; [by apply digit_not_special|].
  repeat split; done.
Qed.

Lemma sign_stripped (sg : sign) (c : ascii) (s : string) :
  is_digit c = true \/ c = "."%char ->
  strip_sign (trimStart (sign_text sg ++ String c s))
  = (match sg with minus => true | _ => false end, String c s)
  /\ String.prefix "Infinity" (String c s) = false.
Proof.
  intros Hc. destruct (number_start c Hc) as (Hw & Hm & Hp & Hi).
  split; [|by apply prefix_Infinity_other].
  destruct sg.
  - change (sign_text no_sign ++ String c s)%string with (String c s).
    cbn [trimStart]. rewrite Hw. by apply strip_sign_other.
  - reflexivity.
  - reflexivity.
Qed.

(** [parseFloat] from the pieces it reads. *)
Lemma parseFloat_pieces (input body s1 s2 : string) (neg : bool)
    (ip ni fp nf e : Z) :
  strip_sign (trimStart input) = (neg, body) ->
  String.prefix "Infinity" body = false ->
  take_digits body 0 0 = (ip, ni, s1) ->
  match s1 with
  | String "." s' => take_digits s' ip 0
  | _ => (ip, 0, s1)
  end = (fp, nf, s2) ->
  (ni =? 0)%Z && (nf =? 0)%Z = false ->
  exponent_part s2 = e ->
  parseFloat input
  = fl (if neg then - (inject_Z fp * 10 ^ (e - nf)) else inject_Z fp * 10 ^ (e - nf))%Q.
Proof.
  intros H1 H2 H3 H4 H5 H6. unfold parseFloat.
  rewrite H1, H2, H3, H4, H5, H6. reflexivity.
Qed.

Lemma exponent_text_parsed (ex : option (bool * sign * list Z))
    (rest : string) :
  match ex with
  | Some (_, _, ds) => forallb is_digit_value ds && negb (is_nil ds)
  | None => true
  end = true ->
  not_numeric rest ->
  exponent_part (exponent_text ex ++ rest)
  = match ex with
    | Some (_, s, ds) => sign_of s * digits_number ds
    | None => 0
    end
  /\ ends_fraction (exponent_text ex ++ rest).
Proof.
  intros Hex Hrest.
  assert (Hend : ends_digits rest).
  { destruct rest as [|c rest]; [done|]. by destruct Hrest as [? _]. }
  destruct ex as [[[capital s] ds]|].
  - apply andb_prop in Hex as [Hds Hne].
    destruct ds as [|d ds]; [done|].
    destruct (digit_text_spec d ltac:(simpl in Hds; by apply andb_prop in Hds as [? _]))
      as [Hdig _].
    destruct (digit_not_special _ Hdig) as (_ & Hm & Hp & _).
    pose proof (take_digits_text (d :: ds) rest 0 0 Hds Hend) as Htake.
    assert (Hstrip :
      strip_sign (sign_text s ++ digits_text (d :: ds) ++ rest)
      = (match s with minus => true | _ => false end,
         (digits_text (d :: ds) ++ rest)%string)).
    { destruct s; [|reflexivity|reflexivity].
      change (sign_text no_sign ++ digits_text (d :: ds) ++ rest)%string
        with (String (digit_text d) (digits_text ds ++ rest)%string).
      by apply strip_sign_other. }
    assert (Hn : (0 + Z.of_nat (length (d :: ds)) =? 0)%Z = false).
    { apply Z.eqb_neq. simpl length. lia. }
    unfold exponent_text. rewrite !string_app_assoc.
    split.
    + destruct capital.
      * change ("E" ++ ?x)%string with (String "E" x).
        unfold exponent_part. cbn [Ascii.eqb Bool.eqb orb].
        rewrite Hstrip, Htake, Hn. destruct s; simpl sign_of; lia.
      * change ("e" ++ ?x)%string with (String "e" x).
        unfold exponent_part. cbn [Ascii.eqb Bool.eqb orb].
        rewrite Hstrip, Htake, Hn. destruct s; simpl sign_of; lia.
    + by destruct capital.
  - change (exponent_text None ++ rest)%string with rest.
    destruct rest as [|c rest]; [done|].
    destruct Hrest as (Hd & Hdot & He1 & He2). split; [|done].
    unfold exponent_part. apply Ascii.eqb_neq in He1, He2.
    by rewrite He1, He2.
Qed.

Lemma scaled_digits (a b : Z) (k : nat) (e : Z) :
  (inject_Z (a * 10 ^ Z.of_nat k + b) * 10 ^ (e - Z.of_nat k)
   == (inject_Z a + inject_Z b / 10 ^ Z.of_nat k) * 10 ^ e)%Q.
Proof.
  assert (Hk : (0 < 10 ^ Z.of_nat k)%Q) by (by apply Qpower_0_lt).
  rewrite inject_Z_plus, inject_Z_mult, Zpower_Qpower by lia.
  change (inject_Z 10) with 10%Q.
  unfold Z.sub. rewrite Qpower_plus by done. rewrite Qpower_opp.
  field. intros H. rewrite H in Hk. by apply Qlt_irrefl in Hk.
Qed.

(** [parseFloat] reads a decimal literal as the number it denotes, rounded
    to binary64, whatever text that cannot continue the literal follows
    it. *)
Lemma parseFloat_text (l : literal) (rest : string) :
  well_formed l = true -> not_numeric rest ->
  parseFloat (text l ++ rest) = fl (value l).
Proof.
  intros Hwf Hrest. destruct l as [sg ip frac ex].
  unfold well_formed in Hwf. cbn [l_sign l_int l_frac l_exp] in Hwf.
  apply andb_prop in Hwf as [Hwf Hex].
  apply andb_prop in Hwf as [Hwf Hsome].
  apply andb_prop in Hwf as [Hip Hfp].
  destruct (exponent_text_parsed ex rest Hex Hrest) as [Hexp Hend2].
  unfold text, value, exponent. cbn [l_sign l_int l_frac l_exp].
  rewrite !string_app_assoc.
  set (tail2 := (exponent_text ex ++ rest)%string) in *.
  set (e := match ex with
            | Some (_, s, ds) => sign_of s * digits_number ds
            | None => 0
            end) in *.
  set (fp := default [] frac) in *.
  set (ipn := digits_number ip).
  assert (Hend2' : ends_digits tail2).
  { destruct tail2 as [|c t]; [done|]. by destruct Hend2 as [? _]. }
  (* the fraction *)
  assert (Hfrac :
    match (fraction_text frac ++ tail2)%string with
    | String "." s' => take_digits s' (0 * 10 ^ Z.of_nat (length ip) + ipn) 0
    | _ => (0 * 10 ^ Z.of_nat (length ip) + ipn, 0,
            (fraction_text frac ++ tail2)%string)
    end
    = (ipn * 10 ^ Z.of_nat (length fp) + digits_number fp,
       Z.of_nat (length fp), tail2)
    /\ ends_digits (fraction_text frac ++ tail2)).
  { destruct frac as [f|].
    - change (fraction_text (Some f) ++ tail2)%string
        with (String "." (digits_text f ++ tail2)%string).
      split; [|done]. cbv iota beta.
      rewrite (take_digits_text f tail2 _ 0 Hfp Hend2').
      subst fp. cbn [default]. by rewrite Z.mul_0_l, !Z.add_0_l.
    - change (fraction_text None ++ tail2)%string with tail2.
      split; [|done]. subst fp. cbn [default length digits_number Z.of_nat].
      assert (match tail2 with
              | String "." s' =>
                  take_digits s' (0 * 10 ^ Z.of_nat (length ip) + ipn) 0
              | _ => (0 * 10 ^ Z.of_nat (length ip) + ipn, 0, tail2)
              end = (0 * 10 ^ Z.of_nat (length ip) + ipn, 0, tail2)) as ->.
      { destruct tail2 as [|c t]; [done|]. destruct Hend2 as [_ Hdot].
        destruct c as [[] [] [] [] [] [] [] []]; done. }
      by rewrite Z.mul_0_l, Z.add_0_l, Z.pow_0_r, Z.mul_1_r, Z.add_0_r. }
  destruct Hfrac as [Hfrac Hend1].
  set (tail1 := (fraction_text frac ++ tail2)%string) in *.
  (* the first character *)
  assert (Hhead : exists c s, (digits_text ip ++ tail1)%string = String c s
                              /\ (is_digit c = true \/ c = "."%char)).
  { destruct ip as [|d ip].
    - destruct frac as [[|f0 f]|]; [done| |done].
      exists "."%char, (digits_text (f0 :: f) ++ tail2)%string. split; [done|].
      by right.
    - exists (digit_text d), (digits_text ip ++ tail1)%string. split; [done|].
      left. simpl in Hip. apply andb_prop in Hip as [Hd _].
      by apply digit_text_spec. }
  destruct Hhead as (c & s & Hbody & Hc).
  destruct (sign_stripped sg c s Hc) as [Hsign Hinf].
  rewrite <- Hbody in Hsign, Hinf.
  rewrite (parseFloat_pieces _ _ _ _ _ _ _ _ _ e Hsign Hinf
             (take_digits_text ip tail1 0 0 Hip Hend1) Hfrac).
  - apply fl_comp.
    pose proof (scaled_digits ipn (digits_number fp) (length fp) e) as Hs.
    destruct sg; cbn [sign_of]; cbv iota; rewrite Hs.
    + change (inject_Z 1) with 1%Q. ring.
    + change (inject_Z 1) with 1%Q. ring.
    + change (inject_Z (-1)) with (-1)%Q. ring.
  - apply andb_false_iff.
    destruct ip as [|d ip].
    + right. destruct frac as [[|f0 f]|]; [done| |done].
      apply Z.eqb_neq. subst fp. simpl. lia.
    + left. apply Z.eqb_neq. cbn [length]. lia.
  - exact Hexp.
Qed.

End LiteralParsing.

(** *** The amount check on the value of the amount *)







(** On literals [amount_ok] is a condition on the value. *)
Lemma amount_ok_value (l : literal) (rest : string) :
  well_formed l = true -> not_numeric rest ->
  amount_ok (text l ++ rest)
  <-> (least_amount < value l /\ value l <= most_amount)%Q.
Proof.
  intros Hwf Hrest.
  by rewrite amount_ok_checks, (parseFloat_text l rest Hwf Hrest),
    amount_test_value.
Qed.
